(** * anthill-login: the account model ([anthill/login/model/account.py])

    A shallow embedding of [AccountModel]: the credential/account linkage
    protocol ([__merge_accounts__], [authorize], [attach_account],
    [resolve_conflict]), the scope resolution and token minting step
    ([proceed_authentication]) and [delete_account].

    The coroutines are embedded in a state-and-exception monad over an
    explicit store (credential links, account rows, token records and a trace
    of the requests sent to other services).  A raised exception keeps the
    store as it is at the [raise], so that what was written before an error
    can be stated. *)

From Stdlib Require Import List String Ascii Bool ZArith NArith.
From Stdlib Require Import DecimalString DecimalN.
Import ListNotations.
Open Scope string_scope.
Open Scope list_scope.

Set Implicit Arguments.

(** ** Data *)

Definition Account := string.
Definition Credential := string.
Definition Gamespace := string.
Definition Scope := string.
(** A public profile, and the stored [account_info], are JSON texts. *)
Definition Profile := string.

(** An access token as [AccessTokenGenerator.generate] fills it: the scopes,
    the name (the credential) and the containers ACCOUNT, GAMESPACE and
    ISSUER.  The docstring of [__merge_accounts__] asks for "a valid access
    token with account and credential inside". *)
Record AccessToken := mkAccessToken {
  tok_name : Credential;
  tok_scopes : list Scope;
  tok_account : Account;
  tok_gamespace : Gamespace;
  tok_issuer : option string;
  tok_uuid : N
}.

(** A resolve token: [generate(sig, ["resolve_conflict"], {GAMESPACE: g},
    credential, token_only=True)].  It carries no account. *)
Record ResolveToken := mkResolveToken {
  rt_name : Credential;
  rt_scopes : list Scope;
  rt_gamespace : Gamespace;
  rt_uuid : N
}.

(** One side of the [accounts] payload of [merge_required]. *)
Record MergeSide := mkMergeSide {
  ms_account : Account;
  ms_credential : Credential;
  ms_profile : option Profile
}.

Inductive AccountsPayload :=
| MergeAccounts (local remote : MergeSide)
| AccountsSummary (summary : list (Account * Profile)).

(** The keyword arguments of [AuthenticationError] ([self.obj] without
    [result_id]): [None] for a keyword that is not passed.  [error] is passed
    as [error=e.code], the code of an authenticator's error, which is [None]
    when that error was raised with a message only. *)
Record ErrorObj := mkErrorObj {
  err_info : option string;
  err_accounts : option AccountsPayload;
  err_resolve_token : option ResolveToken;
  err_error : option (option Z);
  err_credential : option Credential
}.

Definition with_info (i : string) : ErrorObj :=
  mkErrorObj (Some i) None None None None.

Inductive Exn :=
| AuthenticationError (code : Z) (result_id : string) (obj : ErrorObj)
| AccountError (message : string)
| KeyError (key : string)
| TypeError (message : string)
| DiscoveryError (code : Z) (message : string).

(** A row of the token store: (account, system name, uuid, expires). *)
Record TokenRow := mkTokenRow {
  tr_account : Account;
  tr_name : string;
  tr_uuid : N;
  tr_expires : N
}.

(** Requests sent through [self.internal.request] and the warnings and
    exceptions handed to [logging]; [logging.debug] and [logging.info] are not
    recorded. *)
Inductive Event :=
| ReqImportSocial (gamespace : Gamespace) (credential username auth : string)
| ReqAttachAccount (gamespace : Gamespace) (credential username : string)
    (account : Account) (fetch_profile : bool)
| ReqUpdateProfile (gamespace : Gamespace) (account : Account) (fields : Profile)
| ReqMassProfiles (gamespace : Gamespace) (accounts : list Account)
| LogWarning (message : string)
| LogException (message : string).

(** The store: the table [account_credentials] (rows in insertion order), the
    table [accounts] with its AUTOINCREMENT counter, the token store, the
    source of fresh uuids and the trace. *)
Record State := mkState {
  st_links : list (Credential * Account);
  st_accounts : list (Account * string);
  st_next_id : N;
  st_tokens : list TokenRow;
  st_uuid : N;
  st_trace : list Event
}.

(** ** The monad *)

Inductive Result (A : Type) :=
| Ok (a : A) (s : State)
| Raise (e : Exn) (s : State).
Arguments Raise {A} e s.

Definition M (A : Type) := State -> Result A.

Definition ret {A} (a : A) : M A := fun s => Ok a s.
Definition raise {A} (e : Exn) : M A := fun s => Raise e s.
Definition bind {A B} (c : M A) (k : A -> M B) : M B :=
  fun s => match c s with
           | Ok a s' => k a s'
           | Raise e s' => Raise e s'
           end.
Definition gets {A} (f : State -> A) : M A := fun s => Ok (f s) s.
Definition modify (f : State -> State) : M unit := fun s => Ok tt (f s).

Declare Scope m_scope.
Delimit Scope m_scope with m.
Notation "x <- c ;; k" := (bind c (fun x => k))
  (at level 61, c at next level, right associativity) : m_scope.
Notation "c ;; k" := (bind c (fun _ => k))
  (at level 61, right associativity) : m_scope.
Open Scope m_scope.

(** [for x in xs: await f(x)] *)
Fixpoint for_each {A} (xs : list A) (f : A -> M unit) : M unit :=
  match xs with
  | [] => ret tt
  | x :: xs' => f x ;; for_each xs' f
  end.

Definition result_state {A} (r : Result A) : State :=
  match r with Ok _ s => s | Raise _ s => s end.

(** ** State updates *)

Definition set_links (f : list (Credential * Account) -> list (Credential * Account))
  (s : State) : State :=
  mkState (f (st_links s)) (st_accounts s) (st_next_id s) (st_tokens s)
          (st_uuid s) (st_trace s).
Definition set_tokens (f : list TokenRow -> list TokenRow) (s : State) : State :=
  mkState (st_links s) (st_accounts s) (st_next_id s) (f (st_tokens s))
          (st_uuid s) (st_trace s).
Definition set_accounts (f : list (Account * string) -> list (Account * string))
  (s : State) : State :=
  mkState (st_links s) (f (st_accounts s)) (st_next_id s) (st_tokens s)
          (st_uuid s) (st_trace s).
Definition emit (e : Event) : M unit :=
  modify (fun s => mkState (st_links s) (st_accounts s) (st_next_id s)
                     (st_tokens s) (st_uuid s) (st_trace s ++ [e])).

(** ** Helpers of [anthill.common.access] *)

(** Modelled from the spec: [access.parse_account] is not in the sources; the
    credential grammar is [type ":" username] and the parse keeps the first
    colon only.  A text without a colon is all type. *)
Fixpoint parse_account (c : string) : string * string :=
  match c with
  | EmptyString => ("", "")
  | String a rest =>
      if Ascii.eqb a ":"%char then ("", rest)
      else let (t, u) := parse_account rest in (String a t, u)
  end.

Definition credential_type (c : Credential) : string := fst (parse_account c).

Definition mem (x : string) (l : list string) : bool :=
  existsb (String.eqb x) l.

(** Python truth of a [str] and of an optional [str]. *)
Definition truthy (x : string) : bool := negb (x =? "").
Definition truthy_opt (x : option string) : bool :=
  match x with Some v => truthy v | None => false end.

(** ** The credential store ([self.application.credentials]) *)

Definition same_link (c : Credential) (a : Account) (l : Credential * Account) : bool :=
  (fst l =? c) && (snd l =? a).

Definition linked (links : list (Credential * Account)) (c : Credential) (a : Account) : bool :=
  existsb (same_link c a) links.

(** Modelled from the spec: [CredentialModel.attach] is not in the sources;
    "idempotent insert of link". *)
Definition attach_link (c : Credential) (a : Account)
  (links : list (Credential * Account)) : list (Credential * Account) :=
  if linked links c a then links else links ++ [(c, a)].
Definition attach (c : Credential) (a : Account) : M unit :=
  modify (set_links (attach_link c a)).

(** Modelled from the spec: [CredentialModel.detach] is not in the sources;
    "remove link; no-op if absent".  This is [detach(credential, account)],
    the call without [accounts_data]. *)
Definition detach_link (c : Credential) (a : Account)
  (links : list (Credential * Account)) : list (Credential * Account) :=
  filter (fun l => negb (same_link c a l)) links.
Definition detach (c : Credential) (a : Account) : M unit :=
  modify (set_links (detach_link c a)).

(** All the credentials of an account: [list_account_credentials(account)]
    with no restriction on the types. *)
Definition all_credentials_of (links : list (Credential * Account)) (a : Account)
  : list Credential :=
  map fst (filter (fun l => snd l =? a) links).

(** Modelled from the spec: [CredentialModel.detach] is not in the sources, and
    the spec has no word on its parameter [accounts_data], which [not_mine],
    [local] and [_multiple_accounts_attached] pass.  It is the account model,
    handed over so that an account left without any credential is deleted:
    after the link is removed, an account with no credential left goes to
    [accounts_data.delete_account].  [accounts_data] stands here for that
    method. *)
Definition detach_accounts_data (c : Credential) (a : Account)
  (accounts_data : Account -> M unit) : M unit :=
  detach c a ;;
  credentials <- gets (fun s => all_credentials_of (st_links s) a) ;;
  match credentials with
  | [] => accounts_data a
  | _ :: _ => ret tt
  end.

(** Modelled from the spec: [CredentialModel.list_accounts] is not in the
    sources; "all accounts linked to this credential". *)
Definition accounts_of (links : list (Credential * Account)) (c : Credential) : list Account :=
  map snd (filter (fun l => fst l =? c) links).
Definition list_accounts (c : Credential) : M (list Account) :=
  gets (fun s => accounts_of (st_links s) c).

(** Modelled from the spec: [CredentialModel.list_account_credentials] is not
    in the sources; "credentials of an account, optionally restricted to a
    given set of types". *)
Definition credentials_of (links : list (Credential * Account)) (a : Account)
  (types : list string) : list Credential :=
  map fst (filter (fun l => (snd l =? a) && mem (credential_type (fst l)) types) links).
Definition list_account_credentials (a : Account) (types : list string) : M (list Credential) :=
  gets (fun s => credentials_of (st_links s) a types).

(** ** The token store ([self.application.tokens]) *)

(** Modelled from the spec: [TokenStore.invalidate_account] is not in the
    sources; the merge flow assumes it revokes all tokens of the account. *)
Definition invalidate_rows (a : Account) (rows : list TokenRow) : list TokenRow :=
  filter (fun r => negb (tr_account r =? a)) rows.
Definition invalidate_account (a : Account) : M unit :=
  modify (set_tokens (invalidate_rows a)).

Definition system_name (name : option string) : string :=
  match name with
  | Some n => if truthy n then n else "def"
  | None => "def"
  end.

(** Modelled from the spec: [TokenStore.save_token] is not in the sources;
    [save(account, uuid, expires, name = as or "def")], which "also
    invalidates the previous token for (account, name)". *)
Definition save_rows (a : Account) (uuid expires : N) (name : option string)
  (rows : list TokenRow) : list TokenRow :=
  filter (fun r => negb ((tr_account r =? a) && (tr_name r =? system_name name))) rows
  ++ [mkTokenRow a (system_name name) uuid expires].
Definition save_token (a : Account) (uuid expires : N) (name : option string) : M unit :=
  modify (set_tokens (save_rows a uuid expires name)).

(** A token is live when the store holds a row with its account and uuid. *)
Definition live (rows : list TokenRow) (a : Account) (uuid : N) : bool :=
  existsb (fun r => (tr_account r =? a) && (tr_uuid r =? uuid)%N) rows.

(** ** Collaborators outside the sources *)

(** What [self.internal.request] can do: reply, raise [InternalError] (the
    service answered with an error) or raise [discover.DiscoveryError] (the
    service was not found). *)
Inductive Rpc (A : Type) :=
| Reply (a : A)
| InternalError (code : Z) (body : string)
| DiscoveryFailed (code : Z) (message : string).
Arguments InternalError {A} code body.
Arguments DiscoveryFailed {A} code message.

Definition Environ := option (list (string * string)).

(** The request arguments [args].  A token argument stands for the token its
    text decodes to; [tv_signed] tells whether the signature verifies. *)
Record TokenArg := mkTokenArg {
  tv_token : AccessToken;
  tv_signed : bool
}.

(** Modelled from the spec: [TokenStore.validate] is not in the sources; the
    signature must verify, and a unique token (one with an issuer) is
    "registered in TokenStore, revocable", a non-unique one is "unregistered,
    irrevocable". *)
Definition validate (t : TokenArg) : M bool :=
  gets (fun s => tv_signed t &&
                 match tok_issuer (tv_token t) with
                 | Some _ => live (st_tokens s) (tok_account (tv_token t)) (tok_uuid (tv_token t))
                 | None => true
                 end).

Record Args := mkArgs {
  arg_credential : option string;
  arg_scopes : option string;
  arg_gamespace : option string;
  arg_gamespace_id : option string;
  arg_attach_to : option TokenArg;
  arg_access_token : option TokenArg;
  arg_as : option string;
  arg_unique : option string;
  arg_should_have : option string;
  arg_import_profile : option string;
  arg_info : option string;
  arg_resolve_with : option string;
  arg_other : list (string * string)
}.

(** The result of a credential authenticator. *)
Record AuthResponse := mkAuthResponse {
  import_social : bool;
  resp_data : string
}.
Record AuthResult := mkAuthResult {
  res_credential : string;
  res_username : string;
  res_response : option AuthResponse
}.
(** An authenticator returns its result or raises
    [authenticator.AuthenticationError(message, code)]; the code is [None]
    when the error is raised with a message only. *)
Inductive AuthOutcome :=
| Authorized (r : AuthResult)
| AuthenticatorError (message : string) (code : option Z).

Record Authenticator := mkAuthenticator {
  social_profile : bool;
  authenticator_authorize : Gamespace -> Args -> Environ -> AuthOutcome
}.

(** What [ujson.loads] makes of the [info] argument. *)
Inductive Loaded :=
| LoadFailed
| LoadedOther
| LoadedDict (d : string).

(** The parts of the application this file uses and does not define: library
    helpers, the credential-type registry, the gamespace and scope catalogs,
    and the answers of the social and profile services. *)
Record Application := mkApplication {
  parse_scopes : string -> list Scope;
  validate_token_name : string -> bool;
  credential_types : list (string * Authenticator);
  find_gamespace : string -> option Gamespace;
  get_account_access : Gamespace -> Account -> option (list Scope);
  get_gamespace_access_scopes : Gamespace -> option string;
  import_social_reply : Gamespace -> string -> string -> string -> Rpc unit;
  attach_account_reply : Gamespace -> string -> string -> Account -> Environ -> bool
                         -> Rpc (option Profile);
  update_profile_reply : Gamespace -> Account -> Profile -> Rpc unit;
  mass_profiles_reply : Gamespace -> list Account -> Rpc (list (Account * Profile));
  json_loads : string -> Loaded;
  json_update : option string -> string -> option string;
  token_expires : N
}.

Fixpoint lookup {A} (k : string) (d : list (string * A)) : option A :=
  match d with
  | [] => None
  | (k', v) :: d' => if k' =? k then Some v else lookup k d'
  end.

(** [str(n)] of a row id. *)
Definition str (n : N) : string := NilEmpty.string_of_uint (N.to_uint n).

(** [AccessTokenGenerator.generate(..., token_only=True)] for a resolve
    token: scopes, containers and name as passed, a fresh uuid. *)
Definition generate_resolve_token (gamespace : Gamespace) (credential : Credential)
  : M ResolveToken :=
  fun s => Ok (mkResolveToken credential ["resolve_conflict"] gamespace (st_uuid s))
              (mkState (st_links s) (st_accounts s) (st_next_id s) (st_tokens s)
                       (N.succ (st_uuid s)) (st_trace s)).

(** [AccessTokenGenerator.generate] for an access token. *)
Definition generate (scopes : list Scope) (account : Account) (gamespace : Gamespace)
  (issuer : option string) (name : Credential) : M AccessToken :=
  fun s => Ok (mkAccessToken name scopes account gamespace issuer (st_uuid s))
              (mkState (st_links s) (st_accounts s) (st_next_id s) (st_tokens s)
                       (N.succ (st_uuid s)) (st_trace s)).

(** ** [AccountModel] *)

Definition LOCAL_CREDENTIALS : list string := ["anonymous"; "dev"].

(** The result of [authorize], [attach_account] and [resolve_conflict]. *)
Record AuthReply := mkAuthReply {
  rep_token : AccessToken;
  rep_account : Account;
  rep_credential : Credential;
  rep_scopes : list Scope
}.

Section AccountModel.

Variable app : Application.

(** [create_account]: the INSERT hands out the next row id; storage errors
    ([DatabaseError]) are not modelled.  The result is [str(result)], never
    [None], so the callers' test [account is None] cannot hold. *)
Definition create_account : M Account :=
  fun s => Ok (str (st_next_id s))
              (mkState (st_links s) (st_accounts s ++ [(str (st_next_id s), "{}")])
                       (N.succ (st_next_id s)) (st_tokens s) (st_uuid s) (st_trace s)).

(** [get_account_info]: [None] when there is no such row. *)
Definition get_account_info (account : Account) : M (option string) :=
  gets (fun s => lookup account (st_accounts s)).

(** [update_account_info]: [json_update] is [anthill.common.update] followed by
    [ujson.dumps]; it answers [None] where [update] raises. *)
Definition update_account_info (account : Account) (account_info : string) : M unit :=
  value <- get_account_info account ;;
  match json_update app value account_info with
  | None => raise (TypeError "update")
  | Some value' =>
      modify (set_accounts (map (fun row =>
        if fst row =? account then (fst row, value') else row)))
  end.

(** [delete_account].  Its first statement awaits the bound method
    [credentials_data.list_account_credentials] itself, not a call of it:
    Python raises [TypeError] there, before any credential is detached and
    before the DELETE.  (The loop, which that statement never lets run, hands
    [self] to [detach].) *)
Definition delete_account (account_id : Account) : M unit :=
  credentials <- raise (A := list Credential)
                   (TypeError "object method can't be used in 'await' expression") ;;
  for_each credentials (fun credential => detach credential account_id) ;;
  modify (set_accounts (filter (fun row => negb (fst row =? account_id)))).

Definition multiple_accounts_info (credential_mine : Credential) : string :=
  ("Credential '" ++ credential_mine ++ "' has multiple accounts attached.")%string.

(** The three closures of [__merge_accounts__].  [accounts_data] is
    [self.application.accounts], the account model itself; [not_mine] and
    [local] hand it to [detach], [remote] does not. *)
Definition not_mine (credential_mine : Credential) (account_mine account_attach : Account)
  : M Account :=
  detach_accounts_data credential_mine account_mine delete_account ;;
  attach credential_mine account_attach ;;
  ret account_attach.

Definition local (credential_mine : Credential) (account_mine account_attach : Account)
  : M Account :=
  detach_accounts_data credential_mine account_mine delete_account ;;
  attach credential_mine account_attach ;;
  anonymous_credentials <- list_account_credentials account_mine LOCAL_CREDENTIALS ;;
  for_each anonymous_credentials (fun anon_credential =>
    attach anon_credential account_attach) ;;
  invalidate_account account_mine ;;
  ret account_attach.

Definition remote (credential_attach : Credential) (account_mine account_attach : Account)
  : M Account :=
  detach credential_attach account_attach ;;
  invalidate_account account_attach ;;
  attach credential_attach account_mine ;;
  ret account_mine.

(** [profiles[account]] on the reply of [mass_profiles]. *)
Definition getitem (profiles : list (Account * Profile)) (account : Account) : M Profile :=
  match lookup account profiles with
  | Some p => ret p
  | None => raise (KeyError account)
  end.

Definition __merge_accounts__ (attach_to : AccessToken) (credential : Credential)
  (resolve : option string) (gamespace : Gamespace) : M Account :=
  let credential_type := fst (parse_account credential) in
  let account_attach := tok_account attach_to in
  let credential_attach := tok_name attach_to in
  let credential_mine := credential in
  attached_credentials <- list_account_credentials account_attach [credential_type] ;;
  let same_credential := hd_error attached_credentials in
  accounts <- list_accounts credential_mine ;;
  if truthy_opt same_credential then
    if match same_credential with Some c => c =? credential_mine | None => false end
    then ret account_attach
    else
      account_mine <-
        match accounts with
        | [] =>
            account_mine <- create_account ;;
            attach credential_mine account_mine ;;
            ret account_mine
        | [account_mine] => ret account_mine
        | _ =>
            raise (AuthenticationError 409 "multiple_accounts_attached"
                     (with_info (multiple_accounts_info credential_mine)))
        end ;;
      detach credential_attach account_attach ;;
      attach credential_attach account_mine ;;
      invalidate_account account_attach ;;
      ret account_mine
  else
    match accounts with
    | [] =>
        attach credential_mine account_attach ;;
        ret account_attach
    | [account_mine] =>
        match resolve with
        | None =>
            resolve_token <- generate_resolve_token gamespace credential ;;
            emit (ReqMassProfiles gamespace [account_attach; account_mine]) ;;
            sides <-
              match mass_profiles_reply app gamespace [account_attach; account_mine] with
              | InternalError code body =>
                  emit (LogException "failed to get profiles for conflict: %s, %s") ;;
                  ret (mkMergeSide account_attach credential_attach None,
                       mkMergeSide account_mine credential_mine None)
              | DiscoveryFailed code message =>
                  raise (DiscoveryError code message)
              | Reply profiles =>
                  profile_attach <- getitem profiles account_attach ;;
                  profile_mine <- getitem profiles account_mine ;;
                  ret (mkMergeSide account_attach credential_attach (Some profile_attach),
                       mkMergeSide account_mine credential_mine (Some profile_mine))
              end ;;
            raise (AuthenticationError 409 "merge_required"
                     (mkErrorObj None (Some (MergeAccounts (fst sides) (snd sides)))
                                 (Some resolve_token) None None))
        | Some option =>
            if option =? "not_mine" then not_mine credential_mine account_mine account_attach
            else if option =? "local" then local credential_mine account_mine account_attach
            else if option =? "remote" then remote credential_attach account_mine account_attach
            else raise (AuthenticationError 400 "unknown_merge_option"
                          (with_info ("Unknown merge option: '" ++ option ++ "'.")%string))
        end
    | _ =>
        raise (AuthenticationError 409 "multiple_accounts_attached"
                 (with_info (multiple_accounts_info credential_mine)))
    end.

(** [__multiple_accounts_attached__] always raises. *)
Definition __multiple_accounts_attached__ {A} (gamespace_id : Gamespace)
  (credential : Credential) (accounts : list Account) : M A :=
  resolve_token <- generate_resolve_token gamespace_id credential ;;
  emit (ReqMassProfiles gamespace_id accounts) ;;
  account_profiles <-
    match mass_profiles_reply app gamespace_id accounts with
    | Reply profiles => ret profiles
    | InternalError code body =>
        emit (LogException "failed to get profiles for multiple_accounts_attached: %s, %s") ;;
        ret []
    | DiscoveryFailed code message => raise (DiscoveryError code message)
    end ;;
  let accounts_summary :=
    map (fun account =>
           (account, match lookup account account_profiles with
                     | Some p => p
                     | None => "{}"
                     end)) accounts in
  raise (AuthenticationError 300 "multiple_accounts_attached"
           (mkErrorObj (Some "Conflict: More than one credentials attached to this account.")
                       (Some (AccountsSummary accounts_summary))
                       (Some resolve_token) None None)).

Definition get_default (x : option string) (d : string) : string :=
  match x with Some v => v | None => d end.

(** [_have_scope] of [proceed_authentication]; [should_have_scopes] is bound
    only when [should_have] is not the wildcard. *)
Definition _have_scope (should_have : string) (a_scope : Scope) : bool :=
  (should_have =? "*") || mem a_scope (parse_scopes app should_have).

(** [list(set(requested_scopes) & set(user_scopes))]; the members are listed in
    the order they were requested. *)
Definition cross (requested_scopes user_scopes : list Scope) : list Scope :=
  nodup string_dec (filter (fun s => mem s user_scopes) requested_scopes).

Definition proceed_authentication (account : Account) (credential : Credential)
  (gamespace_id : Gamespace) (requested_scopes : list Scope) (args : Args)
  (env : Environ) : M AuthReply :=
  let cred_type := fst (parse_account credential) in
  let username := snd (parse_account credential) in
  let auth_as := arg_as args in
  (if truthy_opt auth_as && negb (validate_token_name app (get_default auth_as ""))
   then raise (AuthenticationError 400 "bad_auth_as"
                 (with_info ("Bad auth as name format : " ++ get_default auth_as "")%string))
   else ret tt) ;;
  match lookup cred_type (credential_types app) with
  | None =>
      raise (AuthenticationError 400 "unknown_credential"
               (with_info ("Unknown credential type: " ++ cred_type)%string))
  | Some credential_authenticator =>
      let fetch_profile := get_default (arg_import_profile args) "true" =? "true" in
      profile_data <-
        (if social_profile credential_authenticator then
           emit (ReqAttachAccount gamespace_id cred_type username account fetch_profile) ;;
           match attach_account_reply app gamespace_id cred_type username account env
                                      fetch_profile with
           | Reply data => ret data
           | InternalError code body =>
               emit (LogWarning "Failed to get profile_data: %s %s") ;;
               ret None
           | DiscoveryFailed code message => raise (DiscoveryError code message)
           end
         else ret None) ;;
      let should_have := get_default (arg_should_have args) "*" in
      let user_scopes0 :=
        match get_account_access app gamespace_id account with
        | Some scopes => scopes
        | None => []
        end in
      match get_gamespace_access_scopes app gamespace_id with
      | None =>
          raise (AuthenticationError 404 "no_such_gamespace"
                   (with_info ("Gamespace ID '" ++ gamespace_id ++ "' was not found.")%string))
      | Some gamespace_scopes_data =>
          let gamespace_scopes := parse_scopes app gamespace_scopes_data in
          let user_scopes := user_scopes0 ++ gamespace_scopes in
          for_each requested_scopes (fun scope =>
            if negb (mem scope user_scopes) && _have_scope should_have scope
            then raise (AuthenticationError 403 "scope_restricted"
                          (mkErrorObj
                             (Some ("User '" ++ credential ++ "' has no scope '" ++ scope
                                    ++ "' asked.")%string)
                             None None None (Some credential)))
            else ret tt) ;;
          unique <-
            (if get_default (arg_unique args) "true" =? "false" then
               if negb (mem "auth_non_unique" user_scopes)
               then raise (AuthenticationError 403 "non_unique_token_restricted"
                             (mkErrorObj
                                (Some ("User '" ++ credential ++ "' has no access to disable unique "
                                       ++ "tokens (scope 'auth_non_unique' is required).")%string)
                                None None None (Some credential)))
               else ret false
             else ret true) ;;
          let allowed_scopes := cross requested_scopes user_scopes in
          (if truthy_opt (arg_info args) then
             match json_loads app (get_default (arg_info args) "") with
             | LoadFailed =>
                 raise (AuthenticationError 400 "bad_account_info"
                          (with_info "The field 'info' is corrupted."))
             | LoadedOther =>
                 raise (AuthenticationError 400 "bad_account_info"
                          (with_info "The field 'info' should be a JSON dictionary."))
             | LoadedDict account_info => update_account_info account account_info
             end
           else ret tt) ;;
          token <- generate allowed_scopes account gamespace_id
                            (if unique then Some "login" else None) credential ;;
          (if unique
           then save_token account (tok_uuid token) (token_expires app) auth_as
           else ret tt) ;;
          (if social_profile credential_authenticator then
             match profile_data with
             | Some fields =>
                 emit (ReqUpdateProfile gamespace_id account fields) ;;
                 match update_profile_reply app gamespace_id account fields with
                 | Reply _ => ret tt
                 | InternalError code body =>
                     emit (LogWarning "Failed to update user profile: %s %s")
                 | DiscoveryFailed code message => raise (DiscoveryError code message)
                 end
             | None => ret tt
             end
           else ret tt) ;;
          ret (mkAuthReply token account credential (tok_scopes token))
      end
  end.

Definition missing_argument : Exn :=
  AuthenticationError 400 "missing_argument" (with_info "Some argument is missing.").

Definition attach_to_token_invalid : Exn :=
  AuthenticationError 403 "attach_to_token_invalid" (with_info "Token attach to is not valid").

(** [__import_social_connections__] *)
Definition __import_social_connections__ (gamespace : Gamespace)
  (credential username : string) (auth_response : AuthResponse) : M unit :=
  emit (ReqImportSocial gamespace credential username (resp_data auth_response)) ;;
  match import_social_reply app gamespace credential username (resp_data auth_response) with
  | Reply _ => ret tt
  | InternalError code body =>
      raise (AuthenticationError code "failed_to_import_social" (with_info body))
  | DiscoveryFailed code message =>
      emit (LogWarning "Failed to discover social: ")
  end.

Definition authorize (args : Args) (env : Environ) : M AuthReply :=
  match arg_credential args, arg_scopes args,
        (if truthy_opt (arg_gamespace_id args) then Some "" else arg_gamespace args) with
  | Some cred_type, Some scopes, Some gamespace_name =>
      let requested_scopes := parse_scopes app scopes in
      let attach_to := arg_attach_to args in
      match lookup cred_type (credential_types app) with
      | None =>
          raise (AuthenticationError 400 "unknown_credential"
                   (with_info ("Unknown credential type: " ++ cred_type)%string))
      | Some credential_authorizer =>
          match attach_to with
          | Some token =>
              valid <- validate token ;;
              if valid then ret tt else raise attach_to_token_invalid
          | None => ret tt
          end ;;
          gamespace_id <-
            (if truthy_opt (arg_gamespace_id args)
             then ret (get_default (arg_gamespace_id args) "")
             else match find_gamespace app gamespace_name with
                  | Some g => ret g
                  | None =>
                      raise (AuthenticationError 404 "no_such_gamespace"
                               (with_info ("Gamespace '" ++ gamespace_name
                                           ++ "' was not found.")%string))
                  end) ;;
          match authenticator_authorize credential_authorizer gamespace_id args env with
          | AuthenticatorError message code =>
              raise (AuthenticationError 403 message
                       (mkErrorObj (Some "Failed to authorize with such username/password")
                                   None None (Some code) None))
          | Authorized result =>
              match res_response result with
              | Some response =>
                  if import_social response
                  then __import_social_connections__ gamespace_id (res_credential result)
                         (res_username result) response
                  else ret tt
              | None => ret tt
              end ;;
              let credential := (res_credential result ++ ":" ++ res_username result)%string in
              account <-
                match attach_to with
                | Some token =>
                    __merge_accounts__ (tv_token token) credential None gamespace_id
                | None =>
                    accounts <- list_accounts credential ;;
                    match accounts with
                    | [] =>
                        account <- create_account ;;
                        attach credential account ;;
                        ret account
                    | [account] => ret account
                    | _ => __multiple_accounts_attached__ gamespace_id credential accounts
                    end
                end ;;
              proceed_authentication account credential gamespace_id requested_scopes args env
          end
      end
  | _, _, _ => raise missing_argument
  end.

Definition attach_account (args : Args) (env : Environ) : M AuthReply :=
  match arg_access_token args, arg_attach_to args, arg_scopes args with
  | Some access_token, Some attach_to, Some scopes =>
      let requested_scopes := parse_scopes app scopes in
      valid <- validate access_token ;;
      (if valid then ret tt
       else raise (AuthenticationError 403 "access_token_invalid"
                     (with_info "Access token is not valid"))) ;;
      valid' <- validate attach_to ;;
      (if valid' then ret tt else raise attach_to_token_invalid) ;;
      let token_gamespace := tok_gamespace (tv_token access_token) in
      let attach_to_gamespace := tok_gamespace (tv_token attach_to) in
      if negb (token_gamespace =? attach_to_gamespace)
      then raise (AuthenticationError 400 "wrong_gamespace"
                    (with_info "These tokens are from different gamespaces"))
      else
        let gamespace_id := attach_to_gamespace in
        let credential := tok_name (tv_token access_token) in
        account <- __merge_accounts__ (tv_token attach_to) credential None gamespace_id ;;
        proceed_authentication account credential gamespace_id requested_scopes args env
  | _, _, _ => raise missing_argument
  end.

(** [accounts.remove(x)]: drops the first occurrence, [None] for
    [ValueError]. *)
Fixpoint list_remove (x : string) (l : list string) : option (list string) :=
  match l with
  | [] => None
  | y :: l' =>
      if y =? x then Some l'
      else match list_remove x l' with
           | Some r => Some (y :: r)
           | None => None
           end
  end.

(** The closures of [resolve_conflict]. *)
Definition _multiple_accounts_attached (credential : Credential) (args : Args)
  : M Account :=
  (* [args["resolve_with"]] was read by [resolve_conflict] before. *)
  let select_option := get_default (arg_resolve_with args) "" in
  accounts <- list_accounts credential ;;
  match list_remove select_option accounts with
  | None =>
      raise (AuthenticationError 400 "cannot_resolve_conflict"
               (with_info ("No such account to select: '" ++ select_option ++ "'.")%string))
  | Some accounts' =>
      for_each accounts' (fun other_account =>
        detach_accounts_data credential other_account delete_account) ;;
      ret select_option
  end.

(** [AccessToken(attach_to)] of an absent [attach_to] is a token that does not
    validate. *)
Definition _merge_required (credential : Credential) (gamespace : Gamespace)
  (attach_to : option TokenArg) (resolve_with : string) : M Account :=
  match attach_to with
  | None => raise attach_to_token_invalid
  | Some attach_to_token =>
      valid <- validate attach_to_token ;;
      (if valid then ret tt else raise attach_to_token_invalid) ;;
      __merge_accounts__ (tv_token attach_to_token) credential (Some resolve_with) gamespace
  end.

Definition resolve_conflict (resolve_token : ResolveToken) (method_to_resolve : string)
  (args : Args) (env : Environ) : M AuthReply :=
  match arg_resolve_with args, arg_scopes args with
  | Some resolve_with, Some scopes =>
      let requested_scopes := parse_scopes app scopes in
      let attach_to := arg_attach_to args in
      let credential := rt_name resolve_token in
      let gamespace := rt_gamespace resolve_token in
      if negb (mem method_to_resolve ["merge_required"; "multiple_accounts_attached"])
      then raise (AuthenticationError 400 "bad_resolve_method"
                    (with_info ("Resolve method unsupported: " ++ method_to_resolve)%string))
      else
        account <-
          (if method_to_resolve =? "merge_required"
           then _merge_required credential gamespace attach_to resolve_with
           else _multiple_accounts_attached credential args) ;;
        proceed_authentication account credential gamespace requested_scopes args env
  | _, _ => raise missing_argument
  end.

End AccountModel.

(** ** A concrete application, for running the model *)

Module Fixture.

(** [scopes.split(",")] without the empty pieces. *)
Fixpoint split_commas (acc : string) (s : string) : list string :=
  match s with
  | EmptyString => if truthy acc then [acc] else []
  | String a rest =>
      if Ascii.eqb a ","%char
      then (if truthy acc then [acc] else []) ++ split_commas "" rest
      else split_commas (acc ++ String a "")%string rest
  end.

(** An authenticator that trusts the [username] field of the request. *)
Definition trusting (type : string) (social : bool) : Authenticator :=
  mkAuthenticator social (fun _ args _ =>
    match lookup "username" (arg_other args) with
    | Some u => Authorized (mkAuthResult type u None)
    | None => AuthenticatorError "bad_username" (Some 1%Z)
    end).

(** An application where every service answers; the scopes of the accounts,
    the answer to the [attach_account] request and the answer of
    [mass_profiles] are left open. *)
Definition app_with (account_scopes : option (list Scope))
  (attached : Rpc (option Profile)) (profiles : Rpc (list (Account * Profile)))
  : Application :=
  mkApplication
    (split_commas "")
    (fun _ => true)
    [("anonymous", trusting "anonymous" false);
     ("dev", trusting "dev" false);
     ("google", trusting "google" true);
     ("facebook", trusting "facebook" true)]
    (fun name => if name =? "g" then Some "1" else None)
    (fun _ _ => account_scopes)
    (fun _ => Some "profile,game")
    (fun _ _ _ _ => Reply tt)
    (fun _ _ _ _ _ _ => attached)
    (fun _ _ _ => Reply tt)
    (fun _ _ => profiles)
    (fun _ => LoadFailed)
    (fun _ _ => None)
    3600.

(** No account has scopes of its own, no profile is known. *)
Definition app : Application := app_with None (Reply None) (Reply []).

(** The store after setup: account 1 is reserved. *)
Definition empty_store : State :=
  mkState [] [("1", "{}")] 2 [] 0 [].

Definition store_with (links : list (Credential * Account)) : State :=
  mkState links [("1", "{}")] 2 [] 0 [].

Definition no_args : Args :=
  mkArgs None None None None None None None None None None None None [].

(** [authorize] arguments: credential type, username, optional [attach_to]. *)
Definition login (type username : string) (attach_to : option TokenArg) : Args :=
  mkArgs (Some type) (Some "profile") (Some "g") None attach_to None
         None None None None None None [("username", username)].

Definition bearer (name : Credential) (account : Account) : AccessToken :=
  mkAccessToken name ["profile"] account "1" None 0.

End Fixture.

(** ** The rest of [AccountModel] *)

(** [accounts_deleted]: the two DELETE statements, [WHERE account_id IN
    accounts].  Storage errors are not modelled; how the driver renders an
    empty list is not in the sources. *)
Definition accounts_deleted (gamespace : Gamespace) (accounts : list Account)
  (gamespace_only : bool) : M unit :=
  if gamespace_only then ret tt
  else
    modify (set_links (filter (fun l => negb (mem (snd l) accounts)))) ;;
    modify (set_accounts (filter (fun row => negb (mem (fst row) accounts)))).

(** [check_account_exists]: [bool] of the row [SELECT 1 ...] finds. *)
Definition check_account_exists (account : Account) : M bool :=
  gets (fun s => match lookup account (st_accounts s) with
                 | Some _ => true
                 | None => false
                 end).

(** Modelled from the spec: [CredentialModel.get_account] is not in the
    sources; "[get_account(credential) -> account_id] or fails with
    [CredentialNotFound]" ([None] here).  Of several linked accounts the first
    row is taken. *)
Definition get_account (c : Credential) : M (option Account) :=
  gets (fun s => hd_error (accounts_of (st_links s) c)).

(** [lookup_account] *)
Definition lookup_account (credential : Credential) : M Account :=
  found <- get_account credential ;;
  match found with
  | None =>
      account <- create_account ;;
      attach credential account ;;
      ret account
  | Some account => ret account
  end.

(** ** The social authenticators ([src/social]) *)

(** What [api_auth] gives back: the user name and the response kept in the
    [AuthenticationResult], or [APIError]. *)
Record ApiResult := mkApiResult {
  api_username : string;
  api_response : AuthResponse
}.
Inductive ApiOutcome :=
| ApiOk (result : ApiResult)
| APIError (code : Z) (body : string).

Section Social.

(** The [NAME] of the API class ([self.type()]), which is not in the
    sources. *)
Variable NAME : string.

(** [api_auth(gamespace, ...)] of the API class, with its two arguments. *)
Variable api_auth : Gamespace -> string -> string -> ApiOutcome.

(** [SteamAuthenticator.authorize]; [logging.exception] is not recorded. *)
Definition steam_authorize (gamespace : Gamespace) (args : Args) (env : Environ)
  : AuthOutcome :=
  match lookup "ticket" (arg_other args), lookup "app_id" (arg_other args) with
  | Some ticket, Some app_id =>
      match api_auth gamespace ticket app_id with
      | APIError code body => AuthenticatorError ("API error:" ++ body)%string (Some code)
      | ApiOk result =>
          Authorized (mkAuthResult NAME (api_username result) (Some (api_response result)))
      end
  | _, _ => AuthenticatorError "missing_argument" None
  end.

(** [VKAuthenticator.authorize] *)
Definition vk_authorize (gamespace : Gamespace) (args : Args) (env : Environ)
  : AuthOutcome :=
  match lookup "code" (arg_other args), lookup "redirect_uri" (arg_other args) with
  | Some code, Some redirect_uri =>
      match api_auth gamespace code redirect_uri with
      | APIError code' body => AuthenticatorError ("API error:" ++ body)%string (Some code')
      | ApiOk result =>
          Authorized (mkAuthResult NAME (api_username result) (Some (api_response result)))
      end
  | _, _ => AuthenticatorError "missing_argument" None
  end.

(** Both classes answer [True] to [social_profile()]. *)
Definition SteamAuthenticator : Authenticator := mkAuthenticator true steam_authorize.
Definition VKAuthenticator : Authenticator := mkAuthenticator true vk_authorize.

End Social.

(** * Vocabulary of the statements *)

(** Attaching a list of credentials to one account, as the loop of [local]
    does. *)
Definition attach_all (cs : list Credential) (a : Account)
  (links : list (Credential * Account)) : list (Credential * Account) :=
  fold_left (fun ls c => attach_link c a ls) cs links.

(** The links [local] leaves: the merged credential is moved, then every
    local-type credential still on [am] is attached to [aa]. *)
Definition local_links (c : Credential) (am aa : Account)
  (links : list (Credential * Account)) : list (Credential * Account) :=
  let moved := attach_link c aa (detach_link c am links) in
  attach_all (credentials_of moved am LOCAL_CREDENTIALS) aa moved.

(** The error [merge_required] of [__merge_accounts__]. *)
Definition merge_required (attach_to : AccessToken) (credential : Credential)
  (gamespace : Gamespace) (account_mine : Account) (uuid : N)
  (profile_attach profile_mine : option Profile) : Exn :=
  AuthenticationError 409 "merge_required"
    (mkErrorObj None
       (Some (MergeAccounts
                (mkMergeSide (tok_account attach_to) (tok_name attach_to) profile_attach)
                (mkMergeSide account_mine credential profile_mine)))
       (Some (mkResolveToken credential ["resolve_conflict"] gamespace uuid))
       None None).

(** What the conflict branch raises, by the answer of [mass_profiles]. *)
Definition conflict_error (app : Application) (attach_to : AccessToken)
  (credential : Credential) (gamespace : Gamespace) (account_mine : Account)
  (uuid : N) : Exn :=
  match mass_profiles_reply app gamespace [tok_account attach_to; account_mine] with
  | InternalError _ _ =>
      merge_required attach_to credential gamespace account_mine uuid None None
  | DiscoveryFailed code message => DiscoveryError code message
  | Reply profiles =>
      match lookup (tok_account attach_to) profiles with
      | None => KeyError (tok_account attach_to)
      | Some profile_attach =>
          match lookup account_mine profiles with
          | None => KeyError account_mine
          | Some profile_mine =>
              merge_required attach_to credential gamespace account_mine uuid
                (Some profile_attach) (Some profile_mine)
          end
      end
  end.

(** One credential detached from a list of accounts: the links the loop of
    [_multiple_accounts_attached] has removed after these accounts. *)
Definition detach_all (c : Credential) (accounts : list Account)
  (links : list (Credential * Account)) : list (Credential * Account) :=
  fold_left (fun ls a => detach_link c a ls) accounts links.

(** What [delete_account] raises at its first statement. *)
Definition await_error : Exn :=
  TypeError "object method can't be used in 'await' expression".

(** Whether detaching [c] from [a] leaves [a] without any credential, which is
    when [detach] with [accounts_data] goes on to [delete_account]. *)
Definition left_without_credentials (links : list (Credential * Account))
  (c : Credential) (a : Account) : bool :=
  match all_credentials_of (detach_link c a links) a with
  | [] => true
  | _ :: _ => false
  end.

(** The account keeps a credential other than [c]. *)
Definition keeps_credential (links : list (Credential * Account))
  (c : Credential) (a : Account) : Prop :=
  exists c', c' <> c /\ In (c', a) links.

(** The [result_id] of an [AuthenticationError]. *)
Definition result_id (e : Exn) : option string :=
  match e with
  | AuthenticationError _ id _ => Some id
  | _ => None
  end.

(** The steps of [proceed_authentication], named one by one. *)
Section Steps.

Variable app : Application.

Definition fetch_profile_flag (args : Args) : bool :=
  get_default (arg_import_profile args) "true" =? "true".

(** The [attach_account] request to the social service. *)
Definition social_attach (auth : Authenticator) (account : Account)
  (credential : Credential) (gamespace_id : Gamespace) (args : Args) (env : Environ)
  : M (option Profile) :=
  if social_profile auth then
    emit (ReqAttachAccount gamespace_id (fst (parse_account credential))
            (snd (parse_account credential)) account (fetch_profile_flag args)) ;;
    match attach_account_reply app gamespace_id (fst (parse_account credential))
            (snd (parse_account credential)) account env (fetch_profile_flag args) with
    | Reply data => ret data
    | InternalError code body =>
        emit (LogWarning "Failed to get profile_data: %s %s") ;;
        ret None
    | DiscoveryFailed code message => raise (DiscoveryError code message)
    end
  else ret None.

(** The scopes the user has: those of the account, then those of the
    gamespace. *)
Definition resolved_scopes (gamespace_id : Gamespace) (account : Account)
  (gamespace_scopes_data : string) : list Scope :=
  match get_account_access app gamespace_id account with
  | Some scopes => scopes
  | None => []
  end ++ parse_scopes app gamespace_scopes_data.

(** A requested scope that fails the request. *)
Definition restricted (should_have : string) (user_scopes : list Scope) (scope : Scope)
  : bool :=
  negb (mem scope user_scopes) && _have_scope app should_have scope.

Definition scope_restricted (credential : Credential) (scope : Scope) : Exn :=
  AuthenticationError 403 "scope_restricted"
    (mkErrorObj
       (Some ("User '" ++ credential ++ "' has no scope '" ++ scope ++ "' asked.")%string)
       None None None (Some credential)).

Definition scope_check (credential : Credential) (should_have : string)
  (user_scopes requested_scopes : list Scope) : M unit :=
  for_each requested_scopes (fun scope =>
    if restricted should_have user_scopes scope
    then raise (scope_restricted credential scope)
    else ret tt).

Definition non_unique (args : Args) : bool :=
  get_default (arg_unique args) "true" =? "false".

Definition non_unique_token_restricted (credential : Credential) : Exn :=
  AuthenticationError 403 "non_unique_token_restricted"
    (mkErrorObj
       (Some ("User '" ++ credential ++ "' has no access to disable unique "
              ++ "tokens (scope 'auth_non_unique' is required).")%string)
       None None None (Some credential)).

Definition unique_check (credential : Credential) (args : Args)
  (user_scopes : list Scope) : M bool :=
  if non_unique args then
    if negb (mem "auth_non_unique" user_scopes)
    then raise (non_unique_token_restricted credential)
    else ret false
  else ret true.

Definition info_step (account : Account) (args : Args) : M unit :=
  if truthy_opt (arg_info args) then
    match json_loads app (get_default (arg_info args) "") with
    | LoadFailed =>
        raise (AuthenticationError 400 "bad_account_info"
                 (with_info "The field 'info' is corrupted."))
    | LoadedOther =>
        raise (AuthenticationError 400 "bad_account_info"
                 (with_info "The field 'info' should be a JSON dictionary."))
    | LoadedDict account_info => update_account_info app account account_info
    end
  else ret tt.

Definition profile_step (auth : Authenticator) (account : Account)
  (gamespace_id : Gamespace) (profile_data : option Profile) : M unit :=
  if social_profile auth then
    match profile_data with
    | Some fields =>
        emit (ReqUpdateProfile gamespace_id account fields) ;;
        match update_profile_reply app gamespace_id account fields with
        | Reply _ => ret tt
        | InternalError code body =>
            emit (LogWarning "Failed to update user profile: %s %s")
        | DiscoveryFailed code message => raise (DiscoveryError code message)
        end
    | None => ret tt
    end
  else ret tt.

(** Minting, recording and the final profile update. *)
Definition mint (auth : Authenticator) (account : Account) (credential : Credential)
  (gamespace_id : Gamespace) (args : Args) (allowed_scopes : list Scope)
  (unique : bool) (profile_data : option Profile) : M AuthReply :=
  token <- generate allowed_scopes account gamespace_id
                    (if unique then Some "login" else None) credential ;;
  (if unique
   then save_token account (tok_uuid token) (token_expires app) (arg_as args)
   else ret tt) ;;
  profile_step auth account gamespace_id profile_data ;;
  ret (mkAuthReply token account credential (tok_scopes token)).

(** [proceed_authentication] once the name check has passed, the credential
    type is registered and the gamespace has scopes. *)
Definition proceed_steps (auth : Authenticator) (gamespace_scopes_data : string)
  (account : Account) (credential : Credential) (gamespace_id : Gamespace)
  (requested_scopes : list Scope) (args : Args) (env : Environ) : M AuthReply :=
  let user_scopes := resolved_scopes gamespace_id account gamespace_scopes_data in
  profile_data <- social_attach auth account credential gamespace_id args env ;;
  scope_check credential (get_default (arg_should_have args) "*") user_scopes
              requested_scopes ;;
  unique <- unique_check credential args user_scopes ;;
  info_step account args ;;
  mint auth account credential gamespace_id args
       (cross requested_scopes user_scopes) unique profile_data.

Definition bad_auth_as (args : Args) : bool :=
  truthy_opt (arg_as args) && negb (validate_token_name app (get_default (arg_as args) "")).

End Steps.

(** Appending to the trace, which is all the requests and warnings change. *)
Definition logged (events : list Event) (s : State) : State :=
  mkState (st_links s) (st_accounts s) (st_next_id s) (st_tokens s) (st_uuid s)
          (st_trace s ++ events).

(** The token [mint] makes, and the rows it leaves. *)
Definition minted (account : Account) (credential : Credential) (g : Gamespace)
  (allowed_scopes : list Scope) (unique : bool) (uuid : N) : AccessToken :=
  mkAccessToken credential allowed_scopes account g
                (if unique then Some "login" else None) uuid.

(** The social service is found: no [DiscoveryError] from the [attach_account]
    request, which is sent for a social credential. *)
Definition social_found (app : Application) (auth : Authenticator) (g : Gamespace)
  (credential : Credential) (account : Account) (env : Environ) (args : Args) : Prop :=
  social_profile auth = true ->
  forall code message,
    attach_account_reply app g (fst (parse_account credential))
      (snd (parse_account credential)) account env (fetch_profile_flag args)
    <> DiscoveryFailed code message.

(** The [info] argument is absent or a JSON dictionary that [update] accepts. *)
Definition info_accepted (app : Application) (account : Account) (args : Args)
  (s : State) : Prop :=
  truthy_opt (arg_info args) = false
  \/ exists d v,
       json_loads app (get_default (arg_info args) "") = LoadedDict d
       /\ json_update app (lookup account (st_accounts s)) d = Some v.

(** The profile service is found (no [DiscoveryError] from [update_profile]). *)
Definition profile_found (app : Application) (g : Gamespace) (account : Account) : Prop :=
  forall fields code message,
    update_profile_reply app g account fields <> DiscoveryFailed code message.

(** What the caller sees of a run: the value returned or the exception. *)
Definition outcome {A} (r : Result A) : A + Exn :=
  match r with
  | Ok a _ => inl a
  | Raise e _ => inr e
  end.

(** The application with another answer to the [attach_account] request. *)
Definition with_attach_reply (app : Application)
  (reply : Gamespace -> string -> string -> Account -> Environ -> bool -> Rpc (option Profile))
  : Application :=
  mkApplication (parse_scopes app) (validate_token_name app) (credential_types app)
    (find_gamespace app) (get_account_access app) (get_gamespace_access_scopes app)
    (import_social_reply app) reply (update_profile_reply app)
    (mass_profiles_reply app) (json_loads app) (json_update app) (token_expires app).

(** [proceed_authentication] after the [attach_account] request. *)
Definition after_social (app : Application) (auth : Authenticator)
  (account : Account) (credential : Credential) (gamespace_id : Gamespace)
  (requested_scopes : list Scope) (args : Args) (profile_data : option Profile)
  : M AuthReply :=
  match get_gamespace_access_scopes app gamespace_id with
  | None =>
      raise (AuthenticationError 404 "no_such_gamespace"
               (with_info ("Gamespace ID '" ++ gamespace_id ++ "' was not found.")%string))
  | Some gamespace_scopes_data =>
      let user_scopes := resolved_scopes app gamespace_id account gamespace_scopes_data in
      scope_check app credential (get_default (arg_should_have args) "*") user_scopes
                  requested_scopes ;;
      unique <- unique_check credential args user_scopes ;;
      info_step app account args ;;
      mint app auth account credential gamespace_id args
           (cross requested_scopes user_scopes) unique profile_data
  end.

(** States that differ in their traces only. *)
Definition same_store (s1 s2 : State) : Prop :=
  st_links s1 = st_links s2 /\ st_accounts s1 = st_accounts s2
  /\ st_next_id s1 = st_next_id s2 /\ st_tokens s1 = st_tokens s2
  /\ st_uuid s1 = st_uuid s2.

(** [accounts_summary] of [__multiple_accounts_attached__]. *)
Definition summary_of (profiles : list (Account * Profile)) (accounts : list Account)
  : list (Account * Profile) :=
  map (fun account =>
         (account, match lookup account profiles with
                   | Some p => p
                   | None => "{}"
                   end)) accounts.

(** The error [__multiple_accounts_attached__] raises. *)
Definition conflict_300 (g : Gamespace) (credential : Credential) (uuid : N)
  (summary : list (Account * Profile)) : Exn :=
  AuthenticationError 300 "multiple_accounts_attached"
    (mkErrorObj (Some "Conflict: More than one credentials attached to this account.")
                (Some (AccountsSummary summary))
                (Some (mkResolveToken credential ["resolve_conflict"] g uuid))
                None None).

(** The store once a resolve token has been minted. *)
Definition minted_resolve_token (s : State) : State :=
  mkState (st_links s) (st_accounts s) (st_next_id s) (st_tokens s)
          (N.succ (st_uuid s)) (st_trace s).

(** The gamespace [authorize] works in: [gamespace_id] when given, else the
    gamespace found by name. *)
Definition gamespace_of (app : Application) (args : Args) : option Gamespace :=
  if truthy_opt (arg_gamespace_id args) then arg_gamespace_id args
  else match arg_gamespace args with
       | Some name => find_gamespace app name
       | None => None
       end.

(** The social import, when there is one, does not fail with
    [InternalError]. *)
Definition import_passes (app : Application) (g : Gamespace) (result : AuthResult) : Prop :=
  forall response code body,
    res_response result = Some response -> import_social response = true ->
    import_social_reply app g (res_credential result) (res_username result)
      (resp_data response) <> InternalError code body.

(** The credential [authorize] composes from the authenticator's result. *)
Definition credential_of (result : AuthResult) : Credential :=
  (res_credential result ++ ":" ++ res_username result)%string.

(** The account selection of [authorize]. *)
Definition select_account (app : Application) (attach_to : option TokenArg)
  (credential : Credential) (g : Gamespace) : M Account :=
  match attach_to with
  | Some token => __merge_accounts__ app (tv_token token) credential None g
  | None =>
      accounts <- list_accounts credential ;;
      match accounts with
      | [] =>
          account <- create_account ;;
          attach credential account ;;
          ret account
      | [account] => ret account
      | _ => __multiple_accounts_attached__ app g credential accounts
      end
  end.

(** No account has two different credentials of one type. *)
Definition unique_type_per_account (links : list (Credential * Account)) : Prop :=
  forall account c1 c2,
    In (c1, account) links -> In (c2, account) links ->
    credential_type c1 = credential_type c2 -> c1 = c2.

(** A computation keeps the part [f] of the store, whether it returns or
    raises. *)
Definition keeps {A X} (f : State -> X) (c : M A) : Prop :=
  forall s, f (result_state (c s)) = f s.

(** Link tables reached by attaching credentials that satisfy [att] and
    detaching credentials that satisfy [det]. *)
Inductive link_ops (att det : Credential -> Prop)
  : list (Credential * Account) -> list (Credential * Account) -> Prop :=
| ops_none links : link_ops att det links links
| ops_attach c a links links' :
    att c -> link_ops att det links links' ->
    link_ops att det links (attach_link c a links')
| ops_detach c a links links' :
    det c -> link_ops att det links links' ->
    link_ops att det links (detach_link c a links').

(** A computation changes the link table by such attachments and detachments
    only, whether it returns or raises. *)
Definition writes_links {A} (att det : Credential -> Prop) (c : M A) : Prop :=
  forall s, link_ops att det (st_links s) (st_links (result_state (c s))).

(** The credentials [__merge_accounts__] may detach, and those it may
    attach. *)
Definition merge_detaches (attach_to : AccessToken) (credential c : Credential) : Prop :=
  c = credential \/ c = tok_name attach_to.
Definition merge_attaches (attach_to : AccessToken) (credential c : Credential) : Prop :=
  merge_detaches attach_to credential c
  \/ mem (credential_type c) LOCAL_CREDENTIALS = true.

(** The token rows and the account rows of the accounts other than
    [account]. *)
Definition other_tokens (account : Account) (s : State) : list TokenRow :=
  filter (fun r => negb (tr_account r =? account)) (st_tokens s).
Definition other_accounts (account : Account) (s : State) : list (Account * string) :=
  filter (fun row => negb (fst row =? account)) (st_accounts s).

(** Any credential, for a computation whose writes are not told apart. *)
Definition any_credential (c : Credential) : Prop := True.

(** The table [accounts] has a row for the account. *)
Definition has_account (account : Account) (s : State) : bool :=
  match lookup account (st_accounts s) with
  | Some _ => true
  | None => false
  end.

(** The [attach_to] argument, when there is one, validates. *)
Definition attach_to_valid (args : Args) (s : State) : Prop :=
  match arg_attach_to args with
  | Some token => validate token s = Ok true s
  | None => True
  end.

(** The application with another registry of credential types. *)
Definition with_credential_types (app : Application)
  (types : list (string * Authenticator)) : Application :=
  mkApplication (parse_scopes app) (validate_token_name app) types
    (find_gamespace app) (get_account_access app) (get_gamespace_access_scopes app)
    (import_social_reply app) (attach_account_reply app) (update_profile_reply app)
    (mass_profiles_reply app) (json_loads app) (json_update app) (token_expires app).

(** An application with the Steam and VK authenticators, whose API rejects
    every login. *)
Module SocialFixture.

Definition rejecting (g : Gamespace) (a b : string) : ApiOutcome :=
  APIError 401 "denied".

Definition app : Application :=
  with_credential_types Fixture.app
    [("steam", SteamAuthenticator "steam" rejecting);
     ("vk", VKAuthenticator "vk" rejecting)].

(** [authorize] arguments: credential type and the type-specific fields. *)
Definition request (type : string) (fields : list (string * string)) : Args :=
  mkArgs (Some type) (Some "profile") (Some "g") None None None
         None None None None None None fields.

End SocialFixture.

(** Every account row carries an id the counter has already handed out. *)
Definition ids_issued (s : State) : Prop :=
  forall a info, In (a, info) (st_accounts s) ->
                 exists k, (k < st_next_id s)%N /\ a = str k.

(** Every link points to an account that has its row. *)
Definition no_orphan_link (s : State) : Prop :=
  forall c a, In (c, a) (st_links s) -> has_account a s = true.

(** The text contains a colon. *)
Fixpoint has_colon (t : string) : bool :=
  match t with
  | EmptyString => false
  | String a rest => Ascii.eqb a ":"%char || has_colon rest
  end.

(** * Properties *)

(** ** The credential store *)

Lemma same_link_true c a l : same_link c a l = true <-> l = (c, a).
Proof.
  unfold same_link. destruct l as [c' a']; simpl.
  rewrite andb_true_iff, !String.eqb_eq. split.
  - intros [-> ->]; reflexivity.
  - intros [= -> ->]; auto.
Qed.

Lemma linked_In links c a : linked links c a = true <-> In (c, a) links.
Proof.
  unfold linked. rewrite existsb_exists. split.
  - intros (l & Hin & Hl). apply same_link_true in Hl. subst; assumption.
  - intros Hin. exists (c, a). split; [assumption | now apply same_link_true].
Qed.

Lemma linked_false links c a : linked links c a = false <-> ~ In (c, a) links.
Proof.
  rewrite <- linked_In. destruct (linked links c a); split; congruence.
Qed.

Lemma In_attach_link c a links l :
  In l (attach_link c a links) <-> In l links \/ l = (c, a).
Proof.
  unfold attach_link. destruct (linked links c a) eqn:E.
  - apply linked_In in E. split; [auto | intros [H | ->]; assumption].
  - rewrite in_app_iff. simpl. intuition congruence.
Qed.

Lemma In_detach_link c a links l :
  In l (detach_link c a links) <-> In l links /\ l <> (c, a).
Proof.
  unfold detach_link. rewrite filter_In, negb_true_iff.
  rewrite <- (same_link_true c a l).
  destruct (same_link c a l); intuition congruence.
Qed.

Lemma In_accounts_of links c a : In a (accounts_of links c) <-> In (c, a) links.
Proof.
  unfold accounts_of. rewrite in_map_iff. split.
  - intros ([c' a'] & <- & Hin). apply filter_In in Hin as [Hin Hc].
    simpl in *. apply String.eqb_eq in Hc. subst. assumption.
  - intros Hin. exists (c, a). split; [reflexivity |].
    apply filter_In. split; [assumption | apply String.eqb_refl].
Qed.

Lemma mem_In x l : mem x l = true <-> In x l.
Proof.
  unfold mem. rewrite existsb_exists. split.
  - intros (y & Hin & Hy). apply String.eqb_eq in Hy. subst; assumption.
  - intros Hin. exists x. split; [assumption | apply String.eqb_refl].
Qed.

Lemma In_credentials_of links a types c :
  In c (credentials_of links a types) <->
  In (c, a) links /\ mem (credential_type c) types = true.
Proof.
  unfold credentials_of. rewrite in_map_iff. split.
  - intros ([c' a'] & <- & Hin). apply filter_In in Hin as [Hin Hc].
    simpl in *. apply andb_true_iff in Hc as [Ha Ht].
    apply String.eqb_eq in Ha. subst. auto.
  - intros [Hin Ht]. exists (c, a). split; [reflexivity |].
    apply filter_In. split; [assumption |]. simpl.
    now rewrite String.eqb_refl, Ht.
Qed.

Lemma for_each_attach cs a s :
  for_each cs (fun c => attach c a) s = Ok tt (set_links (attach_all cs a) s).
Proof.
  revert s. induction cs as [| c cs IH]; intros s.
  - destruct s; reflexivity.
  - simpl. unfold bind, attach at 1, modify. rewrite IH. destruct s; reflexivity.
Qed.

Lemma In_attach_all cs a links l :
  In l (attach_all cs a links) <-> In l links \/ exists c, In c cs /\ l = (c, a).
Proof.
  unfold attach_all. revert links.
  induction cs as [| c cs IH]; intros links; simpl.
  - split; [auto | intros [H | (c & [] & _)]; assumption].
  - rewrite IH, In_attach_link. split.
    + intros [[H | ->] | (c' & Hc' & ->)]; eauto.
    + intros [H | (c' & [<- | Hc'] & ->)]; eauto.
Qed.

(** ** The token store *)

Lemma live_invalidate_rows a rows uuid : live (invalidate_rows a rows) a uuid = false.
Proof.
  unfold live, invalidate_rows.
  induction rows as [| r rows IH]; simpl; [reflexivity |].
  destruct (tr_account r =? a) eqn:E; simpl; [assumption |].
  now rewrite E, IH.
Qed.

(** ** [__merge_accounts__] when the target account has no credential of the
    type and the merged credential has one account *)

Section MergeConflict.

Variable app : Application.
Variables (attach_to : AccessToken) (credential : Credential) (gamespace : Gamespace).
Variables (s : State) (account_mine : Account).

Let account_attach := tok_account attach_to.
Let credential_attach := tok_name attach_to.

Hypothesis no_same_type :
  credentials_of (st_links s) account_attach [credential_type credential] = [].
Hypothesis one_account :
  accounts_of (st_links s) credential = [account_mine].

Lemma mine_is_linked : In (credential, account_mine) (st_links s).
Proof. apply In_accounts_of. rewrite one_account. now left. Qed.

Lemma accounts_differ : account_mine <> account_attach.
Proof.
  intros E. pose proof mine_is_linked as Hin. rewrite E in Hin.
  assert (H : In credential
                (credentials_of (st_links s) account_attach [credential_type credential])).
  { apply In_credentials_of. split; [assumption |]. apply mem_In. now left. }
  rewrite no_same_type in H. destruct H.
Qed.

Lemma merge_with_option (option : string) :
  __merge_accounts__ app attach_to credential (Some option) gamespace s =
  (if option =? "not_mine" then not_mine credential account_mine account_attach
   else if option =? "local" then local credential account_mine account_attach
   else if option =? "remote" then remote credential_attach account_mine account_attach
   else raise (AuthenticationError 400 "unknown_merge_option"
                 (with_info ("Unknown merge option: '" ++ option ++ "'.")%string))) s.
Proof.
  unfold __merge_accounts__, bind, list_account_credentials, list_accounts, gets.
  fold (credential_type credential). fold account_attach.
  rewrite no_same_type, one_account. reflexivity.
Qed.

Lemma moved_link links :
  In (credential, account_attach)
     (attach_link credential account_attach (detach_link credential account_mine links))
  /\ ~ In (credential, account_mine)
       (attach_link credential account_attach (detach_link credential account_mine links)).
Proof.
  split.
  - apply In_attach_link. now right.
  - rewrite In_attach_link, In_detach_link. intros [[_ H] | H].
    + now apply H.
    + apply accounts_differ. congruence.
Qed.

End MergeConflict.

(** [detach] with [accounts_data]: the link is removed, and when that was the
    last credential of the account, [delete_account] raises. *)
Lemma In_all_credentials_of links a c :
  In c (all_credentials_of links a) <-> In (c, a) links.
Proof.
  unfold all_credentials_of. rewrite in_map_iff. split.
  - intros ([c' a'] & <- & Hin). apply filter_In in Hin as [Hin Ha].
    simpl in *. apply String.eqb_eq in Ha. subst. assumption.
  - intros Hin. exists (c, a). split; [reflexivity |].
    apply filter_In. split; [assumption | apply String.eqb_refl].
Qed.

Lemma left_without_credentials_false links c a :
  left_without_credentials links c a = false <-> keeps_credential links c a.
Proof.
  unfold left_without_credentials, keeps_credential.
  destruct (all_credentials_of (detach_link c a links) a) as [| c' cs] eqn:E.
  - split; [discriminate |]. intros (c' & Hne & Hin). exfalso.
    assert (H : In c' (all_credentials_of (detach_link c a links) a)).
    { apply In_all_credentials_of, In_detach_link. split; [assumption | congruence]. }
    rewrite E in H. destruct H.
  - split; [intros _ | reflexivity].
    assert (H : In c' (all_credentials_of (detach_link c a links) a))
      by (rewrite E; now left).
    apply In_all_credentials_of, In_detach_link in H as [Hin Hne].
    exists c'. split; [congruence | assumption].
Qed.

Lemma left_without_credentials_true links c a :
  left_without_credentials links c a = true <->
  forall c', In (c', a) links -> c' = c.
Proof.
  split.
  - intros H c' Hin. destruct (string_dec c' c) as [-> | Hne]; [reflexivity |].
    assert (Hk : left_without_credentials links c a = false)
      by (apply left_without_credentials_false; exists c'; auto).
    congruence.
  - intros H. destruct (left_without_credentials links c a) eqn:E; [reflexivity |].
    apply left_without_credentials_false in E as (c' & Hne & Hin).
    exfalso. apply Hne. now apply H.
Qed.

Lemma detach_accounts_data_run c a s :
  detach_accounts_data c a delete_account s =
  if left_without_credentials (st_links s) c a
  then Raise await_error (set_links (detach_link c a) s)
  else Ok tt (set_links (detach_link c a) s).
Proof.
  unfold detach_accounts_data, left_without_credentials, bind, detach, modify, gets.
  cbn [st_links set_links].
  destruct (all_credentials_of (detach_link c a (st_links s)) a); reflexivity.
Qed.

Lemma not_mine_run c am aa s :
  not_mine c am aa s =
  if left_without_credentials (st_links s) c am
  then Raise await_error (set_links (detach_link c am) s)
  else Ok aa (set_links (fun ls => attach_link c aa (detach_link c am ls)) s).
Proof.
  unfold not_mine, bind. rewrite detach_accounts_data_run.
  destruct (left_without_credentials (st_links s) c am); [reflexivity |].
  destruct s; reflexivity.
Qed.

Lemma local_run c am aa s :
  local c am aa s =
  if left_without_credentials (st_links s) c am
  then Raise await_error (set_links (detach_link c am) s)
  else Ok aa (set_tokens (invalidate_rows am) (set_links (local_links c am aa) s)).
Proof.
  unfold local, bind at 1. rewrite detach_accounts_data_run.
  destruct (left_without_credentials (st_links s) c am); [reflexivity |].
  unfold bind, list_account_credentials, gets, invalidate_account.
  simpl. rewrite for_each_attach. destruct s; reflexivity.
Qed.

Lemma remote_run c am aa s :
  remote c am aa s =
  Ok am (set_tokens (invalidate_rows aa)
           (set_links (fun ls => attach_link c am (detach_link c aa ls)) s)).
Proof. destruct s; reflexivity. Qed.

(** C10. [__merge_accounts__] with [resolve = "not_mine"], when the target
    account has no credential of the type and the merged credential is linked
    to exactly one account [account_mine].  On every path the token store is
    left as it was, so every token that was live stays live, and the merged
    credential is detached from [account_mine].  When [account_mine] keeps
    another credential, the call returns the target account with the merged
    credential attached to it, whereas ["local"] invalidates the tokens of
    [account_mine].  When the merged credential was the only credential of
    [account_mine], [detach] hands the account to [delete_account], which
    raises [TypeError]: the credential is detached, it is not attached to the
    target account and nothing is returned.  ["remote"] (whose [detach] gets no
    [accounts_data]) returns [account_mine] and invalidates the tokens of the
    target account. *)
Theorem merge_not_mine_keeps_tokens
  app attach_to credential gamespace s account_mine :
  credentials_of (st_links s) (tok_account attach_to) [credential_type credential] = [] ->
  accounts_of (st_links s) credential = [account_mine] ->
  (exists r,
     __merge_accounts__ app attach_to credential (Some "not_mine") gamespace s = r
     /\ st_tokens (result_state r) = st_tokens s
     /\ (forall a uuid, live (st_tokens (result_state r)) a uuid = live (st_tokens s) a uuid)
     /\ linked (st_links (result_state r)) credential account_mine = false)
  /\ (keeps_credential (st_links s) credential account_mine ->
      (exists s',
         __merge_accounts__ app attach_to credential (Some "not_mine") gamespace s
           = Ok (tok_account attach_to) s'
         /\ linked (st_links s') credential (tok_account attach_to) = true
         /\ st_tokens s' = st_tokens s)
      /\ (exists s',
            __merge_accounts__ app attach_to credential (Some "local") gamespace s
              = Ok (tok_account attach_to) s'
            /\ st_tokens s' = invalidate_rows account_mine (st_tokens s)
            /\ forall uuid, live (st_tokens s') account_mine uuid = false))
  /\ ((forall c', In (c', account_mine) (st_links s) -> c' = credential) ->
      exists s',
        __merge_accounts__ app attach_to credential (Some "not_mine") gamespace s
          = Raise await_error s'
        /\ st_links s' = detach_link credential account_mine (st_links s)
        /\ linked (st_links s') credential (tok_account attach_to) = false)
  /\ (exists s',
        __merge_accounts__ app attach_to credential (Some "remote") gamespace s
          = Ok account_mine s'
        /\ st_tokens s' = invalidate_rows (tok_account attach_to) (st_tokens s)
        /\ forall uuid, live (st_tokens s') (tok_account attach_to) uuid = false).
Proof.
  intros Hsame Hone.
  pose proof (moved_link _ _ _ Hsame Hone (st_links s)) as [Hin Hout].
  pose proof (accounts_differ _ _ _ Hsame Hone) as Hneq.
  assert (Hgone : ~ In (credential, account_mine)
                      (detach_link credential account_mine (st_links s))).
  { rewrite In_detach_link. intros [_ H]. now apply H. }
  split; [| split; [| split]].
  - eexists. split; [reflexivity |].
    rewrite (merge_with_option app _ _ gamespace _ Hsame Hone _). simpl.
    rewrite not_mine_run.
    destruct (left_without_credentials (st_links s) credential account_mine); simpl;
      (split; [reflexivity |]); (split; [reflexivity |]); now apply linked_false.
  - intros Hkeeps. apply left_without_credentials_false in Hkeeps. split.
    + eexists. rewrite (merge_with_option app _ _ gamespace _ Hsame Hone _). simpl.
      rewrite not_mine_run, Hkeeps. split; [reflexivity |]. simpl.
      split; [now apply linked_In | reflexivity].
    + eexists. rewrite (merge_with_option app _ _ gamespace _ Hsame Hone _). simpl.
      rewrite local_run, Hkeeps. split; [reflexivity |]. simpl.
      split; [reflexivity |]. intros uuid. apply live_invalidate_rows.
  - intros Hlast. apply left_without_credentials_true in Hlast.
    eexists. rewrite (merge_with_option app _ _ gamespace _ Hsame Hone _). simpl.
    rewrite not_mine_run, Hlast. split; [reflexivity |]. simpl.
    split; [reflexivity |]. apply linked_false. rewrite In_detach_link.
    intros [H _]. apply In_accounts_of in H. rewrite Hone in H.
    destruct H as [H | []]. now apply Hneq.
  - eexists. rewrite (merge_with_option app _ _ gamespace _ Hsame Hone _). simpl.
    rewrite remote_run. split; [reflexivity |]. simpl.
    split; [reflexivity |]. intros uuid. apply live_invalidate_rows.
Qed.

(** Account 2 holding [steam:s] besides the merged credential, the merge
    returns; account 2 holding the merged credential only, it raises after the
    [detach]. *)
Lemma merge_not_mine_keeps_tokens_witness :
  (exists s',
     __merge_accounts__ Fixture.app (Fixture.bearer "facebook:fb" "3") "google:gg"
       (Some "not_mine") "1"
       (Fixture.store_with [("google:gg", "2"); ("steam:s", "2"); ("facebook:fb", "3")])
     = Ok "3" s'
     /\ linked (st_links s') "google:gg" "3" = true)
  /\ (exists s',
        __merge_accounts__ Fixture.app (Fixture.bearer "facebook:fb" "3") "google:gg"
          (Some "not_mine") "1"
          (Fixture.store_with [("google:gg", "2"); ("facebook:fb", "3")])
        = Raise await_error s'
        /\ st_links s' = [("facebook:fb", "3")]).
Proof.
  split.
  - destruct (@merge_not_mine_keeps_tokens Fixture.app (Fixture.bearer "facebook:fb" "3")
                "google:gg" "1"
                (Fixture.store_with
                   [("google:gg", "2"); ("steam:s", "2"); ("facebook:fb", "3")]) "2"
                eq_refl eq_refl) as (_ & Hkeeps & _).
    destruct Hkeeps as [(s' & Hrun & Hin & _) _].
    + exists "steam:s". split; [discriminate | simpl; auto].
    + exists s'. split; assumption.
  - destruct (@merge_not_mine_keeps_tokens Fixture.app (Fixture.bearer "facebook:fb" "3")
                "google:gg" "1"
                (Fixture.store_with [("google:gg", "2"); ("facebook:fb", "3")]) "2"
                eq_refl eq_refl) as (_ & _ & Hlast & _).
    destruct Hlast as (s' & Hrun & Hlinks & _).
    + intros c' [H | [H | []]]; inversion H; reflexivity.
    + exists s'. split; [exact Hrun | exact Hlinks].
Defined.

(** C1. [__merge_accounts__] with [resolve = "local"], under the same
    conditions and when [account_mine] keeps a credential besides the merged
    one (otherwise [detach] ends in the [TypeError] of [delete_account]): the
    call returns the target account, the merged credential is moved from
    [account_mine] to the target account, the tokens of [account_mine] are
    invalidated, and every local-type credential that was linked to
    [account_mine] is linked to the target account afterwards.  But such a
    credential, unless it is the merged credential itself, is STILL linked to
    [account_mine]: the loop attaches and never detaches, so the credential
    ends up on both accounts. *)
Theorem merge_local_duplicates_local_credentials
  app attach_to credential gamespace s account_mine :
  credentials_of (st_links s) (tok_account attach_to) [credential_type credential] = [] ->
  accounts_of (st_links s) credential = [account_mine] ->
  keeps_credential (st_links s) credential account_mine ->
  exists s',
    __merge_accounts__ app attach_to credential (Some "local") gamespace s
      = Ok (tok_account attach_to) s'
    /\ linked (st_links s') credential (tok_account attach_to) = true
    /\ linked (st_links s') credential account_mine = false
    /\ (forall uuid, live (st_tokens s') account_mine uuid = false)
    /\ forall l, In l (credentials_of (st_links s) account_mine LOCAL_CREDENTIALS) ->
         linked (st_links s') l (tok_account attach_to) = true
         /\ (l <> credential -> linked (st_links s') l account_mine = true).
Proof.
  intros Hsame Hone Hkeeps. apply left_without_credentials_false in Hkeeps.
  pose proof (moved_link _ _ _ Hsame Hone (st_links s)) as [Hin Hout].
  pose proof (accounts_differ _ _ _ Hsame Hone) as Hneq.
  eexists. rewrite (merge_with_option app _ _ gamespace _ Hsame Hone _). simpl.
  rewrite local_run, Hkeeps. split; [reflexivity |]. simpl. unfold local_links.
  split; [| split; [| split]].
  - apply linked_In, In_attach_all. now left.
  - apply linked_false. rewrite In_attach_all. intros [H | (c & _ & H)].
    + now apply Hout.
    + apply Hneq. congruence.
  - intros uuid. apply live_invalidate_rows.
  - intros l Hl. apply In_credentials_of in Hl as [Hl Hty]. split.
    + apply linked_In, In_attach_all.
      destruct (string_dec l credential) as [-> | Hlc]; [now left | right].
      exists l. split; [| reflexivity].
      apply In_credentials_of. split; [| assumption].
      apply In_attach_link. left. apply In_detach_link. split; [assumption | congruence].
    + intros Hlc. apply linked_In, In_attach_all. left.
      apply In_attach_link. left. apply In_detach_link. split; [assumption | congruence].
Qed.

Lemma merge_local_duplicates_local_credentials_witness :
  exists s',
    __merge_accounts__ Fixture.app (Fixture.bearer "facebook:fb" "3") "google:gg"
      (Some "local") "1"
      (Fixture.store_with
         [("google:gg", "2"); ("anonymous:u1", "2"); ("facebook:fb", "3")]) = Ok "3" s'
    /\ linked (st_links s') "anonymous:u1" "3" = true
    /\ linked (st_links s') "anonymous:u1" "2" = true.
Proof.
  assert (Hkeeps : keeps_credential
                     [("google:gg", "2"); ("anonymous:u1", "2"); ("facebook:fb", "3")]
                     "google:gg" "2").
  { exists "anonymous:u1". split; [discriminate | simpl; auto]. }
  destruct (@merge_local_duplicates_local_credentials Fixture.app
              (Fixture.bearer "facebook:fb" "3") "google:gg" "1"
              (Fixture.store_with
                 [("google:gg", "2"); ("anonymous:u1", "2"); ("facebook:fb", "3")]) "2"
              eq_refl eq_refl Hkeeps) as (s' & Hrun & _ & _ & _ & Hlocal).
  exists s'. split; [exact Hrun |].
  destruct (Hlocal "anonymous:u1") as [Hthere Hhere].
  - simpl. now left.
  - split; [exact Hthere | apply Hhere; discriminate].
Defined.

(** C4. [__merge_accounts__] with [resolve = None], under the same conditions:
    the call raises, and up to the [raise] no credential link, token row or
    account row has changed.  The error is [merge_required] (409) with the
    resolve token and the local/remote payload when [mass_profiles] fails with
    [InternalError] or answers with the profiles of both accounts.  When the
    answer lacks the profile of one of the two accounts, [profiles[account]]
    raises [KeyError] and no [merge_required] is raised. *)
Theorem merge_conflict_raises app attach_to credential gamespace s account_mine :
  credentials_of (st_links s) (tok_account attach_to) [credential_type credential] = [] ->
  accounts_of (st_links s) credential = [account_mine] ->
  exists s',
    __merge_accounts__ app attach_to credential None gamespace s
      = Raise (conflict_error app attach_to credential gamespace account_mine (st_uuid s)) s'
    /\ st_links s' = st_links s
    /\ st_tokens s' = st_tokens s
    /\ st_accounts s' = st_accounts s.
Proof.
  intros Hsame Hone.
  unfold __merge_accounts__, bind, list_account_credentials, list_accounts, gets.
  fold (credential_type credential). rewrite Hsame, Hone. simpl.
  unfold conflict_error, getitem.
  destruct (mass_profiles_reply app gamespace [tok_account attach_to; account_mine])
    as [profiles | code body | code message]; simpl.
  - destruct (lookup (tok_account attach_to) profiles); simpl;
      [destruct (lookup account_mine profiles); simpl |];
      eexists; (split; [reflexivity | auto]).
  - eexists; (split; [reflexivity | auto]).
  - eexists; (split; [reflexivity | auto]).
Qed.

Lemma merge_conflict_raises_witness :
  exists s',
    __merge_accounts__ Fixture.app (Fixture.bearer "facebook:fb" "3") "anonymous:u1"
      None "1"
      (Fixture.store_with [("anonymous:u1", "2"); ("facebook:fb", "3")])
    = Raise (KeyError "3") s'
    /\ st_links s' = [("anonymous:u1", "2"); ("facebook:fb", "3")].
Proof.
  destruct (@merge_conflict_raises Fixture.app (Fixture.bearer "facebook:fb" "3")
              "anonymous:u1" "1"
              (Fixture.store_with [("anonymous:u1", "2"); ("facebook:fb", "3")]) "2"
              eq_refl eq_refl) as (s' & Hrun & Hlinks & _).
  exists s'. split; [exact Hrun | exact Hlinks].
Defined.

(** ** [delete_account] *)

(** C9. [delete_account] raises [TypeError] at its first statement for every
    account and every store: no credential is detached and the account row is
    not removed. *)
Theorem delete_account_raises account_id s :
  exists message,
    delete_account account_id s = Raise (TypeError message) s
    /\ st_links (result_state (delete_account account_id s)) = st_links s
    /\ st_accounts (result_state (delete_account account_id s)) = st_accounts s.
Proof. eexists. repeat split. Qed.

(** On a store where account 2 holds one credential, the link and the row are
    still there after [delete_account "2"]. *)
Example delete_account_keeps_everything :
  let s := mkState [("anonymous:u1", "2")] [("1", "{}"); ("2", "{}")] 3 [] 0 [] in
  linked (st_links (result_state (delete_account "2" s))) "anonymous:u1" "2" = true
  /\ lookup "2" (st_accounts (result_state (delete_account "2" s))) = Some "{}".
Proof. split; reflexivity. Qed.

(** ** [resolve_conflict], method [multiple_accounts_attached] *)

Lemma In_detach_all c accounts links l :
  In l (detach_all c accounts links) <->
  In l links /\ ~ (fst l = c /\ In (snd l) accounts).
Proof.
  unfold detach_all. revert links.
  induction accounts as [| a accounts IH]; intros links; simpl.
  - tauto.
  - rewrite IH, In_detach_link. destruct l as [c' a']; simpl. split.
    + intros [[Hin Hne] Hno]. split; [assumption |].
      intros [-> [-> | Ha]]; [now apply Hne | apply Hno; auto].
    + intros [Hin Hno]. repeat split; [assumption | |].
      * intros [= -> ->]. apply Hno; auto.
      * intros [-> Ha]. apply Hno; auto.
Qed.

Lemma list_remove_None x l : list_remove x l = None <-> ~ In x l.
Proof.
  induction l as [| y l IH]; simpl; [tauto |].
  destruct (String.eqb_spec y x) as [-> | Hne].
  - split; [discriminate | intros H; exfalso; apply H; now left].
  - destruct (list_remove x l); split; try discriminate; try reflexivity.
    + intros H. exfalso. destruct IH as [_ IH]. 
      assert (Hin : ~ In x l) by (intros Hin; apply H; now right).
      specialize (IH Hin). discriminate.
    + intros _ [H | H]; [congruence | now apply IH].
Qed.

Lemma list_remove_Some x l l' :
  NoDup l -> list_remove x l = Some l' ->
  forall y, In y l' <-> In y l /\ y <> x.
Proof.
  revert l'. induction l as [| z l IH]; simpl; intros l' Hnd Hrm y; [discriminate |].
  inversion Hnd as [| ? ? Hz Hnd']; subst.
  destruct (String.eqb_spec z x) as [-> | Hne].
  - injection Hrm as <-. split.
    + intros Hy. split; [now right | intros ->; contradiction].
    + intros [[-> | Hy] Hyx]; [congruence | assumption].
  - destruct (list_remove x l) as [r |] eqn:E; [| discriminate].
    injection Hrm as <-. simpl. rewrite (IH r Hnd' eq_refl y). split.
    + intros [-> | [Hy Hyx]]; auto.
    + intros [[-> | Hy] Hyx]; auto.
Qed.

Lemma NoDup_accounts_of links c : NoDup links -> NoDup (accounts_of links c).
Proof.
  unfold accounts_of. induction links as [| [c' a'] links IH]; simpl; intros Hnd.
  - constructor.
  - inversion Hnd as [| ? ? Hnot Hnd']; subst.
    destruct (String.eqb_spec c' c) as [-> | Hne]; simpl; [| now apply IH].
    constructor; [| now apply IH].
    intros Hin. apply Hnot. now apply In_accounts_of.
Qed.

(** The loop of [_multiple_accounts_attached]: it runs through when every
    account keeps another credential, and stops in the [TypeError] of
    [delete_account] at the first account that does not. *)
Lemma keeps_credential_detach links c a x :
  keeps_credential (detach_link c x links) c a <-> keeps_credential links c a.
Proof.
  unfold keeps_credential. split; intros (c' & Hne & Hin); exists c'; (split; [assumption |]).
  - apply In_detach_link in Hin. tauto.
  - apply In_detach_link. split; [assumption | congruence].
Qed.

Lemma for_each_detach_kept c accounts s :
  (forall a, In a accounts -> keeps_credential (st_links s) c a) ->
  for_each accounts (fun a => detach_accounts_data c a delete_account) s
  = Ok tt (set_links (detach_all c accounts) s).
Proof.
  revert s. induction accounts as [| a accounts IH]; intros s Hkeep.
  - destruct s; reflexivity.
  - simpl. unfold bind. rewrite detach_accounts_data_run.
    rewrite (proj2 (left_without_credentials_false _ _ _) (Hkeep a (or_introl eq_refl))).
    rewrite IH.
    + destruct s; reflexivity.
    + intros a' Ha'. simpl. apply keeps_credential_detach. apply Hkeep. now right.
Qed.

Lemma for_each_detach_Ok c accounts s u s' :
  for_each accounts (fun a => detach_accounts_data c a delete_account) s = Ok u s' ->
  s' = set_links (detach_all c accounts) s.
Proof.
  revert s. induction accounts as [| a accounts IH]; intros s.
  - simpl. unfold ret. intros [= _ <-]. destruct s; reflexivity.
  - simpl. unfold bind. rewrite detach_accounts_data_run.
    destruct (left_without_credentials (st_links s) c a); [discriminate |].
    intros H. apply IH in H. subst s'. destruct s; reflexivity.
Qed.

Lemma for_each_detach_Raise c accounts s e s' :
  for_each accounts (fun a => detach_accounts_data c a delete_account) s = Raise e s' ->
  e = await_error.
Proof.
  revert s. induction accounts as [| a accounts IH]; intros s.
  - discriminate.
  - simpl. unfold bind. rewrite detach_accounts_data_run.
    destruct (left_without_credentials (st_links s) c a).
    + intros [= <- _]. reflexivity.
    + apply IH.
Qed.

Lemma for_each_detach_raises c accounts s :
  (exists a, In a accounts /\ forall c', In (c', a) (st_links s) -> c' = c) ->
  exists done,
    for_each accounts (fun a => detach_accounts_data c a delete_account) s
    = Raise await_error (set_links (detach_all c done) s)
    /\ done <> [] /\ incl done accounts.
Proof.
  revert s. induction accounts as [| a accounts IH]; intros s (a0 & Hin & Hlast).
  - destruct Hin.
  - simpl. unfold bind. rewrite detach_accounts_data_run.
    destruct (left_without_credentials (st_links s) c a) eqn:E.
    + exists [a]. split; [destruct s; reflexivity |].
      split; [discriminate | intros x [<- | []]; now left].
    + destruct Hin as [-> | Hin].
      { apply left_without_credentials_true in Hlast. congruence. }
      destruct (IH (set_links (detach_link c a) s)) as (done & Hrun & _ & Hincl).
      { exists a0. split; [assumption |]. intros c' Hc'. apply Hlast.
        simpl in Hc'. apply In_detach_link in Hc'. tauto. }
      exists (a :: done). rewrite Hrun. split; [destruct s; reflexivity |].
      split; [discriminate |].
      intros x [<- | Hx]; [now left | right; now apply Hincl].
Qed.

Lemma multiple_accounts_attached_run c args s :
  _multiple_accounts_attached c args s =
  match list_remove (get_default (arg_resolve_with args) "") (accounts_of (st_links s) c) with
  | None =>
      Raise (AuthenticationError 400 "cannot_resolve_conflict"
               (with_info ("No such account to select: '"
                           ++ get_default (arg_resolve_with args) "" ++ "'.")%string)) s
  | Some others =>
      match for_each others (fun a => detach_accounts_data c a delete_account) s with
      | Ok _ s1 => Ok (get_default (arg_resolve_with args) "") s1
      | Raise e s1 => Raise e s1
      end
  end.
Proof.
  unfold _multiple_accounts_attached, bind, list_accounts, gets.
  destruct (list_remove _ _) as [others |]; reflexivity.
Qed.

(** C7. [resolve_conflict] with the method ["multiple_accounts_attached"], on a
    store without duplicate rows (the primary key of [account_credentials]).
    When [resolve_with] is not among the accounts linked to the credential of
    the resolve token, the call fails [cannot_resolve_conflict] and the store
    is as before.  Otherwise, when every other account linked to the
    credential keeps another credential, the credential is detached from every
    other account, so that it is linked to [resolve_with] only, the links of
    other credentials are untouched, and [proceed_authentication] runs for the
    account [resolve_with].  But when one of the other accounts has this
    credential only, [detach] hands it to [delete_account], which raises
    [TypeError]: the call fails with it after detaching the credential from
    some of the other accounts, and [proceed_authentication] does not run. *)
Theorem resolve_multiple_accounts_attached
  app resolve_token args env s resolve_with scopes :
  NoDup (st_links s) ->
  arg_resolve_with args = Some resolve_with ->
  arg_scopes args = Some scopes ->
  (linked (st_links s) (rt_name resolve_token) resolve_with = false ->
   exists obj,
     resolve_conflict app resolve_token "multiple_accounts_attached" args env s
     = Raise (AuthenticationError 400 "cannot_resolve_conflict" obj) s)
  /\ (linked (st_links s) (rt_name resolve_token) resolve_with = true ->
      (forall a, a <> resolve_with -> In (rt_name resolve_token, a) (st_links s) ->
                 keeps_credential (st_links s) (rt_name resolve_token) a) ->
      exists s1,
        (forall a, linked (st_links s1) (rt_name resolve_token) a = true
                   <-> a = resolve_with)
        /\ (forall c a, c <> rt_name resolve_token ->
                        linked (st_links s1) c a = linked (st_links s) c a)
        /\ st_tokens s1 = st_tokens s
        /\ st_accounts s1 = st_accounts s
        /\ resolve_conflict app resolve_token "multiple_accounts_attached" args env s
           = proceed_authentication app resolve_with (rt_name resolve_token)
               (rt_gamespace resolve_token) (parse_scopes app scopes) args env s1)
  /\ (linked (st_links s) (rt_name resolve_token) resolve_with = true ->
      (exists a, a <> resolve_with /\ In (rt_name resolve_token, a) (st_links s)
                 /\ forall c', In (c', a) (st_links s) -> c' = rt_name resolve_token) ->
      exists done,
        resolve_conflict app resolve_token "multiple_accounts_attached" args env s
        = Raise await_error (set_links (detach_all (rt_name resolve_token) done) s)
        /\ done <> []
        /\ forall a, In a done ->
                     a <> resolve_with /\ In (rt_name resolve_token, a) (st_links s)).
Proof.
  intros Hnd Hwith Hscopes.
  unfold resolve_conflict. rewrite Hwith, Hscopes. simpl.
  unfold bind. rewrite multiple_accounts_attached_run, Hwith. simpl.
  split; [| split].
  - intros Hno. apply linked_false in Hno.
    rewrite <- In_accounts_of in Hno. apply list_remove_None in Hno.
    rewrite Hno. eexists. reflexivity.
  - intros Hyes Hkeep. apply linked_In in Hyes.
    destruct (list_remove resolve_with (accounts_of (st_links s) (rt_name resolve_token)))
      as [others |] eqn:E.
    2:{ apply list_remove_None in E. rewrite In_accounts_of in E. contradiction. }
    pose proof (@list_remove_Some _ _ _ (@NoDup_accounts_of _ _ Hnd) E) as Hothers.
    rewrite for_each_detach_kept.
    2:{ intros a Ha. apply Hothers in Ha as [Ha Hne].
        apply Hkeep; [assumption | now apply In_accounts_of]. }
    exists (set_links (detach_all (rt_name resolve_token) others) s).
    repeat split; try reflexivity; simpl.
    + rewrite linked_In, In_detach_all. simpl. intros [Hin Hno].
      destruct (string_dec a resolve_with) as [-> | Hne]; [reflexivity |].
      exfalso. apply Hno. split; [reflexivity |].
      apply Hothers. split; [now apply In_accounts_of | assumption].
    + intros ->. rewrite linked_In, In_detach_all. simpl.
      split; [assumption |]. intros [_ Hin]. apply Hothers in Hin as [_ Hne].
      now apply Hne.
    + intros c a Hc.
      destruct (linked (st_links s) c a) eqn:El.
      * apply linked_In. apply In_detach_all. simpl.
        split; [now apply linked_In | intros [H _]; contradiction].
      * apply linked_false. rewrite In_detach_all. intros [Hin _].
        apply linked_false in El. contradiction.
  - intros Hyes (a0 & Hne0 & Hin0 & Hlast). apply linked_In in Hyes.
    destruct (list_remove resolve_with (accounts_of (st_links s) (rt_name resolve_token)))
      as [others |] eqn:E.
    2:{ apply list_remove_None in E. rewrite In_accounts_of in E. contradiction. }
    pose proof (@list_remove_Some _ _ _ (@NoDup_accounts_of _ _ Hnd) E) as Hothers.
    destruct (@for_each_detach_raises (rt_name resolve_token) others s)
      as (done & Hrun & Hdone & Hincl).
    { exists a0. split; [| assumption].
      apply Hothers. split; [now apply In_accounts_of | assumption]. }
    exists done. unfold Account in Hrun. rewrite Hrun.
    split; [reflexivity |]. split; [assumption |].
    intros a Ha. apply Hincl, Hothers in Ha as [Ha Hne].
    split; [assumption | now apply In_accounts_of].
Qed.

(** Account 8 holding [steam:s] besides [google:gg], the conflict is resolved;
    account 8 holding [google:gg] only, the call raises [TypeError]. *)
Lemma resolve_multiple_accounts_attached_witness :
  (exists s1,
     (forall a, linked (st_links s1) "google:gg" a = true <-> a = "7")
     /\ resolve_conflict Fixture.app
          (mkResolveToken "google:gg" ["resolve_conflict"] "1" 0)
          "multiple_accounts_attached"
          (mkArgs None (Some "profile") None None None None None None None None None
                  (Some "7") [])
          None
          (Fixture.store_with [("google:gg", "7"); ("google:gg", "8"); ("steam:s", "8")])
        = proceed_authentication Fixture.app "7" "google:gg" "1" ["profile"]
            (mkArgs None (Some "profile") None None None None None None None None None
                    (Some "7") [])
            None s1)
  /\ (exists s1,
        resolve_conflict Fixture.app
          (mkResolveToken "google:gg" ["resolve_conflict"] "1" 0)
          "multiple_accounts_attached"
          (mkArgs None (Some "profile") None None None None None None None None None
                  (Some "7") [])
          None (Fixture.store_with [("google:gg", "7"); ("google:gg", "8")])
        = Raise await_error s1).
Proof.
  split.
  - assert (Hnd : NoDup [("google:gg", "7"); ("google:gg", "8"); ("steam:s", "8")]).
    { repeat constructor; simpl; intuition discriminate. }
    destruct (@resolve_multiple_accounts_attached Fixture.app
                (mkResolveToken "google:gg" ["resolve_conflict"] "1" 0)
                (mkArgs None (Some "profile") None None None None None None None None None
                        (Some "7") [])
                None
                (Fixture.store_with
                   [("google:gg", "7"); ("google:gg", "8"); ("steam:s", "8")])
                "7" "profile" Hnd eq_refl eq_refl) as (_ & Hyes & _).
    destruct (Hyes eq_refl) as (s1 & Honly & _ & _ & _ & Hrun).
    + intros a Hne [H | [H | [H | []]]]; inversion H; subst.
      * now elim Hne.
      * exists "steam:s". split; [discriminate | simpl; auto].
    + exists s1. split; [exact Honly | exact Hrun].
  - assert (Hnd : NoDup [("google:gg", "7"); ("google:gg", "8")]).
    { repeat constructor; simpl; intuition discriminate. }
    destruct (@resolve_multiple_accounts_attached Fixture.app
                (mkResolveToken "google:gg" ["resolve_conflict"] "1" 0)
                (mkArgs None (Some "profile") None None None None None None None None None
                        (Some "7") [])
                None (Fixture.store_with [("google:gg", "7"); ("google:gg", "8")])
                "7" "profile" Hnd eq_refl eq_refl) as (_ & _ & Hraise).
    destruct (Hraise eq_refl) as (done & Hrun & _).
    + exists "8". split; [discriminate |]. split; [simpl; auto |].
      intros c' [H | [H | []]]; inversion H; reflexivity.
    + eexists. exact Hrun.
Defined.

(** ** Reasoning about [bind] *)

Lemma bind_Ok {A B} (c : M A) (k : A -> M B) s b s' :
  bind c k s = Ok b s' <-> exists a s1, c s = Ok a s1 /\ k a s1 = Ok b s'.
Proof.
  unfold bind. destruct (c s) as [a s1 | e s1]; split.
  - intros H. eauto.
  - intros (a' & s1' & [= <- <-] & H). assumption.
  - discriminate.
  - intros (a' & s1' & H & _). discriminate.
Qed.

Lemma bind_Raise {A B} (c : M A) (k : A -> M B) s e s' :
  bind c k s = Raise e s' <->
  c s = Raise e s' \/ exists a s1, c s = Ok a s1 /\ k a s1 = Raise e s'.
Proof.
  unfold bind. destruct (c s) as [a s1 | e1 s1]; split.
  - intros H. right. eauto.
  - intros [H | (a' & s1' & [= <- <-] & H)]; [discriminate | assumption].
  - intros [= <- <-]. now left.
  - intros [[= <- <-] | (a' & s1' & H & _)]; [reflexivity | discriminate].
Qed.

(** ** The steps of [proceed_authentication] *)

Lemma proceed_authentication_steps
  app auth gamespace_scopes_data account credential gamespace_id requested_scopes args
  env s :
  bad_auth_as app args = false ->
  lookup (credential_type credential) (credential_types app) = Some auth ->
  get_gamespace_access_scopes app gamespace_id = Some gamespace_scopes_data ->
  proceed_authentication app account credential gamespace_id requested_scopes args env s
  = proceed_steps app auth gamespace_scopes_data account credential gamespace_id
      requested_scopes args env s.
Proof.
  unfold bad_auth_as, credential_type. intros Has Hty Hgs.
  unfold proceed_authentication. rewrite Has, Hty, Hgs. reflexivity.
Qed.

Section StepFacts.

Variable app : Application.

Lemma social_attach_run auth account credential g args env s :
  social_attach app auth account credential g args env s =
  let request := ReqAttachAccount g (fst (parse_account credential))
                   (snd (parse_account credential)) account (fetch_profile_flag args) in
  if social_profile auth then
    match attach_account_reply app g (fst (parse_account credential))
            (snd (parse_account credential)) account env (fetch_profile_flag args) with
    | Reply data => Ok data (logged [request] s)
    | InternalError _ _ =>
        Ok None (logged [request; LogWarning "Failed to get profile_data: %s %s"] s)
    | DiscoveryFailed code message =>
        Raise (DiscoveryError code message) (logged [request] s)
    end
  else Ok None s.
Proof.
  unfold social_attach. destruct (social_profile auth); [| reflexivity].
  unfold bind, emit, modify, logged. simpl.
  destruct (attach_account_reply _ _ _ _ _ _ _); simpl; try reflexivity.
  rewrite <- app_assoc. reflexivity.
Qed.

Lemma scope_check_run credential should_have user_scopes requested s :
  scope_check app credential should_have user_scopes requested s =
  match find (restricted app should_have user_scopes) requested with
  | Some scope => Raise (scope_restricted credential scope) s
  | None => Ok tt s
  end.
Proof.
  unfold scope_check. induction requested as [| scope requested IH]; simpl.
  - reflexivity.
  - unfold bind. destruct (restricted app should_have user_scopes scope).
    + reflexivity.
    + simpl. assumption.
Qed.

Lemma unique_check_run credential args user_scopes s :
  unique_check credential args user_scopes s =
  if non_unique args && negb (mem "auth_non_unique" user_scopes)
  then Raise (non_unique_token_restricted credential) s
  else Ok (negb (non_unique args)) s.
Proof.
  unfold unique_check. destruct (non_unique args); simpl; [| reflexivity].
  destruct (mem "auth_non_unique" user_scopes); reflexivity.
Qed.

(** The [info] step touches the account rows only, and fails with
    [bad_account_info] or inside [update]. *)
Lemma info_step_Ok account args s u s' :
  info_step app account args s = Ok u s' ->
  st_links s' = st_links s /\ st_tokens s' = st_tokens s
  /\ st_uuid s' = st_uuid s /\ st_trace s' = st_trace s.
Proof.
  unfold info_step. destruct (truthy_opt (arg_info args)).
  - destruct (json_loads app _); try discriminate.
    unfold update_account_info, bind, get_account_info, gets.
    destruct (json_update app _ _); [| discriminate].
    unfold modify. intros [= <- <-]. auto.
  - intros [= <- <-]. auto.
Qed.

Lemma info_step_Raise account args s e s' :
  info_step app account args s = Raise e s' ->
  s' = s /\ (result_id e = Some "bad_account_info" \/ result_id e = None).
Proof.
  unfold info_step. destruct (truthy_opt (arg_info args)).
  - destruct (json_loads app _).
    + intros [= <- <-]. auto.
    + intros [= <- <-]. auto.
    + unfold update_account_info, bind, get_account_info, gets.
      destruct (json_update app _ _); [discriminate |].
      intros [= <- <-]. auto.
  - discriminate.
Qed.

Lemma profile_step_Ok auth account g profile_data s u s' :
  profile_step app auth account g profile_data s = Ok u s' ->
  st_links s' = st_links s /\ st_tokens s' = st_tokens s /\ st_uuid s' = st_uuid s.
Proof.
  unfold profile_step. destruct (social_profile auth); [| intros [= <- <-]; auto].
  destruct profile_data as [fields |]; [| intros [= <- <-]; auto].
  unfold bind, emit, modify. destruct (update_profile_reply app g account fields);
    simpl; try discriminate; intros [= <- <-]; auto.
Qed.

Lemma profile_step_Raise auth account g profile_data s e s' :
  profile_step app auth account g profile_data s = Raise e s' -> result_id e = None.
Proof.
  unfold profile_step. destruct (social_profile auth); [| discriminate].
  destruct profile_data as [fields |]; [| discriminate].
  unfold bind, emit, modify. destruct (update_profile_reply app g account fields);
    simpl; try discriminate. intros [= <- <-]. reflexivity.
Qed.

Lemma mint_Ok auth account credential g args allowed unique profile_data s reply s' :
  mint app auth account credential g args allowed unique profile_data s = Ok reply s' ->
  reply = mkAuthReply (minted account credential g allowed unique (st_uuid s))
                      account credential allowed
  /\ st_links s' = st_links s
  /\ st_tokens s' =
     (if unique
      then save_rows account (st_uuid s) (token_expires app) (arg_as args) (st_tokens s)
      else st_tokens s).
Proof.
  unfold mint. intros H.
  apply bind_Ok in H as (token & s1 & Hgen & H).
  apply bind_Ok in H as (u & s2 & Hsave & H).
  apply bind_Ok in H as (u' & s3 & Hprof & H).
  unfold generate in Hgen. injection Hgen as <- <-.
  unfold ret in H. injection H as <- <-.
  apply profile_step_Ok in Hprof as (Hl & Ht & _).
  rewrite Hl, Ht. unfold minted.
  destruct unique; simpl in *.
  - unfold save_token, modify in Hsave. injection Hsave as Hsave.
    subst s2. auto.
  - unfold ret in Hsave. injection Hsave as Hsave. subst s2. auto.
Qed.

Lemma mint_Raise auth account credential g args allowed unique profile_data s e s' :
  mint app auth account credential g args allowed unique profile_data s = Raise e s' ->
  result_id e = None.
Proof.
  unfold mint. intros H.
  apply bind_Raise in H as [H | (token & s1 & Hgen & H)]; [discriminate |].
  apply bind_Raise in H as [H | (u & s2 & Hsave & H)].
  { destruct unique; discriminate. }
  apply bind_Raise in H as [H | (u' & s3 & Hprof & H)]; [| discriminate].
  now apply profile_step_Raise in H.
Qed.

End StepFacts.

(** ** Scope resolution and uniqueness in [proceed_authentication] *)

Section Resolution.

Variable app : Application.
Variables (auth : Authenticator) (gamespace_scopes_data : string).
Variables (account : Account) (credential : Credential) (g : Gamespace).
Variables (requested : list Scope) (args : Args) (env : Environ).

Let user_scopes := resolved_scopes app g account gamespace_scopes_data.
Let should_have := get_default (arg_should_have args) "*".

Lemma restricted_spec scope :
  restricted app should_have user_scopes scope = true <->
  ~ In scope user_scopes
  /\ (should_have = "*" \/ In scope (parse_scopes app should_have)).
Proof.
  unfold restricted, _have_scope.
  rewrite andb_true_iff, negb_true_iff, orb_true_iff, String.eqb_eq.
  rewrite (mem_In scope (parse_scopes app should_have)).
  assert (H : mem scope user_scopes = false <-> ~ In scope user_scopes).
  { rewrite <- mem_In. destruct (mem scope user_scopes); split; congruence. }
  rewrite H. tauto.
Qed.

Lemma In_cross scope :
  In scope (cross requested user_scopes) <-> In scope requested /\ In scope user_scopes.
Proof. unfold cross. now rewrite nodup_In, filter_In, mem_In. Qed.

Lemma social_attach_found s :
  social_found app auth g credential account env args ->
  exists profile_data events,
    social_attach app auth account credential g args env s
    = Ok profile_data (logged events s).
Proof.
  intros Hfound. rewrite social_attach_run. simpl.
  unfold social_found in Hfound. destruct (social_profile auth).
  - destruct (attach_account_reply _ _ _ _ _ _ _) as [data | code body | code message]
      eqn:E; eauto.
    exfalso. exact (Hfound eq_refl _ _ eq_refl).
  - exists None, []. unfold logged. rewrite app_nil_r. destruct s; reflexivity.
Qed.

(** The run of [proceed_steps] after the social request. *)
Lemma proceed_steps_run s profile_data s1 :
  social_attach app auth account credential g args env s = Ok profile_data s1 ->
  proceed_steps app auth gamespace_scopes_data account credential g requested args env s
  = match find (restricted app should_have user_scopes) requested with
    | Some scope => Raise (scope_restricted credential scope) s1
    | None =>
        if non_unique args && negb (mem "auth_non_unique" user_scopes)
        then Raise (non_unique_token_restricted credential) s1
        else (info_step app account args ;;
              mint app auth account credential g args (cross requested user_scopes)
                   (negb (non_unique args)) profile_data) s1
    end.
Proof.
  intros Hsocial. unfold proceed_steps.
  unfold bind at 1. rewrite Hsocial.
  unfold bind at 1. rewrite scope_check_run.
  fold user_scopes. fold should_have.
  destruct (find _ requested); [reflexivity |].
  unfold bind at 1. rewrite unique_check_run. fold user_scopes.
  destruct (non_unique args && negb (mem "auth_non_unique" user_scopes)); reflexivity.
Qed.

End Resolution.

(** C5. In [proceed_authentication] (past the token-name check, with a
    registered credential type, a reachable social service and a known
    gamespace): the call fails [scope_restricted] if and only if some
    requested scope is outside the union of the user's and the gamespace's
    scopes while [should_have] is "*" (the default) or lists that scope; when
    the call succeeds, the scopes of the minted token are exactly the
    requested scopes that are in that union, and every requested scope
    outside it was dropped because [should_have] neither is "*" nor lists
    it. *)
Theorem proceed_scope_resolution
  app auth gamespace_scopes_data account credential g requested args env s :
  bad_auth_as app args = false ->
  lookup (credential_type credential) (credential_types app) = Some auth ->
  get_gamespace_access_scopes app g = Some gamespace_scopes_data ->
  social_found app auth g credential account env args ->
  let user_scopes := resolved_scopes app g account gamespace_scopes_data in
  let should_have := get_default (arg_should_have args) "*" in
  ((exists obj s',
      proceed_authentication app account credential g requested args env s
      = Raise (AuthenticationError 403 "scope_restricted" obj) s')
   <-> (exists scope,
          In scope requested /\ ~ In scope user_scopes
          /\ (should_have = "*" \/ In scope (parse_scopes app should_have))))
  /\ (forall reply s',
        proceed_authentication app account credential g requested args env s
        = Ok reply s' ->
        (forall scope, In scope (tok_scopes (rep_token reply))
                       <-> In scope requested /\ In scope user_scopes)
        /\ rep_scopes reply = tok_scopes (rep_token reply)
        /\ (forall scope, In scope requested -> ~ In scope user_scopes ->
                          ~ In scope (tok_scopes (rep_token reply))
                          /\ should_have <> "*"
                          /\ ~ In scope (parse_scopes app should_have))).
Proof.
  intros Has Hty Hgs Hfound user_scopes should_have.
  subst user_scopes should_have.
  set (user_scopes := resolved_scopes app g account gamespace_scopes_data).
  set (should_have := get_default (arg_should_have args) "*").
  rewrite (proceed_authentication_steps _ _ _ _ _ _ _ _ Has Hty Hgs).
  destruct (social_attach_found s Hfound) as (profile_data & events & Hsocial).
  erewrite proceed_steps_run by exact Hsocial.
  fold user_scopes should_have.
  destruct (find (restricted app should_have user_scopes) requested) as [bad |] eqn:Efind.
  - apply find_some in Efind as [Hin Hbad].
    apply restricted_spec in Hbad as [Hout Hmust].
    split.
    + split; [intros _; exists bad; auto | intros _; eexists; eexists; reflexivity].
    + discriminate.
  - assert (Hnone : forall scope, In scope requested -> ~ In scope user_scopes ->
                      should_have <> "*" /\ ~ In scope (parse_scopes app should_have)).
    { intros scope Hin Hout.
      pose proof (find_none _ _ Efind _ Hin) as Hr.
      split; intros Hc;
        (assert (Ht : restricted app should_have user_scopes scope = true)
           by (apply restricted_spec; auto)); congruence. }
    split.
    + split.
      * intros (obj & s' & H).
        destruct (non_unique args && negb (mem "auth_non_unique" user_scopes));
          [discriminate |].
        apply bind_Raise in H as [H | (u & s2 & _ & H)].
        -- apply info_step_Raise in H as [_ [H | H]]; discriminate.
        -- apply mint_Raise in H. discriminate.
      * intros (scope & Hin & Hout & Hmust).
        destruct (Hnone scope Hin Hout) as [H1 H2].
        destruct Hmust; contradiction.
    + intros reply s' H.
      destruct (non_unique args && negb (mem "auth_non_unique" user_scopes));
        [discriminate |].
      apply bind_Ok in H as (u & s2 & _ & H).
      apply mint_Ok in H as (-> & _).
      unfold minted. cbn [rep_token rep_scopes tok_scopes].
      split; [intros scope; apply In_cross |].
      split; [reflexivity |].
      intros scope Hin Hout. split; [| now apply Hnone].
      intros Hc. apply In_cross in Hc. tauto.
Qed.

Lemma proceed_scope_resolution_witness :
  exists obj s',
    proceed_authentication Fixture.app "2" "anonymous:u1" "1" ["profile"; "admin"]
      Fixture.no_args None Fixture.empty_store
    = Raise (AuthenticationError 403 "scope_restricted" obj) s'.
Proof.
  apply (@proceed_scope_resolution Fixture.app (Fixture.trusting "anonymous" false)
           "profile,game" "2" "anonymous:u1" "1" ["profile"; "admin"] Fixture.no_args
           None Fixture.empty_store eq_refl eq_refl eq_refl).
  - intros Hsocial. discriminate.
  - exists "admin". split; [simpl; auto |]. split; [| now left].
    vm_compute. intros [H | [H | []]]; discriminate.
Defined.

Lemma info_step_accepted app account args s s1 :
  info_accepted app account args s -> st_accounts s1 = st_accounts s ->
  exists s2, info_step app account args s1 = Ok tt s2.
Proof.
  unfold info_step. intros [Hno | (d & v & Hload & Hupd)] Hrows.
  - rewrite Hno. eexists. reflexivity.
  - destruct (truthy_opt (arg_info args)); [| eexists; reflexivity].
    rewrite Hload. unfold update_account_info, bind, get_account_info, gets.
    rewrite Hrows, Hupd. eexists. reflexivity.
Qed.

Lemma mint_found app auth account credential g args allowed unique profile_data s :
  profile_found app g account ->
  exists reply s',
    mint app auth account credential g args allowed unique profile_data s = Ok reply s'.
Proof.
  intros Hfound. unfold mint, bind, generate.
  assert (Hprofile : forall s0, exists s1,
             profile_step app auth account g profile_data s0 = Ok tt s1).
  { intros s0. unfold profile_step. destruct (social_profile auth); [| eauto].
    destruct profile_data as [fields |]; [| eauto].
    unfold bind, emit, modify.
    destruct (update_profile_reply app g account fields) as [[] | ? ? | code message] eqn:E;
      eauto.
    exfalso. exact (Hfound _ _ _ E). }
  destruct unique.
  - unfold save_token, modify.
    match goal with
    | |- context [profile_step _ _ _ _ _ ?s0] =>
        destruct (Hprofile s0) as (s1 & ->)
    end. eauto.
  - unfold ret at 1.
    match goal with
    | |- context [profile_step _ _ _ _ _ ?s0] =>
        destruct (Hprofile s0) as (s1 & ->)
    end. eauto.
Qed.

Lemma non_unique_spec args : non_unique args = true <-> arg_unique args = Some "false".
Proof.
  unfold non_unique, get_default. destruct (arg_unique args) as [v |].
  - rewrite String.eqb_eq. split; [intros -> | intros [= ->]]; reflexivity.
  - split; discriminate.
Qed.

(** C6. In [proceed_authentication] (as in C5, and with no requested scope
    restricted): the token is non-unique exactly when [args.unique] is the
    text "false".  A non-unique request of a user whose scopes lack
    [auth_non_unique] fails [non_unique_token_restricted] before any token is
    minted or recorded.  When the call succeeds, the token carries
    ISSUER = "login" exactly when it is unique; a non-unique token is minted
    and the token store is left as it was; a unique one is saved for the
    account under the name given by [as]: the row of the new token carries
    the text of [as] when it is given and not empty, and "def" otherwise,
    and it replaces the rows the account had under that name.  The call does
    succeed when the uniqueness test passes, the [info] argument is accepted
    and the profile service is found. *)
Theorem proceed_unique_token
  app auth gamespace_scopes_data account credential g requested args env s :
  bad_auth_as app args = false ->
  lookup (credential_type credential) (credential_types app) = Some auth ->
  get_gamespace_access_scopes app g = Some gamespace_scopes_data ->
  social_found app auth g credential account env args ->
  let user_scopes := resolved_scopes app g account gamespace_scopes_data in
  (forall scope, In scope requested ->
     restricted app (get_default (arg_should_have args) "*") user_scopes scope = false) ->
  (non_unique args = true <-> arg_unique args = Some "false")
  /\ (non_unique args = true -> ~ In "auth_non_unique" user_scopes ->
      exists obj s',
        proceed_authentication app account credential g requested args env s
        = Raise (AuthenticationError 403 "non_unique_token_restricted" obj) s'
        /\ st_uuid s' = st_uuid s /\ st_tokens s' = st_tokens s)
  /\ (forall reply s',
        proceed_authentication app account credential g requested args env s
        = Ok reply s' ->
        (tok_issuer (rep_token reply) = Some "login" <-> non_unique args = false)
        /\ (non_unique args = true ->
            In "auth_non_unique" user_scopes
            /\ tok_issuer (rep_token reply) = None
            /\ st_tokens s' = st_tokens s)
        /\ (non_unique args = false ->
            st_tokens s' = save_rows account (tok_uuid (rep_token reply))
                             (token_expires app) (arg_as args) (st_tokens s)
            /\ In (mkTokenRow account (system_name (arg_as args))
                     (tok_uuid (rep_token reply)) (token_expires app))
                  (st_tokens s')
            /\ (forall name, arg_as args = Some name -> name <> "" ->
                  forall row, In row (st_tokens s') ->
                    tr_account row = account -> tr_name row = name ->
                    row = mkTokenRow account name (tok_uuid (rep_token reply))
                            (token_expires app))
            /\ (forall name, arg_as args = Some name -> name <> "" ->
                  In (mkTokenRow account name (tok_uuid (rep_token reply))
                        (token_expires app)) (st_tokens s'))
            /\ (arg_as args = None \/ arg_as args = Some "" ->
                  In (mkTokenRow account "def" (tok_uuid (rep_token reply))
                        (token_expires app)) (st_tokens s'))))
  /\ (non_unique args = false \/ In "auth_non_unique" user_scopes ->
      info_accepted app account args s -> profile_found app g account ->
      exists reply s',
        proceed_authentication app account credential g requested args env s
        = Ok reply s').
Proof.
  intros Has Hty Hgs Hfound user_scopes Hscopes.
  rewrite (proceed_authentication_steps _ _ _ _ _ _ _ _ Has Hty Hgs).
  destruct (social_attach_found s Hfound) as (profile_data & events & Hsocial).
  erewrite proceed_steps_run by exact Hsocial.
  fold user_scopes.
  destruct (find (restricted app (get_default (arg_should_have args) "*") user_scopes)
              requested) as [bad |] eqn:Efind.
  { apply find_some in Efind as [Hin Hbad]. rewrite (Hscopes _ Hin) in Hbad.
    discriminate. }
  assert (Hmem : mem "auth_non_unique" user_scopes = false
                 <-> ~ In "auth_non_unique" user_scopes).
  { rewrite <- mem_In. destruct (mem "auth_non_unique" user_scopes); split; congruence. }
  split; [apply non_unique_spec |].
  split; [| split].
  - intros Hnon Hlack. apply Hmem in Hlack. rewrite Hnon, Hlack. simpl.
    eexists. eexists. split; [reflexivity |]. split; reflexivity.
  - intros reply s' H.
    destruct (non_unique args) eqn:Hnon; simpl in H.
    + destruct (mem "auth_non_unique" user_scopes) eqn:Hhas; simpl in H;
        [| discriminate].
      apply bind_Ok in H as (u & s2 & Hinfo & H).
      apply info_step_Ok in Hinfo as (_ & Htok & _).
      apply mint_Ok in H as (-> & _ & Hrows). simpl in *.
      split; [split; discriminate |].
      split; [| discriminate].
      intros _. split; [now apply mem_In |]. split; [reflexivity |].
      rewrite Hrows, Htok. reflexivity.
    + apply bind_Ok in H as (u & s2 & Hinfo & H).
      apply info_step_Ok in Hinfo as (_ & Htok & Huuid & _).
      apply mint_Ok in H as (-> & _ & Hrows). simpl in *.
      split; [split; reflexivity |].
      split; [discriminate |].
      intros _. rewrite Hrows, Htok, Huuid. split; [reflexivity |].
      assert (Hin : In (mkTokenRow account (system_name (arg_as args)) (st_uuid s)
                          (token_expires app))
                       (save_rows account (st_uuid s) (token_expires app) (arg_as args)
                          (st_tokens s))).
      { unfold save_rows. apply in_app_iff. right. now left. }
      assert (Hname : forall name, arg_as args = Some name -> name <> "" ->
                        system_name (arg_as args) = name).
      { intros name Hsome Hne. rewrite Hsome. unfold system_name, truthy.
        destruct (String.eqb_spec name ""); [contradiction | reflexivity]. }
      split; [exact Hin |]. split; [| split].
      * intros name Hsome Hne row Hrow Hacc Hnm.
        unfold save_rows in Hrow. rewrite (Hname _ Hsome Hne) in Hrow.
        apply in_app_iff in Hrow as [Hrow | [<- | []]]; [| reflexivity].
        apply filter_In in Hrow as [_ Hrow].
        rewrite Hacc, Hnm, !String.eqb_refl in Hrow. discriminate.
      * intros name Hsome Hne. rewrite <- (Hname _ Hsome Hne). exact Hin.
      * intros Hdef. replace "def" with (system_name (arg_as args)); [exact Hin |].
        destruct Hdef as [-> | ->]; reflexivity.
  - intros Hpass Hinfo Hprofile.
    assert (Hcond : non_unique args && negb (mem "auth_non_unique" user_scopes) = false).
    { destruct Hpass as [-> | Hhas]; [reflexivity |].
      apply mem_In in Hhas. rewrite Hhas. apply andb_false_r. }
    rewrite Hcond.
    destruct (@info_step_accepted app account args s (logged events s) Hinfo eq_refl)
      as (s2 & Hstep).
    unfold bind. rewrite Hstep. now apply mint_found.
Qed.

(** A non-unique request of an account holding [auth_non_unique] leaves the
    token store empty; a unique request with [as = "web"] saves the token under
    the name "web". *)
Lemma proceed_unique_token_witness :
  let app := Fixture.app_with (Some ["auth_non_unique"]) (Reply None) (Reply []) in
  let args := mkArgs None None None None None None None (Some "false") None None None
                     None [] in
  let args' := mkArgs None None None None None None (Some "web") None None None None
                      None [] in
  (exists reply s',
     proceed_authentication app "2" "anonymous:u1" "1" ["profile"] args None
       Fixture.empty_store = Ok reply s'
     /\ tok_issuer (rep_token reply) = None
     /\ st_tokens s' = [])
  /\ (exists reply s',
        proceed_authentication app "2" "anonymous:u1" "1" ["profile"] args' None
          Fixture.empty_store = Ok reply s'
        /\ In (mkTokenRow "2" "web" (tok_uuid (rep_token reply)) (token_expires app))
              (st_tokens s')).
Proof.
  intros app args args'.
  assert (Hfound : forall a, social_found app (Fixture.trusting "anonymous" false) "1"
                               "anonymous:u1" "2" None a).
  { intros a Hsocial. discriminate. }
  split.
  - assert (Hscopes : forall scope, In scope ["profile"] ->
              restricted app (get_default (arg_should_have args) "*")
                (resolved_scopes app "1" "2" "profile,game") scope = false).
    { intros scope [<- | []]. reflexivity. }
    destruct (@proceed_unique_token app (Fixture.trusting "anonymous" false)
                "profile,game" "2" "anonymous:u1" "1" ["profile"] args None
                Fixture.empty_store eq_refl eq_refl eq_refl (Hfound args) Hscopes)
      as (_ & _ & Hok & Hminted).
    destruct Hminted as (reply & s' & Hrun).
    + right. simpl. now left.
    + left. reflexivity.
    + intros fields code message. discriminate.
    + exists reply, s'. split; [exact Hrun |].
      destruct (Hok reply s' Hrun) as (_ & Hnon & _).
      destruct (Hnon eq_refl) as (_ & Hissuer & Hrows).
      split; [exact Hissuer | exact Hrows].
  - assert (Hscopes : forall scope, In scope ["profile"] ->
              restricted app (get_default (arg_should_have args') "*")
                (resolved_scopes app "1" "2" "profile,game") scope = false).
    { intros scope [<- | []]. reflexivity. }
    destruct (@proceed_unique_token app (Fixture.trusting "anonymous" false)
                "profile,game" "2" "anonymous:u1" "1" ["profile"] args' None
                Fixture.empty_store eq_refl eq_refl eq_refl (Hfound args') Hscopes)
      as (_ & _ & Hok & Hminted).
    destruct Hminted as (reply & s' & Hrun).
    + left. reflexivity.
    + left. reflexivity.
    + intros fields code message. discriminate.
    + exists reply, s'. split; [exact Hrun |].
      destruct (Hok reply s' Hrun) as (_ & _ & Hunique).
      destruct (Hunique eq_refl) as (_ & _ & _ & Hnamed & _).
      apply Hnamed; [reflexivity | discriminate].
Defined.

(** ** The [attach_account] request of [proceed_authentication] *)

Lemma proceed_after_social app auth account credential g requested args env s :
  bad_auth_as app args = false ->
  lookup (credential_type credential) (credential_types app) = Some auth ->
  proceed_authentication app account credential g requested args env s
  = (profile_data <- social_attach app auth account credential g args env ;;
     after_social app auth account credential g requested args profile_data) s.
Proof.
  unfold bad_auth_as, credential_type. intros Has Hty.
  unfold proceed_authentication, after_social. rewrite Has, Hty.
  destruct (get_gamespace_access_scopes app g); reflexivity.
Qed.

Lemma same_store_logged events events' s :
  same_store (logged events s) (logged events' s).
Proof. unfold same_store, logged. simpl. auto. Qed.

Lemma after_social_run app auth account credential g requested args profile_data s1 :
  after_social app auth account credential g requested args profile_data s1
  = match get_gamespace_access_scopes app g with
    | None =>
        Raise (AuthenticationError 404 "no_such_gamespace"
                 (with_info ("Gamespace ID '" ++ g ++ "' was not found.")%string)) s1
    | Some gamespace_scopes_data =>
        let user_scopes := resolved_scopes app g account gamespace_scopes_data in
        match find (restricted app (get_default (arg_should_have args) "*") user_scopes)
                requested with
        | Some scope => Raise (scope_restricted credential scope) s1
        | None =>
            if non_unique args && negb (mem "auth_non_unique" user_scopes)
            then Raise (non_unique_token_restricted credential) s1
            else (info_step app account args ;;
                  mint app auth account credential g args (cross requested user_scopes)
                       (negb (non_unique args)) profile_data) s1
        end
    end.
Proof.
  unfold after_social. destruct (get_gamespace_access_scopes app g); [| reflexivity].
  simpl. unfold bind at 1. rewrite scope_check_run.
  destruct (find _ requested); [reflexivity |].
  unfold bind at 1. rewrite unique_check_run.
  destruct (non_unique args && negb _); reflexivity.
Qed.

Lemma mint_oblivious app auth account credential g args allowed unique profile_data s1 s2 :
  same_store s1 s2 ->
  outcome (mint app auth account credential g args allowed unique profile_data s1)
  = outcome (mint app auth account credential g args allowed unique profile_data s2).
Proof.
  intros (Hl & Ha & Hn & Ht & Hu).
  destruct s1 as [l1 a1 n1 t1 u1 tr1], s2 as [l2 a2 n2 t2 u2 tr2]. simpl in *. subst.
  unfold mint, bind, generate, profile_step, save_token, modify, emit, bind.
  destruct unique, (social_profile auth), profile_data as [fields |];
    simpl; try reflexivity;
    destruct (update_profile_reply app g account fields); reflexivity.
Qed.

Lemma info_step_oblivious app account args s1 s2 :
  same_store s1 s2 ->
  match info_step app account args s1, info_step app account args s2 with
  | Ok _ s1', Ok _ s2' => same_store s1' s2'
  | Raise e1 _, Raise e2 _ => e1 = e2
  | _, _ => False
  end.
Proof.
  intros (Hl & Ha & Hn & Ht & Hu).
  destruct s1 as [l1 a1 n1 t1 u1 tr1], s2 as [l2 a2 n2 t2 u2 tr2]. simpl in *. subst.
  unfold info_step. destruct (truthy_opt (arg_info args)).
  - destruct (json_loads app _); try reflexivity.
    unfold update_account_info, bind, get_account_info, gets. simpl.
    destruct (json_update app _ _); [| reflexivity].
    unfold same_store. simpl. auto.
  - unfold same_store. simpl. auto.
Qed.

(** Nothing after the request reads the trace. *)
Lemma after_social_oblivious app auth account credential g requested args profile_data
  s1 s2 :
  same_store s1 s2 ->
  outcome (after_social app auth account credential g requested args profile_data s1)
  = outcome (after_social app auth account credential g requested args profile_data s2).
Proof.
  intros Hsame. rewrite !after_social_run.
  destruct (get_gamespace_access_scopes app g); [| reflexivity]. simpl.
  destruct (find _ requested); [reflexivity |].
  destruct (non_unique args && negb _); [reflexivity |].
  unfold bind.
  pose proof (info_step_oblivious app account args Hsame) as Hinfo.
  destruct (info_step app account args s1), (info_step app account args s2);
    try contradiction.
  - now apply mint_oblivious.
  - simpl. now rewrite Hinfo.
Qed.

Lemma mint_trace app auth account credential g args allowed unique profile_data s :
  exists rest,
    st_trace (result_state
                (mint app auth account credential g args allowed unique profile_data s))
    = st_trace s ++ rest.
Proof.
  unfold mint, bind, generate, profile_step, save_token, modify, emit, bind.
  destruct unique, (social_profile auth), profile_data as [fields |]; simpl;
    try (exists []; now rewrite app_nil_r);
    destruct (update_profile_reply app g account fields); simpl;
      rewrite <- ?app_assoc; eauto.
Qed.

Lemma after_social_trace app auth account credential g requested args profile_data s1 :
  exists rest,
    st_trace (result_state
                (after_social app auth account credential g requested args
                   profile_data s1))
    = st_trace s1 ++ rest.
Proof.
  rewrite after_social_run.
  destruct (get_gamespace_access_scopes app g);
    [| exists []; now rewrite app_nil_r]. simpl.
  destruct (find _ requested); [exists []; now rewrite app_nil_r |].
  destruct (non_unique args && negb _); [exists []; now rewrite app_nil_r |].
  unfold bind. destruct (info_step app account args s1) as [u s2 | e s2] eqn:Einfo.
  - apply info_step_Ok in Einfo as (_ & _ & _ & <-). apply mint_trace.
  - apply info_step_Raise in Einfo as [-> _]. exists []. now rewrite app_nil_r.
Qed.

Lemma fetch_profile_flag_spec args :
  fetch_profile_flag args = true
  <-> arg_import_profile args = None \/ arg_import_profile args = Some "true".
Proof.
  unfold fetch_profile_flag, get_default. destruct (arg_import_profile args) as [v |].
  - rewrite String.eqb_eq. split.
    + intros ->. now right.
    + intros [H | [= ->]]; [discriminate | reflexivity].
  - split; [now left | reflexivity].
Qed.

(** C8 (as the code has it).  In [proceed_authentication] with a
    social-profile credential, the [fetch_profile] flag of the
    [attach_account] request is true exactly when [import_profile] is absent
    or is the text "true"; the request is sent with that flag.  When the
    request fails with [InternalError], a warning is logged and the outcome of
    the authentication (the reply, or the error raised) is the one it has when
    the service answers with no profile data. *)
Theorem proceed_fetch_profile app auth account credential g requested args env s :
  bad_auth_as app args = false ->
  lookup (credential_type credential) (credential_types app) = Some auth ->
  social_profile auth = true ->
  let request :=
    ReqAttachAccount g (credential_type credential) (snd (parse_account credential))
      account (fetch_profile_flag args) in
  (fetch_profile_flag args = true
   <-> arg_import_profile args = None \/ arg_import_profile args = Some "true")
  /\ (exists rest,
        st_trace (result_state
                    (proceed_authentication app account credential g requested args env s))
        = st_trace s ++ request :: rest)
  /\ (forall code body,
        attach_account_reply app g (credential_type credential)
          (snd (parse_account credential)) account env (fetch_profile_flag args)
        = InternalError code body ->
        (exists rest,
           st_trace (result_state
                       (proceed_authentication app account credential g requested args
                          env s))
           = st_trace s ++ request :: LogWarning "Failed to get profile_data: %s %s" :: rest)
        /\ outcome (proceed_authentication app account credential g requested args env s)
           = outcome (proceed_authentication
                        (with_attach_reply app (fun _ _ _ _ _ _ => Reply None))
                        account credential g requested args env s)).
Proof.
  intros Has Hty Hsocial request.
  split; [apply fetch_profile_flag_spec |].
  rewrite (@proceed_after_social app auth account credential g requested args env s
             Has Hty).
  unfold bind. rewrite social_attach_run. simpl. rewrite Hsocial.
  fold (credential_type credential). fold request.
  split.
  - destruct (attach_account_reply _ _ _ _ _ _ _) as [data | code body | code message].
    + destruct (after_social_trace app auth account credential g requested args data
                  (logged [request] s)) as (rest & ->).
      simpl. rewrite <- app_assoc. exists rest. reflexivity.
    + destruct (after_social_trace app auth account credential g requested args None
                  (logged [request; LogWarning "Failed to get profile_data: %s %s"] s))
        as (rest & ->).
      simpl. rewrite <- app_assoc.
      exists (LogWarning "Failed to get profile_data: %s %s" :: rest). reflexivity.
    + simpl. exists []. reflexivity.
  - intros code body Hreply. rewrite Hreply. split.
    + destruct (after_social_trace app auth account credential g requested args None
                  (logged [request; LogWarning "Failed to get profile_data: %s %s"] s))
        as (rest & ->).
      simpl. rewrite <- app_assoc. exists rest. reflexivity.
    + rewrite (@proceed_after_social
                 (with_attach_reply app (fun _ _ _ _ _ _ => Reply None))
                 auth account credential g requested args env s Has Hty).
      unfold bind. rewrite social_attach_run. simpl. rewrite Hsocial.
      change (after_social (with_attach_reply app (fun _ _ _ _ _ _ => Reply None)))
        with (after_social app).
      apply after_social_oblivious, same_store_logged.
Qed.

Lemma proceed_fetch_profile_witness :
  let app := Fixture.app_with None (InternalError 500 "down") (Reply []) in
  exists rest,
    st_trace (result_state
                (proceed_authentication app "2" "google:gg" "1" ["profile"]
                   Fixture.no_args None Fixture.empty_store))
    = [] ++ ReqAttachAccount "1" "google" "gg" "2" true
         :: LogWarning "Failed to get profile_data: %s %s" :: rest.
Proof.
  intros app.
  destruct (@proceed_fetch_profile app (Fixture.trusting "google" true) "2" "google:gg"
              "1" ["profile"] Fixture.no_args None Fixture.empty_store
              eq_refl eq_refl eq_refl) as (_ & _ & Hfail).
  destruct (Hfail 500%Z "down" eq_refl) as [Hlogged _]. exact Hlogged.
Defined.

(** With [import_profile = "yes"], which is not the text "false", the request
    is sent with [fetch_profile] false. *)
Lemma fetch_profile_counterexample :
  let args := mkArgs None None None None None None None None None (Some "yes") None
                     None [] in
  arg_import_profile args <> Some "false"
  /\ st_trace (result_state
                 (proceed_authentication Fixture.app "2" "google:gg" "1" ["profile"]
                    args None Fixture.empty_store))
     = [ReqAttachAccount "1" "google" "gg" "2" false]
  /\ ~ (fetch_profile_flag args = true <-> arg_import_profile args <> Some "false").
Proof.
  split; [discriminate |]. split; [reflexivity |].
  intros [_ H]. assert (Hflag : fetch_profile_flag
                                  (mkArgs None None None None None None None None None
                                          (Some "yes") None None []) = true).
  { apply H. discriminate. }
  discriminate.
Qed.

(** ** The error [multiple_accounts_attached] *)

Lemma multiple_accounts_run {A} app g credential accounts s :
  __multiple_accounts_attached__ (A := A) app g credential accounts s =
  match mass_profiles_reply app g accounts with
  | Reply profiles =>
      Raise (conflict_300 g credential (st_uuid s) (summary_of profiles accounts))
            (logged [ReqMassProfiles g accounts] (minted_resolve_token s))
  | InternalError _ _ =>
      Raise (conflict_300 g credential (st_uuid s) (summary_of [] accounts))
            (logged [ReqMassProfiles g accounts;
                     LogException "failed to get profiles for multiple_accounts_attached: %s, %s"]
                    (minted_resolve_token s))
  | DiscoveryFailed code message =>
      Raise (DiscoveryError code message)
            (logged [ReqMassProfiles g accounts] (minted_resolve_token s))
  end.
Proof.
  unfold __multiple_accounts_attached__, bind, generate_resolve_token, emit, modify.
  simpl. destruct (mass_profiles_reply app g accounts); simpl; try reflexivity.
  unfold logged. simpl. rewrite <- app_assoc. reflexivity.
Qed.

Lemma summary_of_accounts profiles accounts :
  map fst (summary_of profiles accounts) = accounts.
Proof.
  unfold summary_of. rewrite map_map. simpl. apply map_id.
Qed.

(** [__merge_accounts__] raises it with 409 and nothing but a text. *)
Ltac merge_without_same_type app attach_to g s :=
  destruct (accounts_of (st_links s) _) as [| ?a [| ?a' ?l]]; simpl;
  [ discriminate
  | match goal with
    | |- context [match ?resolve with Some _ => _ | None => _ end] =>
        destruct resolve as [?option |]
    end;
    [ repeat match goal with
             | |- context [if ?o =? ?t then _ else _] => destruct (o =? t)
             end;
      rewrite ?not_mine_run, ?local_run, ?remote_run;
      try match goal with
          | |- context [left_without_credentials ?ls ?c ?a] =>
              destruct (left_without_credentials ls c a)
          end;
      unfold await_error; discriminate
    | unfold generate_resolve_token, emit, modify, getitem; simpl;
      destruct (mass_profiles_reply app g _) as [?profiles | |]; simpl;
      try discriminate;
      destruct (lookup (tok_account attach_to) _); simpl; try discriminate;
      destruct (lookup _ _); simpl; discriminate ]
  | intros [= <- <- <-]; auto ].

Lemma merge_multiple_accounts_409 app attach_to credential resolve g s code obj s' :
  __merge_accounts__ app attach_to credential resolve g s
  = Raise (AuthenticationError code "multiple_accounts_attached" obj) s' ->
  code = 409%Z /\ obj = with_info (multiple_accounts_info credential) /\ s' = s.
Proof.
  unfold __merge_accounts__, bind, list_account_credentials, list_accounts, gets.
  destruct (hd_error (credentials_of (st_links s) (tok_account attach_to)
                        [fst (parse_account credential)])) as [c |]; simpl;
    [| merge_without_same_type app attach_to g s].
  destruct (truthy c); [| merge_without_same_type app attach_to g s].
  destruct (c =? credential); [discriminate |].
  destruct (accounts_of (st_links s) credential) as [| a [| a' l]]; simpl.
  - discriminate.
  - discriminate.
  - intros [= <- <- <-]. auto.
Qed.

(** [proceed_authentication] never raises it. *)
Lemma proceed_not_multiple_accounts app account credential g requested args env s e s' :
  proceed_authentication app account credential g requested args env s = Raise e s' ->
  result_id e <> Some "multiple_accounts_attached".
Proof.
  destruct (bad_auth_as app args) eqn:Has.
  { unfold proceed_authentication. unfold bad_auth_as in Has. rewrite Has.
    intros [= <- <-]. discriminate. }
  destruct (lookup (credential_type credential) (credential_types app)) as [auth |] eqn:Hty.
  2:{ unfold proceed_authentication. unfold bad_auth_as in Has.
      unfold credential_type in Hty. rewrite Has, Hty.
      intros [= <- <-]. discriminate. }
  rewrite (@proceed_after_social app auth account credential g requested args env s
             Has Hty).
  intros H. apply bind_Raise in H as [H | (profile_data & s1 & _ & H)].
  - rewrite social_attach_run in H. simpl in H.
    destruct (social_profile auth); [| discriminate].
    destruct (attach_account_reply _ _ _ _ _ _ _); try discriminate.
    injection H as <- <-. discriminate.
  - rewrite after_social_run in H.
    destruct (get_gamespace_access_scopes app g); simpl in H.
    2:{ injection H as <- <-. discriminate. }
    destruct (find _ requested).
    { injection H as <- <-. discriminate. }
    destruct (non_unique args && negb _).
    { injection H as <- <-. discriminate. }
    apply bind_Raise in H as [H | (u & s2 & _ & H)].
    + apply info_step_Raise in H as [_ [H | H]]; rewrite H; discriminate.
    + apply mint_Raise in H. rewrite H. discriminate.
Qed.

(** ** [authorize] up to the account selection *)

Lemma import_social_run app g credential username response s :
  __import_social_connections__ app g credential username response s =
  match import_social_reply app g credential username (resp_data response) with
  | Reply _ =>
      Ok tt (logged [ReqImportSocial g credential username (resp_data response)] s)
  | InternalError code body =>
      Raise (AuthenticationError code "failed_to_import_social" (with_info body))
            (logged [ReqImportSocial g credential username (resp_data response)] s)
  | DiscoveryFailed _ _ =>
      Ok tt (logged [ReqImportSocial g credential username (resp_data response);
                     LogWarning "Failed to discover social: "] s)
  end.
Proof.
  unfold __import_social_connections__, bind, emit, modify, logged. simpl.
  destruct (import_social_reply _ _ _ _ _); simpl; try reflexivity.
  rewrite <- app_assoc. reflexivity.
Qed.

Lemma logged_nil s : logged [] s = s.
Proof. unfold logged. rewrite app_nil_r. destruct s; reflexivity. Qed.

(** Without [attach_to], and when the authenticator accepts, [authorize] is
    the account selection followed by [proceed_authentication]. *)
Lemma authorize_selection app args env s cred_type scopes authorizer g result :
  arg_credential args = Some cred_type ->
  arg_scopes args = Some scopes ->
  arg_attach_to args = None ->
  lookup cred_type (credential_types app) = Some authorizer ->
  gamespace_of app args = Some g ->
  authenticator_authorize authorizer g args env = Authorized result ->
  import_passes app g result ->
  exists events,
    authorize app args env s =
    (account <- select_account app None (credential_of result) g ;;
     proceed_authentication app account (credential_of result) g
       (parse_scopes app scopes) args env) (logged events s).
Proof.
  intros Hcred Hscopes Hattach Hty Hg Hauth Himport.
  unfold authorize, gamespace_of in *. rewrite Hcred, Hscopes, Hattach.
  assert (Hname : exists name,
             (if truthy_opt (arg_gamespace_id args) then Some "" else arg_gamespace args)
             = Some name
             /\ (if truthy_opt (arg_gamespace_id args)
                 then ret (get_default (arg_gamespace_id args) "")
                 else match find_gamespace app name with
                      | Some g0 => ret g0
                      | None =>
                          raise (AuthenticationError 404 "no_such_gamespace"
                                   (with_info ("Gamespace '" ++ name
                                               ++ "' was not found.")%string))
                      end) = ret g).
  { destruct (truthy_opt (arg_gamespace_id args)).
    - exists "". split; [reflexivity |]. rewrite Hg. reflexivity.
    - destruct (arg_gamespace args) as [name |]; [| discriminate].
      exists name. split; [reflexivity |]. rewrite Hg. reflexivity. }
  destruct Hname as (name & -> & Hfind). rewrite Hty.
  unfold bind at 1. unfold ret at 1. unfold bind at 1. rewrite Hfind.
  unfold ret at 1. rewrite Hauth.
  unfold bind at 1.
  destruct (res_response result) as [response |] eqn:Hresp.
  - destruct (import_social response) eqn:Himp.
    + rewrite import_social_run.
      destruct (import_social_reply _ _ _ _ _) as [[] | code body | code message] eqn:E.
      * eexists. reflexivity.
      * exfalso. exact (Himport _ _ _ Hresp Himp E).
      * eexists. reflexivity.
    + exists []. rewrite logged_nil. reflexivity.
  - exists []. rewrite logged_nil. reflexivity.
Qed.

(** Where [authorize] can raise [multiple_accounts_attached]: the account
    selection without [attach_to] (300, with resolve token and summary),
    [__merge_accounts__] (409, a text only), or an authenticator whose own
    error message is that text (403, with the authenticator's code). *)
Lemma authorize_multiple_accounts_codes app args env s code obj s' :
  authorize app args env s
  = Raise (AuthenticationError code "multiple_accounts_attached" obj) s' ->
  (code = 300%Z /\ arg_attach_to args = None
   /\ exists g credential uuid summary,
        AuthenticationError code "multiple_accounts_attached" obj
        = conflict_300 g credential uuid summary)
  \/ (code = 409%Z /\ arg_attach_to args <> None
      /\ err_resolve_token obj = None /\ err_accounts obj = None)
  \/ (code = 403%Z /\ err_error obj <> None).
Proof.
  unfold authorize.
  destruct (arg_credential args) as [cred_type |]; [| discriminate].
  destruct (arg_scopes args) as [scopes |]; [| discriminate].
  destruct (if truthy_opt (arg_gamespace_id args) then Some "" else arg_gamespace args)
    as [name |]; [| discriminate].
  destruct (lookup cred_type (credential_types app)) as [authorizer |]; [| discriminate].
  intros H.
  apply bind_Raise in H as [H | (u & s1 & _ & H)].
  { destruct (arg_attach_to args) as [token |]; [| discriminate].
    unfold bind, validate, gets in H.
    destruct (tv_signed token && _); discriminate. }
  apply bind_Raise in H as [H | (g & s2 & _ & H)].
  { destruct (truthy_opt (arg_gamespace_id args)); [discriminate |].
    destruct (find_gamespace app name); discriminate. }
  destruct (authenticator_authorize authorizer g args env) as [result | message acode].
  2:{ injection H as <- <- <- <-. right. right. split; [reflexivity | discriminate]. }
  apply bind_Raise in H as [H | (u' & s3 & _ & H)].
  { destruct (res_response result) as [response |]; [| discriminate].
    destruct (import_social response); [| discriminate].
    rewrite import_social_run in H.
    destruct (import_social_reply _ _ _ _ _); discriminate. }
  apply bind_Raise in H as [H | (account & s4 & _ & H)].
  2:{ apply proceed_not_multiple_accounts in H. exfalso. now apply H. }
  destruct (arg_attach_to args) as [token |].
  - apply merge_multiple_accounts_409 in H as (-> & -> & _).
    right. left. repeat split. discriminate.
  - left. unfold bind, list_accounts, gets in H.
    destruct (accounts_of (st_links s3) _) as [| a [| a' l]]; try discriminate.
    rewrite multiple_accounts_run in H.
    destruct (mass_profiles_reply app g _); try discriminate;
      injection H as <- <- _; (split; [reflexivity |]); (split; [reflexivity |]);
      do 4 eexists; reflexivity.
Qed.

Lemma attach_account_multiple_accounts_409 app args env s code obj s' :
  attach_account app args env s
  = Raise (AuthenticationError code "multiple_accounts_attached" obj) s' ->
  code = 409%Z /\ err_resolve_token obj = None /\ err_accounts obj = None.
Proof.
  unfold attach_account.
  destruct (arg_access_token args) as [access_token |]; [| discriminate].
  destruct (arg_attach_to args) as [attach_to |]; [| discriminate].
  destruct (arg_scopes args) as [scopes |]; [| discriminate].
  intros H.
  apply bind_Raise in H as [H | (valid & s1 & _ & H)]; [discriminate |].
  apply bind_Raise in H as [H | (u & s2 & _ & H)].
  { destruct valid; discriminate. }
  apply bind_Raise in H as [H | (valid' & s3 & _ & H)]; [discriminate |].
  apply bind_Raise in H as [H | (u' & s4 & _ & H)].
  { destruct valid'; discriminate. }
  destruct (negb _); [discriminate |].
  apply bind_Raise in H as [H | (account & s5 & _ & H)].
  - apply merge_multiple_accounts_409 in H as (-> & -> & _). auto.
  - apply proceed_not_multiple_accounts in H. exfalso. now apply H.
Qed.

Lemma resolve_conflict_multiple_accounts_409 app resolve_token method args env s code obj s' :
  resolve_conflict app resolve_token method args env s
  = Raise (AuthenticationError code "multiple_accounts_attached" obj) s' ->
  code = 409%Z /\ err_resolve_token obj = None /\ err_accounts obj = None.
Proof.
  unfold resolve_conflict.
  destruct (arg_resolve_with args) as [resolve_with |]; [| discriminate].
  destruct (arg_scopes args) as [scopes |]; [| discriminate].
  destruct (negb _); [discriminate |].
  intros H. apply bind_Raise in H as [H | (account & s1 & _ & H)].
  2:{ apply proceed_not_multiple_accounts in H. exfalso. now apply H. }
  destruct (method =? "merge_required").
  - unfold _merge_required in H.
    destruct (arg_attach_to args) as [token |]; [| discriminate].
    apply bind_Raise in H as [H | (valid & s1 & _ & H)]; [discriminate |].
    apply bind_Raise in H as [H | (u & s2 & _ & H)].
    { destruct valid; discriminate. }
    apply merge_multiple_accounts_409 in H as (-> & -> & _). auto.
  - rewrite multiple_accounts_attached_run in H.
    destruct (list_remove _ _) as [others |]; [| discriminate].
    destruct (for_each others _ s) as [u s2 | e s2] eqn:E; [discriminate |].
    apply for_each_detach_Raise in E. subst e. discriminate.
Qed.

(** C3 (as the code has it).  [authorize] without [attach_to], on a credential
    linked to more than one account, fails [multiple_accounts_attached] with
    code 300, carrying a freshly minted resolve token (scope
    [resolve_conflict], the credential, the gamespace) and a summary with one
    entry per linked account; no link or token row changes.  Whenever
    [authorize] raises an error with that result id, it is this one (300), or
    the one of [__merge_accounts__] (409, with [attach_to], no resolve token
    and no summary), or the authenticator's own error (403).  Whenever
    [attach_account] or [resolve_conflict] (the resolver flow) raises it, the
    code is 409 and it carries neither resolve token nor summary. *)
Theorem multiple_accounts_attached_codes app :
  (forall args env s cred_type scopes authorizer g result a1 a2 others,
     arg_credential args = Some cred_type ->
     arg_scopes args = Some scopes ->
     arg_attach_to args = None ->
     lookup cred_type (credential_types app) = Some authorizer ->
     gamespace_of app args = Some g ->
     authenticator_authorize authorizer g args env = Authorized result ->
     import_passes app g result ->
     accounts_of (st_links s) (credential_of result) = a1 :: a2 :: others ->
     (forall code message,
        mass_profiles_reply app g (a1 :: a2 :: others) <> DiscoveryFailed code message) ->
     exists summary s',
       authorize app args env s
       = Raise (conflict_300 g (credential_of result) (st_uuid s) summary) s'
       /\ map fst summary = a1 :: a2 :: others
       /\ st_links s' = st_links s /\ st_tokens s' = st_tokens s)
  /\ (forall args env s code obj s',
        authorize app args env s
        = Raise (AuthenticationError code "multiple_accounts_attached" obj) s' ->
        (code = 300%Z /\ arg_attach_to args = None
         /\ exists g credential uuid summary,
              AuthenticationError code "multiple_accounts_attached" obj
              = conflict_300 g credential uuid summary)
        \/ (code = 409%Z /\ arg_attach_to args <> None
            /\ err_resolve_token obj = None /\ err_accounts obj = None)
        \/ (code = 403%Z /\ err_error obj <> None))
  /\ (forall args env s code obj s',
        attach_account app args env s
        = Raise (AuthenticationError code "multiple_accounts_attached" obj) s' ->
        code = 409%Z /\ err_resolve_token obj = None /\ err_accounts obj = None)
  /\ (forall resolve_token method args env s code obj s',
        resolve_conflict app resolve_token method args env s
        = Raise (AuthenticationError code "multiple_accounts_attached" obj) s' ->
        code = 409%Z /\ err_resolve_token obj = None /\ err_accounts obj = None).
Proof.
  split; [| split; [| split]].
  - intros args env s cred_type scopes authorizer g result a1 a2 others
           Hcred Hscopes Hattach Hty Hg Hauth Himport Haccounts Hfound.
    destruct (@authorize_selection app args env s cred_type scopes authorizer g result
                Hcred Hscopes Hattach Hty Hg Hauth Himport) as (events & ->).
    unfold bind at 1. unfold select_account, bind at 1, list_accounts, gets.
    cbn [st_links logged]. rewrite Haccounts.
    rewrite multiple_accounts_run.
    destruct (mass_profiles_reply app g (a1 :: a2 :: others))
      as [profiles | code body | code message] eqn:E.
    + eexists. eexists. split; [reflexivity |].
      split; [apply summary_of_accounts | split; reflexivity].
    + eexists. eexists. split; [reflexivity |].
      split; [apply summary_of_accounts | split; reflexivity].
    + exfalso. exact (Hfound _ _ eq_refl).
  - intros args env s code obj s'. apply authorize_multiple_accounts_codes.
  - intros args env s code obj s'. apply attach_account_multiple_accounts_409.
  - intros resolve_token method args env s code obj s'.
    apply resolve_conflict_multiple_accounts_409.
Qed.

Lemma multiple_accounts_attached_codes_witness :
  exists summary s',
    authorize Fixture.app (Fixture.login "google" "gg" None) None
      (Fixture.store_with [("google:gg", "7"); ("google:gg", "8")])
    = Raise (conflict_300 "1" "google:gg" 0 summary) s'
    /\ map fst summary = ["7"; "8"].
Proof.
  destruct (multiple_accounts_attached_codes Fixture.app) as [Hconflict _].
  destruct (Hconflict (Fixture.login "google" "gg" None) None
              (Fixture.store_with [("google:gg", "7"); ("google:gg", "8")])
              "google" "profile" (Fixture.trusting "google" true) "1"
              (mkAuthResult "google" "gg" None) "7" "8" []
              eq_refl eq_refl eq_refl eq_refl eq_refl eq_refl)
    as (summary & s' & Hrun & Hsummary & _).
  - intros response code body Hresponse. discriminate.
  - reflexivity.
  - intros code message. discriminate.
  - exists summary, s'. split; [exact Hrun | exact Hsummary].
Defined.

(** [authorize] (no [attach_to]) on a credential linked to accounts 7 and 8
    raises [multiple_accounts_attached] with code 300, not 409. *)
Lemma authorize_conflict_code_counterexample :
  (exists obj s',
     authorize Fixture.app (Fixture.login "google" "gg" None) None
       (Fixture.store_with [("google:gg", "7"); ("google:gg", "8")])
     = Raise (AuthenticationError 300 "multiple_accounts_attached" obj) s')
  /\ ~ (exists obj s',
          authorize Fixture.app (Fixture.login "google" "gg" None) None
            (Fixture.store_with [("google:gg", "7"); ("google:gg", "8")])
          = Raise (AuthenticationError 409 "multiple_accounts_attached" obj) s').
Proof.
  split.
  - vm_compute. eexists. eexists. reflexivity.
  - intros (obj & s' & H). vm_compute in H. discriminate.
Qed.

(** ** The invariant "one credential of each type per account" *)

(** C2. Three successful calls of [authorize] on the store after setup: a login
    with [google:a] (account 2 is created), a login with [google:b] (account 3
    is created), then a login with [google:b] that passes the token of the first
    login as [attach_to].  The last call finds [google:a] on the target
    account, so it moves the credential of the token, [google:a], to the
    account of [google:b]: account 3 ends with two [google] credentials. *)
Theorem authorize_breaks_unique_type :
  exists r1 s1 r2 s2 r3 s3,
    authorize Fixture.app (Fixture.login "google" "a" None) None Fixture.empty_store
    = Ok r1 s1
    /\ authorize Fixture.app (Fixture.login "google" "b" None) None s1 = Ok r2 s2
    /\ authorize Fixture.app
         (Fixture.login "google" "b" (Some (mkTokenArg (rep_token r1) true))) None s2
       = Ok r3 s3
    /\ unique_type_per_account (st_links Fixture.empty_store)
    /\ unique_type_per_account (st_links s1)
    /\ unique_type_per_account (st_links s2)
    /\ st_links s3 = [("google:b", "3"); ("google:a", "3")]
    /\ ~ unique_type_per_account (st_links s3).
Proof.
  do 6 eexists.
  split; [vm_compute; reflexivity |].
  split; [vm_compute; reflexivity |].
  split; [vm_compute; reflexivity |].
  split; [intros account c1 c2 [] |].
  split.
  { intros account c1 c2 H1 H2 _. simpl in H1, H2.
    destruct H1 as [H1 | []], H2 as [H2 | []]. congruence. }
  split.
  { intros account c1 c2 H1 H2 _. simpl in H1, H2.
    destruct H1 as [H1 | [H1 | []]], H2 as [H2 | [H2 | []]]; congruence. }
  split; [reflexivity |].
  intros H.
  specialize (H "3" "google:b" "google:a" (or_introl eq_refl)
                (or_intror (or_introl eq_refl)) eq_refl).
  discriminate.
Qed.

(** * More of the code *)

(** ** What a computation keeps *)

Lemma keeps_bind {A B X} (f : State -> X) (c : M A) (k : A -> M B) :
  keeps f c -> (forall a, keeps f (k a)) -> keeps f (bind c k).
Proof.
  intros Hc Hk s. unfold bind. specialize (Hc s).
  destruct (c s) as [a s1 | e s1]; simpl in *.
  - rewrite (Hk a s1). assumption.
  - assumption.
Qed.

Lemma keeps_for_each {A X} (f : State -> X) (xs : list A) (body : A -> M unit) :
  (forall x, keeps f (body x)) -> keeps f (for_each xs body).
Proof.
  intros Hbody. induction xs as [| x xs IH]; simpl.
  - intros s. reflexivity.
  - apply keeps_bind; [apply Hbody | intros _; exact IH].
Qed.

(** Splits a computation along its binds and case distinctions; the leaves
    are closed by computation. *)
Ltac keeps_tac :=
  repeat first
    [ apply keeps_bind; [| intros ?]
    | apply keeps_for_each; intros ?
    | match goal with
      | |- keeps _ (match ?x with _ => _ end) => destruct x
      end
    | (intros ?s; reflexivity) ].

(** ** Attaching and detaching *)

Lemma link_ops_trans att det l1 l2 l3 :
  link_ops att det l1 l2 -> link_ops att det l2 l3 -> link_ops att det l1 l3.
Proof.
  intros H12 H23. induction H23.
  - assumption.
  - apply ops_attach; auto.
  - apply ops_detach; auto.
Qed.

Lemma link_ops_mono (att det att' det' : Credential -> Prop) l1 l2 :
  (forall c, att c -> att' c) -> (forall c, det c -> det' c) ->
  link_ops att det l1 l2 -> link_ops att' det' l1 l2.
Proof.
  intros Hatt Hdet H. induction H.
  - apply ops_none.
  - apply ops_attach; auto.
  - apply ops_detach; auto.
Qed.

Lemma NoDup_attach_link c a links : NoDup links -> NoDup (attach_link c a links).
Proof.
  unfold attach_link. intros Hnd. destruct (linked links c a) eqn:E; [assumption |].
  apply linked_false in E. clear -Hnd E.
  induction links as [| l links IH]; simpl.
  - constructor; [intros [] | constructor].
  - inversion Hnd as [| ? ? Hl Hnd']; subst. constructor.
    + rewrite in_app_iff. simpl. intros [H | [H | []]]; [contradiction |].
      apply E. left. congruence.
    + apply IH; [assumption |]. intros H. apply E. now right.
Qed.

Lemma link_ops_NoDup att det l1 l2 :
  link_ops att det l1 l2 -> NoDup l1 -> NoDup l2.
Proof.
  intros H Hnd. induction H.
  - assumption.
  - now apply NoDup_attach_link, IHlink_ops.
  - unfold detach_link. now apply NoDup_filter, IHlink_ops.
Qed.

(** Links of credentials that are never detached stay; links of credentials
    that are never attached are not new. *)
Lemma link_ops_stays (att det : Credential -> Prop) l1 l2 l :
  link_ops att det l1 l2 -> ~ det (fst l) -> In l l1 -> In l l2.
Proof.
  intros H Hdet Hin. induction H.
  - assumption.
  - apply In_attach_link. left. now apply IHlink_ops.
  - apply In_detach_link. split; [now apply IHlink_ops |].
    intros ->. now apply Hdet.
Qed.

Lemma link_ops_not_new (att det : Credential -> Prop) l1 l2 l :
  link_ops att det l1 l2 -> ~ att (fst l) -> In l l2 -> In l l1.
Proof.
  intros H Hatt. induction H; intros Hin.
  - assumption.
  - apply In_attach_link in Hin as [Hin | ->]; [now apply IHlink_ops |].
    exfalso. now apply Hatt.
  - apply In_detach_link in Hin as [Hin _]. now apply IHlink_ops.
Qed.

Lemma link_ops_same l1 l2 :
  link_ops (fun _ => False) (fun _ => False) l1 l2 -> l1 = l2.
Proof. intros H. induction H; [reflexivity | contradiction | contradiction]. Qed.

Lemma writes_bind {A B} att det (c : M A) (k : A -> M B) :
  writes_links att det c -> (forall a, writes_links att det (k a)) ->
  writes_links att det (bind c k).
Proof.
  intros Hc Hk s. unfold bind. specialize (Hc s).
  destruct (c s) as [a s1 | e s1]; simpl in *.
  - eapply link_ops_trans; [exact Hc | apply Hk].
  - assumption.
Qed.

Lemma writes_keeps {A} att det (c : M A) :
  keeps st_links c -> writes_links att det c.
Proof. intros H s. rewrite (H s). apply ops_none. Qed.

Lemma writes_attach (att det : Credential -> Prop) c a :
  att c -> writes_links att det (attach c a).
Proof. intros H s. simpl. apply ops_attach; [assumption | apply ops_none]. Qed.

Lemma writes_detach (att det : Credential -> Prop) c a :
  det c -> writes_links att det (detach c a).
Proof. intros H s. simpl. apply ops_detach; [assumption | apply ops_none]. Qed.

Lemma writes_detach_accounts_data (att det : Credential -> Prop) c a :
  det c -> writes_links att det (detach_accounts_data c a delete_account).
Proof.
  intros H s. rewrite detach_accounts_data_run.
  destruct (left_without_credentials (st_links s) c a); simpl;
    (apply ops_detach; [assumption | apply ops_none]).
Qed.

Lemma writes_for_each {A} att det (xs : list A) (body : A -> M unit) :
  (forall x, In x xs -> writes_links att det (body x)) ->
  writes_links att det (for_each xs body).
Proof.
  induction xs as [| x xs IH]; intros Hbody; simpl.
  - intros s. apply ops_none.
  - apply writes_bind; [apply Hbody; now left | intros _].
    apply IH. intros y Hy. apply Hbody. now right.
Qed.

(** [bind] after a read of the store: the value read is known. *)
Lemma writes_gets_bind {A B} att det (f : State -> A) (k : A -> M B) :
  (forall s0, writes_links att det (k (f s0))) ->
  writes_links att det (bind (gets f) k).
Proof. intros Hk s. unfold bind, gets. apply Hk. Qed.

Lemma writes_mono {A} (att det att' det' : Credential -> Prop) (c : M A) :
  (forall x, att x -> att' x) -> (forall x, det x -> det' x) ->
  writes_links att det c -> writes_links att' det' c.
Proof. intros Hatt Hdet H s. eapply link_ops_mono; eauto. Qed.

(** ** What [proceed_authentication] leaves alone *)

Lemma filter_filter_absorb {A} (p q : A -> bool) (l : list A) :
  (forall x, p x = true -> q x = true) ->
  filter p (filter q l) = filter p l.
Proof.
  intros H. induction l as [| x l IH]; simpl; [reflexivity |].
  destruct (q x) eqn:Eq; simpl.
  - now rewrite IH.
  - destruct (p x) eqn:Ep; [| assumption].
    apply H in Ep. congruence.
Qed.

Lemma keeps_other_tokens_save account uuid expires name :
  keeps (other_tokens account) (save_token account uuid expires name).
Proof.
  intros s. unfold other_tokens, save_token, modify, save_rows. simpl.
  rewrite filter_app. simpl. rewrite String.eqb_refl. simpl. rewrite app_nil_r.
  apply filter_filter_absorb. intros r Hr.
  apply negb_true_iff in Hr. now rewrite Hr.
Qed.

Lemma keeps_other_accounts_update account value :
  keeps (other_accounts account)
    (modify (set_accounts (map (fun row : Account * string =>
       if fst row =? account then (fst row, value) else row)))).
Proof.
  intros s. unfold other_accounts, modify. simpl.
  induction (st_accounts s) as [| [a v] rows IH]; simpl; [reflexivity |].
  destruct (a =? account) eqn:E; simpl; rewrite E; simpl; [assumption |].
  now rewrite IH.
Qed.

Lemma proceed_keeps_links app account credential g requested args env :
  keeps st_links (proceed_authentication app account credential g requested args env).
Proof.
  unfold proceed_authentication, update_account_info, get_account_info. cbv zeta.
  keeps_tac.
Qed.

Lemma proceed_keeps_next_id app account credential g requested args env :
  keeps st_next_id (proceed_authentication app account credential g requested args env).
Proof.
  unfold proceed_authentication, update_account_info, get_account_info. cbv zeta.
  keeps_tac.
Qed.

Lemma proceed_keeps_other_tokens app account credential g requested args env :
  keeps (other_tokens account)
    (proceed_authentication app account credential g requested args env).
Proof.
  unfold proceed_authentication, update_account_info, get_account_info. cbv zeta.
  keeps_tac; apply keeps_other_tokens_save.
Qed.

Lemma proceed_keeps_other_accounts app account credential g requested args env :
  keeps (other_accounts account)
    (proceed_authentication app account credential g requested args env).
Proof.
  unfold proceed_authentication, update_account_info, get_account_info. cbv zeta.
  keeps_tac; apply keeps_other_accounts_update.
Qed.

(** X1. Whatever its arguments and however it ends, [proceed_authentication]
    leaves the credential links and the account-id counter as they were, and
    touches no account row and no token row of another account than the one it
    authenticates. *)
Theorem proceed_authentication_frame app account credential g requested args env s :
  st_links (result_state
              (proceed_authentication app account credential g requested args env s))
  = st_links s
  /\ st_next_id (result_state
                   (proceed_authentication app account credential g requested args env s))
     = st_next_id s
  /\ other_accounts account
       (result_state
          (proceed_authentication app account credential g requested args env s))
     = other_accounts account s
  /\ other_tokens account
       (result_state
          (proceed_authentication app account credential g requested args env s))
     = other_tokens account s.
Proof.
  split; [apply proceed_keeps_links |].
  split; [apply proceed_keeps_next_id |].
  split; [apply proceed_keeps_other_accounts | apply proceed_keeps_other_tokens].
Qed.

(** ** What [__merge_accounts__] and its callers do to the links *)

(** As [keeps_tac], for the link table; attachments and detachments leave
    their side condition. *)
Ltac writes_tac :=
  repeat match goal with
    | |- writes_links _ _ (bind (gets _) _) =>
        apply writes_gets_bind; intros ?; cbv beta
    | |- writes_links _ _ (bind _ _) => apply writes_bind; [| intros ?; cbv beta]
    | |- writes_links _ _ (attach _ _) => apply writes_attach
    | |- writes_links _ _ (detach _ _) => apply writes_detach
    | |- writes_links _ _ (detach_accounts_data _ _ _) =>
        apply writes_detach_accounts_data
    | |- writes_links _ _ (match ?x with _ => _ end) => destruct x
    | |- writes_links _ _ _ => apply writes_keeps; intros ?s; reflexivity
    end.

Lemma merge_writes app attach_to credential resolve g :
  writes_links (merge_attaches attach_to credential) (merge_detaches attach_to credential)
    (__merge_accounts__ app attach_to credential resolve g).
Proof.
  unfold __merge_accounts__, not_mine, local, remote, getitem,
    list_account_credentials, list_accounts.
  cbv zeta. writes_tac;
    try solve [unfold merge_attaches, merge_detaches; auto].
  apply writes_for_each. intros anon Hanon. apply writes_attach.
  right. now apply In_credentials_of in Hanon as [_ Hanon].
Qed.

(** X2. [__merge_accounts__], whatever its arguments and however it ends,
    detaches no credential other than the merged one and the one of the
    [attach_to] token, and attaches none other than these two and the
    local-type credentials ("anonymous", "dev"): every other link is kept and
    no other link appears. *)
Theorem merge_accounts_frame app attach_to credential resolve g s c a :
  c <> credential -> c <> tok_name attach_to ->
  (linked (st_links s) c a = true ->
   linked (st_links (result_state
                       (__merge_accounts__ app attach_to credential resolve g s))) c a
   = true)
  /\ (mem (credential_type c) LOCAL_CREDENTIALS = false ->
      linked (st_links (result_state
                          (__merge_accounts__ app attach_to credential resolve g s))) c a
      = linked (st_links s) c a).
Proof.
  intros Hc Hattach.
  pose proof (merge_writes app attach_to credential resolve g s) as Hops.
  assert (Hstays : linked (st_links s) c a = true ->
            linked (st_links (result_state
                      (__merge_accounts__ app attach_to credential resolve g s))) c a
            = true).
  { rewrite !linked_In. apply (@link_ops_stays _ _ _ _ (c, a) Hops).
    unfold merge_detaches. simpl. tauto. }
  split; [exact Hstays |].
  intros Hlocal.
  destruct (linked (st_links s) c a) eqn:E; [now apply Hstays |].
  apply linked_false. apply linked_false in E. intros Hin. apply E.
  apply (@link_ops_not_new _ _ _ _ (c, a) Hops); [| assumption].
  unfold merge_attaches, merge_detaches. cbn [fst].
  intros [[H | H] | H]; congruence.
Qed.

Lemma merge_accounts_frame_witness :
  linked (st_links (result_state
            (__merge_accounts__ Fixture.app (Fixture.bearer "facebook:fb" "3") "google:gg"
               (Some "local") "1"
               (Fixture.store_with
                  [("google:gg", "2"); ("steam:s", "2"); ("facebook:fb", "3")]))))
         "steam:s" "2" = true.
Proof.
  apply (@merge_accounts_frame Fixture.app (Fixture.bearer "facebook:fb" "3") "google:gg"
           (Some "local") "1"
           (Fixture.store_with
              [("google:gg", "2"); ("steam:s", "2"); ("facebook:fb", "3")])
           "steam:s" "2"); [discriminate | discriminate | reflexivity].
Defined.

Lemma merge_writes_any app attach_to credential resolve g :
  writes_links any_credential any_credential
    (__merge_accounts__ app attach_to credential resolve g).
Proof.
  eapply writes_mono; [| | apply merge_writes]; intros; exact I.
Qed.

Lemma proceed_writes_any app account credential g requested args env :
  writes_links any_credential any_credential
    (proceed_authentication app account credential g requested args env).
Proof. apply writes_keeps, proceed_keeps_links. Qed.

Lemma multiple_accounts_writes_any {A} app g credential accounts :
  writes_links any_credential any_credential
    (__multiple_accounts_attached__ (A := A) app g credential accounts).
Proof.
  apply writes_keeps. intros s. rewrite multiple_accounts_run.
  destruct (mass_profiles_reply app g accounts); reflexivity.
Qed.

Lemma authorize_writes_any app args env :
  writes_links any_credential any_credential (authorize app args env).
Proof.
  unfold authorize, validate, __import_social_connections__, list_accounts.
  cbv zeta. writes_tac;
    try exact I;
    first [apply merge_writes_any | apply proceed_writes_any
          | apply multiple_accounts_writes_any].
Qed.

Lemma attach_account_writes_any app args env :
  writes_links any_credential any_credential (attach_account app args env).
Proof.
  unfold attach_account, validate. cbv zeta. writes_tac;
    first [apply merge_writes_any | apply proceed_writes_any].
Qed.

Lemma resolve_conflict_writes_any app resolve_token method args env :
  writes_links any_credential any_credential
    (resolve_conflict app resolve_token method args env).
Proof.
  unfold resolve_conflict, _merge_required, _multiple_accounts_attached, validate,
    list_accounts.
  cbv zeta. writes_tac;
    try exact I;
    first [apply merge_writes_any | apply proceed_writes_any | idtac].
  apply writes_for_each. intros other _. apply writes_detach_accounts_data. exact I.
Qed.

Lemma lookup_account_writes_any credential :
  writes_links any_credential any_credential (lookup_account credential).
Proof.
  unfold lookup_account, get_account. writes_tac; exact I.
Qed.

(** X3. The primary key of the link table is kept: on a table without
    duplicate rows, [__merge_accounts__], [authorize], [attach_account],
    [resolve_conflict] and [lookup_account] leave a table without duplicate
    rows, whether they return or raise. *)
Theorem links_stay_without_duplicates app s :
  NoDup (st_links s) ->
  (forall attach_to credential resolve g,
     NoDup (st_links (result_state
                        (__merge_accounts__ app attach_to credential resolve g s))))
  /\ (forall args env, NoDup (st_links (result_state (authorize app args env s))))
  /\ (forall args env, NoDup (st_links (result_state (attach_account app args env s))))
  /\ (forall resolve_token method args env,
        NoDup (st_links (result_state
                           (resolve_conflict app resolve_token method args env s))))
  /\ (forall credential, NoDup (st_links (result_state (lookup_account credential s)))).
Proof.
  intros Hnd. repeat split; intros.
  - exact (link_ops_NoDup (merge_writes_any app attach_to credential resolve g s) Hnd).
  - exact (link_ops_NoDup (authorize_writes_any app args env s) Hnd).
  - exact (link_ops_NoDup (attach_account_writes_any app args env s) Hnd).
  - exact (link_ops_NoDup
             (resolve_conflict_writes_any app resolve_token method args env s) Hnd).
  - exact (link_ops_NoDup (lookup_account_writes_any credential s) Hnd).
Qed.

Lemma links_stay_without_duplicates_witness :
  NoDup (st_links (result_state
           (authorize Fixture.app (Fixture.login "google" "gg" None) None
              (Fixture.store_with [("google:gg", "7"); ("anonymous:u1", "7")])))).
Proof.
  assert (Hnd : NoDup [("google:gg", "7"); ("anonymous:u1", "7")]).
  { repeat constructor; simpl; intuition discriminate. }
  destruct (@links_stay_without_duplicates Fixture.app
              (Fixture.store_with [("google:gg", "7"); ("anonymous:u1", "7")]) Hnd)
    as (_ & Hauthorize & _).
  apply Hauthorize.
Defined.

(** ** The branches of [__merge_accounts__] *)

Lemma mem_singleton x t : mem x [t] = true <-> x = t.
Proof. rewrite mem_In. simpl. intuition. Qed.

Lemma hd_error_In {A} (l : list A) x : hd_error l = Some x -> In x l.
Proof. destruct l; simpl; [discriminate | intros [= ->]; now left]. Qed.

(** X4. Attaching a credential where it already is changes nothing: when no
    account has two credentials of one type and the (non-empty) credential is
    linked to the account of [attach_to], [__merge_accounts__] returns that
    account and leaves the whole store as it was, whatever [resolve] is. *)
Theorem merge_already_attached app attach_to credential resolve g s :
  unique_type_per_account (st_links s) ->
  credential <> "" ->
  linked (st_links s) credential (tok_account attach_to) = true ->
  __merge_accounts__ app attach_to credential resolve g s = Ok (tok_account attach_to) s.
Proof.
  intros Huniq Hne Hlinked. apply linked_In in Hlinked.
  unfold __merge_accounts__, bind, list_account_credentials, list_accounts, gets.
  fold (credential_type credential).
  assert (Hhd : hd_error (credentials_of (st_links s) (tok_account attach_to)
                            [credential_type credential]) = Some credential).
  { destruct (credentials_of (st_links s) (tok_account attach_to)
                [credential_type credential]) as [| c cs] eqn:E.
    - assert (H : In credential
                    (credentials_of (st_links s) (tok_account attach_to)
                       [credential_type credential])).
      { apply In_credentials_of. split; [assumption | now apply mem_singleton]. }
      rewrite E in H. destruct H.
    - simpl. f_equal.
      assert (H : In c (credentials_of (st_links s) (tok_account attach_to)
                          [credential_type credential])) by (rewrite E; now left).
      apply In_credentials_of in H as [Hc Hty]. apply mem_singleton in Hty.
      exact (Huniq _ _ _ Hc Hlinked Hty). }
  rewrite Hhd. simpl.
  assert (Htruthy : truthy credential = true).
  { unfold truthy. destruct (String.eqb_spec credential ""); [contradiction | reflexivity]. }
  rewrite Htruthy, String.eqb_refl. reflexivity.
Qed.

Lemma merge_already_attached_witness :
  __merge_accounts__ Fixture.app (Fixture.bearer "facebook:fb" "3") "google:gg"
    (Some "remote") "1"
    (Fixture.store_with [("google:gg", "3"); ("facebook:fb", "3")])
  = Ok "3" (Fixture.store_with [("google:gg", "3"); ("facebook:fb", "3")]).
Proof.
  apply merge_already_attached.
  - intros account c1 c2 H1 H2 Hty. simpl in H1, H2.
    destruct H1 as [H1 | [H1 | []]], H2 as [H2 | [H2 | []]];
      inversion H1; inversion H2; subst; try reflexivity;
      vm_compute in Hty; discriminate.
  - discriminate.
  - reflexivity.
Defined.

Lemma accounts_of_nil links c : accounts_of links c = [] -> forall a, ~ In (c, a) links.
Proof. intros H a Hin. apply In_accounts_of in Hin. rewrite H in Hin. destruct Hin. Qed.

(** X5. A credential that no account holds, merged into an account that has no
    credential of its type, is simply attached: [__merge_accounts__] returns
    the account of [attach_to], the link table gets the one new row, tokens and
    account rows are untouched, and "one credential of each type per account"
    still holds if it held. *)
Theorem merge_new_credential app attach_to credential resolve g s :
  credentials_of (st_links s) (tok_account attach_to) [credential_type credential] = [] ->
  accounts_of (st_links s) credential = [] ->
  __merge_accounts__ app attach_to credential resolve g s
  = Ok (tok_account attach_to)
       (set_links (fun links => links ++ [(credential, tok_account attach_to)]) s)
  /\ (unique_type_per_account (st_links s) ->
      unique_type_per_account (st_links s ++ [(credential, tok_account attach_to)])).
Proof.
  intros Hsame Hnone. split.
  - unfold __merge_accounts__, bind, list_account_credentials, list_accounts, gets.
    fold (credential_type credential). rewrite Hsame, Hnone. simpl.
    unfold attach, modify, attach_link, ret.
    assert (Hno : linked (st_links s) credential (tok_account attach_to) = false).
    { apply linked_false. now apply accounts_of_nil. }
    unfold set_links. rewrite Hno. reflexivity.
  - intros Huniq account c1 c2 H1 H2 Hty.
    assert (Hfresh : forall c, In (c, tok_account attach_to) (st_links s) ->
                       credential_type c <> credential_type credential).
    { intros c Hc Heq.
      assert (H : In c (credentials_of (st_links s) (tok_account attach_to)
                          [credential_type credential])).
      { apply In_credentials_of. split; [assumption | now apply mem_singleton]. }
      rewrite Hsame in H. destruct H. }
    apply in_app_iff in H1. apply in_app_iff in H2. simpl in H1, H2.
    destruct H1 as [H1 | [H1 | []]], H2 as [H2 | [H2 | []]].
    + exact (Huniq _ _ _ H1 H2 Hty).
    + inversion H2; subst. exfalso. exact (Hfresh _ H1 Hty).
    + inversion H1; subst. exfalso. symmetry in Hty. exact (Hfresh _ H2 Hty).
    + congruence.
Qed.

Lemma merge_new_credential_witness :
  __merge_accounts__ Fixture.app (Fixture.bearer "facebook:fb" "3") "google:gg" None "1"
    (Fixture.store_with [("facebook:fb", "3")])
  = Ok "3" (Fixture.store_with [("facebook:fb", "3"); ("google:gg", "3")]).
Proof.
  destruct (@merge_new_credential Fixture.app (Fixture.bearer "facebook:fb" "3")
              "google:gg" None "1" (Fixture.store_with [("facebook:fb", "3")])
              eq_refl eq_refl) as [Hrun _].
  exact Hrun.
Defined.

Lemma live_invalidate_rows_other a a' rows uuid :
  a' <> a -> live (invalidate_rows a rows) a' uuid = live rows a' uuid.
Proof.
  intros Hne. unfold live, invalidate_rows.
  induction rows as [| r rows IH]; simpl; [reflexivity |].
  destruct (String.eqb_spec (tr_account r) a) as [Ha | Ha]; simpl.
  - rewrite IH. destruct (String.eqb_spec (tr_account r) a'); [congruence | reflexivity].
  - now rewrite IH.
Qed.

(** X6. [__merge_accounts__] with [resolve = "remote"] (the target account has
    no credential of the type, the merged credential has one account
    [account_mine]): the call returns [account_mine]; the credential of the
    [attach_to] token is moved from the token's account to [account_mine]; the
    merged credential stays on [account_mine]; every token of the token's
    account is invalidated and the tokens of all other accounts stay as they
    were. *)
Theorem merge_remote app attach_to credential g s account_mine :
  credentials_of (st_links s) (tok_account attach_to) [credential_type credential] = [] ->
  accounts_of (st_links s) credential = [account_mine] ->
  exists s',
    __merge_accounts__ app attach_to credential (Some "remote") g s = Ok account_mine s'
    /\ linked (st_links s') (tok_name attach_to) account_mine = true
    /\ linked (st_links s') (tok_name attach_to) (tok_account attach_to) = false
    /\ linked (st_links s') credential account_mine = true
    /\ (forall uuid, live (st_tokens s') (tok_account attach_to) uuid = false)
    /\ (forall a uuid, a <> tok_account attach_to ->
                       live (st_tokens s') a uuid = live (st_tokens s) a uuid).
Proof.
  intros Hsame Hone.
  pose proof (accounts_differ _ _ _ Hsame Hone) as Hneq.
  pose proof (mine_is_linked _ _ Hone) as Hmine.
  eexists. rewrite (merge_with_option app _ _ g _ Hsame Hone _). simpl.
  rewrite remote_run. split; [reflexivity |]. simpl.
  split; [apply linked_In, In_attach_link; now right |].
  split.
  { apply linked_false. rewrite In_attach_link, In_detach_link.
    intros [[_ H] | H]; [now apply H | apply Hneq; congruence]. }
  split.
  { apply linked_In, In_attach_link. left. apply In_detach_link.
    split; [assumption |]. intros H. apply Hneq. congruence. }
  split.
  - intros uuid. apply live_invalidate_rows.
  - intros a uuid Ha. now apply live_invalidate_rows_other.
Qed.

Lemma merge_remote_witness :
  exists s',
    __merge_accounts__ Fixture.app (Fixture.bearer "facebook:fb" "5") "anonymous:u1"
      (Some "remote") "1"
      (Fixture.store_with [("anonymous:u1", "2"); ("facebook:fb", "5")]) = Ok "2" s'
    /\ linked (st_links s') "facebook:fb" "2" = true
    /\ linked (st_links s') "facebook:fb" "5" = false.
Proof.
  destruct (@merge_remote Fixture.app (Fixture.bearer "facebook:fb" "5") "anonymous:u1"
              "1" (Fixture.store_with [("anonymous:u1", "2"); ("facebook:fb", "5")]) "2"
              eq_refl eq_refl) as (s' & Hrun & Hin & Hout & _).
  exists s'. repeat split; assumption.
Defined.

(** X7. In the same situation, a [resolve] text other than "not_mine", "local"
    and "remote" fails [unknown_merge_option] (400) and nothing is written. *)
Theorem merge_unknown_option app attach_to credential g s account_mine option :
  credentials_of (st_links s) (tok_account attach_to) [credential_type credential] = [] ->
  accounts_of (st_links s) credential = [account_mine] ->
  option <> "not_mine" -> option <> "local" -> option <> "remote" ->
  exists obj,
    __merge_accounts__ app attach_to credential (Some option) g s
    = Raise (AuthenticationError 400 "unknown_merge_option" obj) s.
Proof.
  intros Hsame Hone H1 H2 H3.
  rewrite (merge_with_option app _ _ g _ Hsame Hone _).
  apply String.eqb_neq in H1, H2, H3. rewrite H1, H2, H3.
  eexists. reflexivity.
Qed.

Lemma merge_unknown_option_witness :
  exists obj,
    __merge_accounts__ Fixture.app (Fixture.bearer "facebook:fb" "5") "anonymous:u1"
      (Some "mine") "1"
      (Fixture.store_with [("anonymous:u1", "2"); ("facebook:fb", "5")])
    = Raise (AuthenticationError 400 "unknown_merge_option" obj)
            (Fixture.store_with [("anonymous:u1", "2"); ("facebook:fb", "5")]).
Proof.
  apply (@merge_unknown_option Fixture.app (Fixture.bearer "facebook:fb" "5")
           "anonymous:u1" "1"
           (Fixture.store_with [("anonymous:u1", "2"); ("facebook:fb", "5")]) "2" "mine"
           eq_refl eq_refl); discriminate.
Defined.

Lemma kept_after_move ca aa target c links :
  In (c, target) links ->
  In (c, target) (attach_link ca target (detach_link ca aa links)).
Proof.
  intros Hin. apply In_attach_link.
  destruct (string_dec c ca) as [-> | Hne]; [now right | left].
  apply In_detach_link. split; [assumption | congruence].
Qed.

(** X8. [__merge_accounts__] when the token's account already holds another
    credential of the merged credential's type: the user is switched to the
    account of the merged credential.  With no such account yet, a new account
    (the next row id) is created and gets the merged credential; with exactly
    one, that account is used; in both cases the credential of the [attach_to]
    token is attached to that account, the merged credential is on it, the
    tokens of the token's account are invalidated and the account is returned.
    With several accounts the call fails [multiple_accounts_attached] (409)
    and nothing is written. *)
Theorem merge_switches_account app attach_to credential resolve g s same :
  hd_error (credentials_of (st_links s) (tok_account attach_to)
              [credential_type credential]) = Some same ->
  same <> "" -> same <> credential ->
  (accounts_of (st_links s) credential = [] ->
   exists s',
     __merge_accounts__ app attach_to credential resolve g s
     = Ok (str (st_next_id s)) s'
     /\ st_accounts s' = st_accounts s ++ [(str (st_next_id s), "{}")]
     /\ linked (st_links s') credential (str (st_next_id s)) = true
     /\ linked (st_links s') (tok_name attach_to) (str (st_next_id s)) = true
     /\ forall uuid, live (st_tokens s') (tok_account attach_to) uuid = false)
  /\ (forall account_mine,
        accounts_of (st_links s) credential = [account_mine] ->
        exists s',
          __merge_accounts__ app attach_to credential resolve g s = Ok account_mine s'
          /\ st_accounts s' = st_accounts s
          /\ linked (st_links s') credential account_mine = true
          /\ linked (st_links s') (tok_name attach_to) account_mine = true
          /\ (account_mine <> tok_account attach_to ->
              linked (st_links s') (tok_name attach_to) (tok_account attach_to) = false)
          /\ forall uuid, live (st_tokens s') (tok_account attach_to) uuid = false)
  /\ (forall a1 a2 others,
        accounts_of (st_links s) credential = a1 :: a2 :: others ->
        exists obj,
          __merge_accounts__ app attach_to credential resolve g s
          = Raise (AuthenticationError 409 "multiple_accounts_attached" obj) s).
Proof.
  intros Hhd Hne Hdiff.
  assert (Htruthy : truthy same = true).
  { unfold truthy. destruct (String.eqb_spec same ""); [contradiction | reflexivity]. }
  apply String.eqb_neq in Hdiff.
  assert (Hrun : __merge_accounts__ app attach_to credential resolve g s =
    (account_mine <-
       match accounts_of (st_links s) credential with
       | [] =>
           account_mine <- create_account ;;
           attach credential account_mine ;;
           ret account_mine
       | [account_mine] => ret account_mine
       | _ =>
           raise (AuthenticationError 409 "multiple_accounts_attached"
                    (with_info (multiple_accounts_info credential)))
       end ;;
     detach (tok_name attach_to) (tok_account attach_to) ;;
     attach (tok_name attach_to) account_mine ;;
     invalidate_account (tok_account attach_to) ;;
     ret account_mine) s).
  { unfold __merge_accounts__, list_account_credentials, list_accounts.
    unfold bind at 1. unfold gets at 1. fold (credential_type credential).
    rewrite Hhd. unfold bind at 1. unfold gets at 1.
    cbn [truthy_opt]. rewrite Htruthy, Hdiff. reflexivity. }
  rewrite Hrun. clear Hrun. split; [| split].
  - intros Hnone. rewrite Hnone. eexists. split; [reflexivity |]. simpl.
    split; [reflexivity |].
    split; [apply linked_In, kept_after_move, In_attach_link; now right |].
    split; [apply linked_In, In_attach_link; now right |].
    intros uuid. apply live_invalidate_rows.
  - intros account_mine Hone. rewrite Hone. eexists. split; [reflexivity |]. simpl.
    split; [reflexivity |].
    split; [apply linked_In, kept_after_move, (mine_is_linked _ _ Hone) |].
    split; [apply linked_In, In_attach_link; now right |].
    split.
    + intros Hneq. apply linked_false. rewrite In_attach_link, In_detach_link.
      intros [[_ H] | H]; [now apply H | apply Hneq; congruence].
    + intros uuid. apply live_invalidate_rows.
  - intros a1 a2 others Hmany. rewrite Hmany. eexists. reflexivity.
Qed.

Lemma merge_switches_account_witness :
  exists s',
    __merge_accounts__ Fixture.app (Fixture.bearer "anonymous:x" "2") "google:b" None "1"
      (mkState [("anonymous:x", "2"); ("google:a", "2")] [("1", "{}"); ("2", "{}")]
               3 [] 0 []) = Ok "3" s'
    /\ linked (st_links s') "google:b" "3" = true.
Proof.
  destruct (@merge_switches_account Fixture.app (Fixture.bearer "anonymous:x" "2")
              "google:b" None "1"
              (mkState [("anonymous:x", "2"); ("google:a", "2")]
                       [("1", "{}"); ("2", "{}")] 3 [] 0 []) "google:a"
              eq_refl) as [Hnew _]; [discriminate | discriminate |].
  destruct (Hnew eq_refl) as (s' & Hrun & _ & Hmine & _).
  exists s'. split; [exact Hrun | exact Hmine].
Defined.

(** ** [authorize] on a new and on a known credential *)

(** The reply of [proceed_authentication] names the account and the credential
    it was called for. *)
Lemma proceed_reply app account credential g requested args env s reply s' :
  proceed_authentication app account credential g requested args env s = Ok reply s' ->
  rep_account reply = account /\ rep_credential reply = credential
  /\ tok_account (rep_token reply) = account
  /\ tok_name (rep_token reply) = credential
  /\ tok_gamespace (rep_token reply) = g.
Proof.
  destruct (bad_auth_as app args) eqn:Has.
  { unfold proceed_authentication. unfold bad_auth_as in Has. rewrite Has. discriminate. }
  destruct (lookup (credential_type credential) (credential_types app)) as [auth |] eqn:Hty.
  2:{ unfold proceed_authentication. unfold bad_auth_as in Has.
      unfold credential_type in Hty. rewrite Has, Hty. discriminate. }
  rewrite (@proceed_after_social app auth account credential g requested args env s
             Has Hty).
  intros H. apply bind_Ok in H as (profile_data & s1 & _ & H).
  rewrite after_social_run in H.
  destruct (get_gamespace_access_scopes app g); [| discriminate]. simpl in H.
  destruct (find _ requested); [discriminate |].
  destruct (non_unique args && negb _); [discriminate |].
  apply bind_Ok in H as (u & s2 & _ & H).
  apply mint_Ok in H as (-> & _). simpl. auto.
Qed.

Lemma accounts_of_app links links' c :
  accounts_of (links ++ links') c = accounts_of links c ++ accounts_of links' c.
Proof. unfold accounts_of. now rewrite filter_app, map_app. Qed.

Lemma authorize_one_account_run
  app args env s cred_type scopes authorizer g result account :
  arg_credential args = Some cred_type ->
  arg_scopes args = Some scopes ->
  arg_attach_to args = None ->
  lookup cred_type (credential_types app) = Some authorizer ->
  gamespace_of app args = Some g ->
  authenticator_authorize authorizer g args env = Authorized result ->
  import_passes app g result ->
  accounts_of (st_links s) (credential_of result) = [account] ->
  exists events,
    authorize app args env s
    = proceed_authentication app account (credential_of result) g
        (parse_scopes app scopes) args env (logged events s).
Proof.
  intros Hcred Hscopes Hattach Hty Hg Hauth Himport Hone.
  destruct (@authorize_selection app args env s cred_type scopes authorizer g result
              Hcred Hscopes Hattach Hty Hg Hauth Himport) as (events & Hselect).
  exists events.
  rewrite Hselect. unfold select_account, list_accounts, gets, bind.
  change (st_links (logged events s)) with (st_links s).
  rewrite Hone. reflexivity.
Qed.

(** X9. [authorize] without [attach_to], once the authenticator has accepted,
    on a credential linked to exactly one account: the call authenticates that
    account.  However it ends, no link is written and no account is created;
    when it returns, the reply names that account and the credential. *)
Theorem authorize_known_credential
  app args env s cred_type scopes authorizer g result account :
  arg_credential args = Some cred_type ->
  arg_scopes args = Some scopes ->
  arg_attach_to args = None ->
  lookup cred_type (credential_types app) = Some authorizer ->
  gamespace_of app args = Some g ->
  authenticator_authorize authorizer g args env = Authorized result ->
  import_passes app g result ->
  accounts_of (st_links s) (credential_of result) = [account] ->
  st_links (result_state (authorize app args env s)) = st_links s
  /\ st_next_id (result_state (authorize app args env s)) = st_next_id s
  /\ forall reply s',
       authorize app args env s = Ok reply s' ->
       rep_account reply = account /\ rep_credential reply = credential_of result.
Proof.
  intros Hcred Hscopes Hattach Hty Hg Hauth Himport Hone.
  destruct (@authorize_one_account_run app args env s cred_type scopes authorizer g
              result account Hcred Hscopes Hattach Hty Hg Hauth Himport Hone)
    as (events & Hrun).
  rewrite Hrun.
  split; [now rewrite proceed_keeps_links |].
  split; [now rewrite proceed_keeps_next_id |].
  intros reply s' H. apply proceed_reply in H as (Hacc & Hcr & _). auto.
Qed.

Lemma authorize_known_credential_witness :
  st_links (result_state
              (authorize Fixture.app (Fixture.login "google" "gg" None) None
                 (Fixture.store_with [("google:gg", "7")])))
  = [("google:gg", "7")].
Proof.
  destruct (@authorize_known_credential Fixture.app (Fixture.login "google" "gg" None)
              None (Fixture.store_with [("google:gg", "7")]) "google" "profile"
              (Fixture.trusting "google" true) "1" (mkAuthResult "google" "gg" None) "7"
              eq_refl eq_refl eq_refl eq_refl eq_refl eq_refl)
    as (Hlinks & _).
  - intros response code body Hresponse. discriminate.
  - reflexivity.
  - exact Hlinks.
Defined.

Lemma keeps_has_account_update a account value :
  keeps (has_account a)
    (modify (set_accounts (map (fun row : Account * string =>
       if fst row =? account then (fst row, value) else row)))).
Proof.
  intros s. unfold has_account, modify. simpl.
  induction (st_accounts s) as [| [k v] rows IH]; simpl; [reflexivity |].
  destruct (k =? account) eqn:E; simpl; destruct (k =? a); auto.
Qed.

Lemma proceed_keeps_has_account a app account credential g requested args env :
  keeps (has_account a)
    (proceed_authentication app account credential g requested args env).
Proof.
  unfold proceed_authentication, update_account_info, get_account_info. cbv zeta.
  keeps_tac; apply keeps_has_account_update.
Qed.

Lemma lookup_app_new {A} k (v : A) rows :
  lookup k (rows ++ [(k, v)]) <> None.
Proof.
  induction rows as [| [k' v'] rows IH]; simpl.
  - rewrite String.eqb_refl. discriminate.
  - destruct (k' =? k); [discriminate | assumption].
Qed.

(** X10. [authorize] without [attach_to], once the authenticator has accepted,
    on a credential no account holds: when the call returns, the reply names a
    new account, the next row id; the account has its row and the link table
    has the one new row for the credential.  A second [authorize] with the
    same arguments, when it returns, names the same account, writes no link
    and creates no account. *)
Theorem authorize_first_login
  app args env s cred_type scopes authorizer g result reply s1 :
  arg_credential args = Some cred_type ->
  arg_scopes args = Some scopes ->
  arg_attach_to args = None ->
  lookup cred_type (credential_types app) = Some authorizer ->
  gamespace_of app args = Some g ->
  authenticator_authorize authorizer g args env = Authorized result ->
  import_passes app g result ->
  accounts_of (st_links s) (credential_of result) = [] ->
  authorize app args env s = Ok reply s1 ->
  rep_account reply = str (st_next_id s)
  /\ st_links s1 = st_links s ++ [(credential_of result, str (st_next_id s))]
  /\ st_next_id s1 = N.succ (st_next_id s)
  /\ has_account (str (st_next_id s)) s1 = true
  /\ forall reply' s2,
       authorize app args env s1 = Ok reply' s2 ->
       rep_account reply' = rep_account reply
       /\ st_links s2 = st_links s1 /\ st_next_id s2 = st_next_id s1.
Proof.
  intros Hcred Hscopes Hattach Hty Hg Hauth Himport Hnone Hok.
  destruct (@authorize_selection app args env s cred_type scopes authorizer g result
              Hcred Hscopes Hattach Hty Hg Hauth Himport) as (events & Hselect).
  set (new := str (st_next_id s)).
  set (created :=
         mkState (st_links s ++ [(credential_of result, new)])
                 (st_accounts s ++ [(new, "{}")]) (N.succ (st_next_id s))
                 (st_tokens s) (st_uuid s) (st_trace s ++ events)).
  assert (Hrun : authorize app args env s
                 = proceed_authentication app new (credential_of result) g
                     (parse_scopes app scopes) args env created).
  { rewrite Hselect. unfold select_account, list_accounts, gets, bind.
    change (st_links (logged events s)) with (st_links s).
    rewrite Hnone. unfold create_account, attach, modify, ret, set_links, attach_link.
    cbn [st_links st_accounts st_next_id st_tokens st_uuid st_trace logged].
    assert (Hno : linked (st_links s) (credential_of result) new = false).
    { apply linked_false. now apply accounts_of_nil. }
    fold new. rewrite Hno. reflexivity. }
  rewrite Hrun in Hok.
  pose proof (proceed_keeps_links app new (credential_of result) g
                (parse_scopes app scopes) args env created) as Hlinks.
  pose proof (proceed_keeps_next_id app new (credential_of result) g
                (parse_scopes app scopes) args env created) as Hnext.
  pose proof (proceed_keeps_has_account new app new (credential_of result) g
                (parse_scopes app scopes) args env created) as Hrow.
  rewrite Hok in Hlinks, Hnext, Hrow. simpl in Hlinks, Hnext, Hrow.
  apply proceed_reply in Hok as (Hacc & _).
  split; [exact Hacc |]. split; [exact Hlinks |]. split; [exact Hnext |].
  split.
  { rewrite Hrow. unfold has_account, created. cbn [st_accounts].
    destruct (lookup new (st_accounts s ++ [(new, "{}")])) eqn:E; [reflexivity |].
    exfalso. exact (lookup_app_new _ _ _ E). }
  intros reply' s2 Hagain.
  assert (Hone : accounts_of (st_links s1) (credential_of result) = [new]).
  { rewrite Hlinks, accounts_of_app, Hnone. unfold accounts_of. simpl.
    now rewrite String.eqb_refl. }
  destruct (@authorize_one_account_run app args env s1 cred_type scopes authorizer g
              result new Hcred Hscopes Hattach Hty Hg Hauth Himport Hone)
    as (events' & Hrun').
  rewrite Hrun' in Hagain.
  pose proof (proceed_keeps_links app new (credential_of result) g
                (parse_scopes app scopes) args env (logged events' s1)) as Hlinks'.
  pose proof (proceed_keeps_next_id app new (credential_of result) g
                (parse_scopes app scopes) args env (logged events' s1)) as Hnext'.
  rewrite Hagain in Hlinks', Hnext'. simpl in Hlinks', Hnext'.
  apply proceed_reply in Hagain as (Hacc' & _).
  split; [congruence |]. split; assumption.
Qed.

Lemma authorize_first_login_witness :
  exists reply s1,
    authorize Fixture.app (Fixture.login "anonymous" "u1" None) None Fixture.empty_store
    = Ok reply s1
    /\ rep_account reply = "2"
    /\ st_links s1 = [("anonymous:u1", "2")].
Proof.
  destruct (authorize Fixture.app (Fixture.login "anonymous" "u1" None) None
              Fixture.empty_store) as [reply s1 | e s1] eqn:Hrun;
    [| vm_compute in Hrun; discriminate].
  destruct (@authorize_first_login Fixture.app (Fixture.login "anonymous" "u1" None) None
              Fixture.empty_store "anonymous" "profile"
              (Fixture.trusting "anonymous" false) "1"
              (mkAuthResult "anonymous" "u1" None) reply s1
              eq_refl eq_refl eq_refl eq_refl eq_refl eq_refl)
    as (Hacc & Hlinks & _).
  - intros response code body Hresponse. discriminate.
  - reflexivity.
  - exact Hrun.
  - exists reply, s1. split; [reflexivity |]. split; [exact Hacc | exact Hlinks].
Defined.

(** ** Authenticator errors in [authorize]; the Steam and VK authenticators *)

Lemma authorize_authenticator_error
  app args env s cred_type scopes authorizer g message code :
  arg_credential args = Some cred_type ->
  arg_scopes args = Some scopes ->
  attach_to_valid args s ->
  lookup cred_type (credential_types app) = Some authorizer ->
  gamespace_of app args = Some g ->
  authenticator_authorize authorizer g args env = AuthenticatorError message code ->
  authorize app args env s
  = Raise (AuthenticationError 403 message
             (mkErrorObj (Some "Failed to authorize with such username/password")
                         None None (Some code) None)) s.
Proof.
  intros Hcred Hscopes Hvalid Hty Hg Hauth.
  unfold authorize, gamespace_of, attach_to_valid in *. rewrite Hcred, Hscopes.
  assert (Hname : exists name,
             (if truthy_opt (arg_gamespace_id args) then Some "" else arg_gamespace args)
             = Some name
             /\ (if truthy_opt (arg_gamespace_id args)
                 then ret (get_default (arg_gamespace_id args) "")
                 else match find_gamespace app name with
                      | Some g0 => ret g0
                      | None =>
                          raise (AuthenticationError 404 "no_such_gamespace"
                                   (with_info ("Gamespace '" ++ name
                                               ++ "' was not found.")%string))
                      end) = ret g).
  { destruct (truthy_opt (arg_gamespace_id args)).
    - exists "". split; [reflexivity |]. rewrite Hg. reflexivity.
    - destruct (arg_gamespace args) as [name |]; [| discriminate].
      exists name. split; [reflexivity |]. rewrite Hg. reflexivity. }
  destruct Hname as (name & -> & Hfind). rewrite Hty, Hfind.
  unfold bind at 1.
  assert (Hcheck : match arg_attach_to args with
                   | Some token =>
                       valid <- validate token ;;
                       (if valid then ret tt else raise attach_to_token_invalid)
                   | None => ret tt
                   end s = Ok tt s).
  { destruct (arg_attach_to args) as [token |]; [| reflexivity].
    unfold bind. rewrite Hvalid. reflexivity. }
  rewrite Hcheck. unfold bind, ret. rewrite Hauth. reflexivity.
Qed.

(** X11. With [SteamAuthenticator] registered for the credential type,
    [AccountModel.authorize] on a request that lacks [ticket] or [app_id]
    fails with code 403 and result id [missing_argument] (not the 400 of its
    own argument check), and its [error] is [None], the authenticator's error
    having no code; when the Steam API rejects the ticket with
    [APIError(code, body)] it fails with 403, result id "API error:" followed
    by the body, and that code as [error].  In both cases nothing is written
    and no request is sent. *)
Theorem authorize_steam_errors
  app args env s cred_type scopes g NAME api_auth :
  arg_credential args = Some cred_type ->
  arg_scopes args = Some scopes ->
  attach_to_valid args s ->
  lookup cred_type (credential_types app)
  = Some (SteamAuthenticator NAME api_auth) ->
  gamespace_of app args = Some g ->
  (lookup "ticket" (arg_other args) = None \/ lookup "app_id" (arg_other args) = None ->
   exists obj,
     authorize app args env s = Raise (AuthenticationError 403 "missing_argument" obj) s
     /\ err_error obj = Some None)
  /\ (forall ticket app_id code body,
        lookup "ticket" (arg_other args) = Some ticket ->
        lookup "app_id" (arg_other args) = Some app_id ->
        api_auth g ticket app_id = APIError code body ->
        exists obj,
          authorize app args env s
          = Raise (AuthenticationError 403 ("API error:" ++ body)%string obj) s
          /\ err_error obj = Some (Some code)).
Proof.
  intros Hcred Hscopes Hvalid Hty Hg. split.
  - intros Hmissing. eexists. split.
    + eapply authorize_authenticator_error; eauto.
      simpl. unfold steam_authorize.
      destruct Hmissing as [-> | ->]; [reflexivity |].
      destruct (lookup "ticket" (arg_other args)); reflexivity.
    + reflexivity.
  - intros ticket app_id code body Hticket Happ Hapi. eexists. split.
    + eapply authorize_authenticator_error; eauto.
      simpl. unfold steam_authorize. rewrite Hticket, Happ, Hapi. reflexivity.
    + reflexivity.
Qed.

(** X12. The same for [VKAuthenticator], whose arguments are [code] and
    [redirect_uri]: a request that lacks one of them fails with 403,
    [missing_argument] and [error] [None]; an [APIError(code, body)] of the VK
    API fails with 403, "API error:" followed by the body, and that code. *)
Theorem authorize_vk_errors
  app args env s cred_type scopes g NAME api_auth :
  arg_credential args = Some cred_type ->
  arg_scopes args = Some scopes ->
  attach_to_valid args s ->
  lookup cred_type (credential_types app)
  = Some (VKAuthenticator NAME api_auth) ->
  gamespace_of app args = Some g ->
  (lookup "code" (arg_other args) = None \/ lookup "redirect_uri" (arg_other args) = None ->
   exists obj,
     authorize app args env s = Raise (AuthenticationError 403 "missing_argument" obj) s
     /\ err_error obj = Some None)
  /\ (forall code redirect_uri code' body,
        lookup "code" (arg_other args) = Some code ->
        lookup "redirect_uri" (arg_other args) = Some redirect_uri ->
        api_auth g code redirect_uri = APIError code' body ->
        exists obj,
          authorize app args env s
          = Raise (AuthenticationError 403 ("API error:" ++ body)%string obj) s
          /\ err_error obj = Some (Some code')).
Proof.
  intros Hcred Hscopes Hvalid Hty Hg. split.
  - intros Hmissing. eexists. split.
    + eapply authorize_authenticator_error; eauto.
      simpl. unfold vk_authorize.
      destruct Hmissing as [-> | ->]; [reflexivity |].
      destruct (lookup "code" (arg_other args)); reflexivity.
    + reflexivity.
  - intros code redirect_uri code' body Hcode Huri Hapi. eexists. split.
    + eapply authorize_authenticator_error; eauto.
      simpl. unfold vk_authorize. rewrite Hcode, Huri, Hapi. reflexivity.
    + reflexivity.
Qed.

Lemma authorize_steam_errors_witness :
  exists obj,
    authorize SocialFixture.app
      (SocialFixture.request "steam" [("ticket", "t"); ("app_id", "480")]) None
      Fixture.empty_store
    = Raise (AuthenticationError 403 "API error:denied" obj) Fixture.empty_store
    /\ err_error obj = Some (Some 401%Z).
Proof.
  destruct (@authorize_steam_errors SocialFixture.app
              (SocialFixture.request "steam" [("ticket", "t"); ("app_id", "480")]) None
              Fixture.empty_store "steam" "profile" "1" "steam"
              SocialFixture.rejecting eq_refl eq_refl I eq_refl eq_refl) as [_ Hapi].
  exact (Hapi "t" "480" 401%Z "denied" eq_refl eq_refl eq_refl).
Defined.

Lemma authorize_vk_errors_witness :
  exists obj,
    authorize SocialFixture.app (SocialFixture.request "vk" [("code", "c")]) None
      Fixture.empty_store
    = Raise (AuthenticationError 403 "missing_argument" obj) Fixture.empty_store
    /\ err_error obj = Some None.
Proof.
  destruct (@authorize_vk_errors SocialFixture.app
              (SocialFixture.request "vk" [("code", "c")]) None
              Fixture.empty_store "vk" "profile" "1" "vk"
              SocialFixture.rejecting eq_refl eq_refl I eq_refl eq_refl) as [Hmissing _].
  apply Hmissing. right. reflexivity.
Defined.

(** ** From the conflict to its resolution *)

Lemma merge_conflict_run app attach_to credential g s account_mine :
  credentials_of (st_links s) (tok_account attach_to) [credential_type credential] = [] ->
  accounts_of (st_links s) credential = [account_mine] ->
  exists events,
    __merge_accounts__ app attach_to credential None g s
    = Raise (conflict_error app attach_to credential g account_mine (st_uuid s))
            (logged events (minted_resolve_token s)).
Proof.
  intros Hsame Hone.
  unfold __merge_accounts__, bind, list_account_credentials, list_accounts, gets.
  fold (credential_type credential). rewrite Hsame, Hone. simpl.
  unfold conflict_error, getitem, logged, minted_resolve_token.
  destruct (mass_profiles_reply app g [tok_account attach_to; account_mine])
    as [profiles | code body | code message]; simpl.
  - destruct (lookup (tok_account attach_to) profiles); simpl;
      [destruct (lookup account_mine profiles); simpl |];
      eexists; reflexivity.
  - exists [ReqMassProfiles g [tok_account attach_to; account_mine];
            LogException "failed to get profiles for conflict: %s, %s"].
    simpl. rewrite <- app_assoc. reflexivity.
  - eexists; reflexivity.
Qed.

(** X13. The conflict protocol closes: when [__merge_accounts__] (no [resolve])
    raises [merge_required], the resolve token in the error names the merged
    credential and the gamespace and has the one scope [resolve_conflict], and
    nothing but the uuid counter and the trace has changed.  Handing that
    token to [resolve_conflict] with the method "merge_required", the same
    (still valid) [attach_to] token and a [resolve_with] option runs
    [__merge_accounts__] for the same credential, token and gamespace with that
    option, then [proceed_authentication] for the account it returns. *)
Theorem conflict_resolution_round_trip
  app token credential g s account_mine obj s1 :
  credentials_of (st_links s) (tok_account (tv_token token))
    [credential_type credential] = [] ->
  accounts_of (st_links s) credential = [account_mine] ->
  validate token s = Ok true s ->
  __merge_accounts__ app (tv_token token) credential None g s
  = Raise (AuthenticationError 409 "merge_required" obj) s1 ->
  exists resolve_token,
    err_resolve_token obj = Some resolve_token
    /\ rt_name resolve_token = credential
    /\ rt_gamespace resolve_token = g
    /\ rt_scopes resolve_token = ["resolve_conflict"]
    /\ same_store (minted_resolve_token s) s1
    /\ forall args env option scopes,
         arg_resolve_with args = Some option ->
         arg_scopes args = Some scopes ->
         arg_attach_to args = Some token ->
         resolve_conflict app resolve_token "merge_required" args env s1
         = (account <- __merge_accounts__ app (tv_token token) credential (Some option) g ;;
            proceed_authentication app account credential g (parse_scopes app scopes)
              args env) s1.
Proof.
  intros Hsame Hone Hvalid Hraise.
  destruct (@merge_conflict_run app (tv_token token) credential g s account_mine
              Hsame Hone) as (events & Hrun).
  rewrite Hrun in Hraise. injection Hraise as Herr <-.
  exists (mkResolveToken credential ["resolve_conflict"] g (st_uuid s)).
  assert (Hobj : err_resolve_token obj
                 = Some (mkResolveToken credential ["resolve_conflict"] g (st_uuid s))).
  { unfold conflict_error in Herr.
    destruct (mass_profiles_reply app g _) as [profiles | code body | code message];
      [| injection Herr as <-; reflexivity | discriminate].
    destruct (lookup (tok_account (tv_token token)) profiles); [| discriminate].
    destruct (lookup account_mine profiles); [| discriminate].
    injection Herr as <-. reflexivity. }
  split; [exact Hobj |]. split; [reflexivity |]. split; [reflexivity |].
  split; [reflexivity |].
  split; [unfold same_store, logged; simpl; auto |].
  intros args env option scopes Hwith Hscopes Hattach.
  unfold resolve_conflict. rewrite Hwith, Hscopes, Hattach. simpl.
  unfold _merge_required.
  assert (Hvalid' : validate token (logged events (minted_resolve_token s))
                    = Ok true (logged events (minted_resolve_token s))).
  { unfold validate, gets in *. simpl in *. injection Hvalid as Hv. now rewrite Hv. }
  unfold bind at 1. unfold bind at 1. unfold bind at 1. rewrite Hvalid'.
  reflexivity.
Qed.

Lemma conflict_resolution_round_trip_witness :
  let app := Fixture.app_with None (Reply None) (InternalError 500 "down") in
  let token := mkTokenArg (Fixture.bearer "facebook:fb" "3") true in
  exists resolve_token,
    rt_name resolve_token = "anonymous:u1"
    /\ rt_gamespace resolve_token = "1"
    /\ rt_scopes resolve_token = ["resolve_conflict"].
Proof.
  intros app token.
  destruct (@conflict_resolution_round_trip app token "anonymous:u1" "1"
              (Fixture.store_with [("anonymous:u1", "2"); ("facebook:fb", "3")]) "2"
              (mkErrorObj None
                 (Some (MergeAccounts (mkMergeSide "3" "facebook:fb" None)
                                      (mkMergeSide "2" "anonymous:u1" None)))
                 (Some (mkResolveToken "anonymous:u1" ["resolve_conflict"] "1" 0))
                 None None)
              (mkState [("anonymous:u1", "2"); ("facebook:fb", "3")] [("1", "{}")] 2 []
                       1 [ReqMassProfiles "1" ["3"; "2"];
                          LogException "failed to get profiles for conflict: %s, %s"])
              eq_refl eq_refl eq_refl eq_refl)
    as (resolve_token & _ & Hname & Hg & Hscopes & _).
  exists resolve_token. repeat split; assumption.
Defined.

Lemma list_remove_In x l l' : list_remove x l = Some l' -> In x l.
Proof.
  revert l'. induction l as [| y l IH]; simpl; intros l'; [discriminate |].
  destruct (String.eqb_spec y x) as [-> | Hne]; [now left |].
  destruct (list_remove x l) as [r |]; [| discriminate].
  intros _. right. now apply (IH r).
Qed.

Lemma NoDup_detach_all c accounts links :
  NoDup links -> NoDup (detach_all c accounts links).
Proof.
  unfold detach_all. revert links. induction accounts as [| a accounts IH]; simpl.
  - auto.
  - intros links Hnd. apply IH. unfold detach_link. now apply NoDup_filter.
Qed.

Lemma NoDup_only {A} (x : A) (l : list A) :
  NoDup l -> (forall y, In y l <-> y = x) -> l = [x].
Proof.
  intros Hnd Honly. destruct l as [| y l].
  - destruct (Honly x) as [_ H]. destruct (H eq_refl).
  - assert (Hy : y = x) by (apply Honly; now left). subst y.
    inversion Hnd as [| ? ? Hnot Hnd']; subst.
    destruct l as [| z l]; [reflexivity |].
    assert (Hz : z = x) by (apply Honly; right; now left). subst z.
    exfalso. apply Hnot. now left.
Qed.

(** X14. A resolved conflict stays resolved: on a link table without duplicate
    rows, when the closure [_multiple_accounts_attached] of [resolve_conflict]
    returns an account (which it does when every other account keeps another
    credential), the credential is linked to that account alone, and the
    account selection of [authorize] for that credential now returns it
    without raising and without writing. *)
Theorem resolution_then_authorize app credential args g s account s1 :
  NoDup (st_links s) ->
  _multiple_accounts_attached credential args s = Ok account s1 ->
  account = get_default (arg_resolve_with args) ""
  /\ accounts_of (st_links s1) credential = [account]
  /\ select_account app None credential g s1 = Ok account s1.
Proof.
  intros Hnd Hrun. rewrite multiple_accounts_attached_run in Hrun.
  destruct (list_remove (get_default (arg_resolve_with args) "")
              (accounts_of (st_links s) credential)) as [others |] eqn:E;
    [| discriminate].
  destruct (for_each others _ s) as [u s2 | e s2] eqn:Eloop; [| discriminate].
  injection Hrun as Hacc <-.
  apply for_each_detach_Ok in Eloop. subst s2.
  pose proof (list_remove_In _ _ E) as Hin.
  pose proof (@list_remove_Some _ _ _ (@NoDup_accounts_of _ credential Hnd) E) as Hothers.
  rewrite Hacc in *.
  assert (Hone : accounts_of (detach_all credential others (st_links s)) credential
                 = [account]).
  { apply NoDup_only.
    - apply NoDup_accounts_of, NoDup_detach_all, Hnd.
    - intros a. rewrite In_accounts_of, In_detach_all. simpl. split.
      + intros [Ha Hno]. destruct (string_dec a account) as [-> | Hne]; [reflexivity |].
        exfalso. apply Hno. split; [reflexivity |].
        apply Hothers. split; [now apply In_accounts_of | assumption].
      + intros ->. split; [now apply In_accounts_of |].
        intros [_ Ho]. apply Hothers in Ho as [_ Ho]. now apply Ho. }
  split; [reflexivity |].
  split; [exact Hone |].
  unfold select_account, bind, list_accounts, gets. simpl. rewrite Hone. reflexivity.
Qed.

Lemma resolution_then_authorize_witness :
  let args := mkArgs None (Some "profile") None None None None None None None None None
                     (Some "7") [] in
  exists s1,
    _multiple_accounts_attached "google:gg" args
      (Fixture.store_with [("google:gg", "7"); ("google:gg", "8"); ("steam:s", "8")])
    = Ok "7" s1
    /\ select_account Fixture.app None "google:gg" "1" s1 = Ok "7" s1.
Proof.
  intros args.
  assert (Hnd : NoDup [("google:gg", "7"); ("google:gg", "8"); ("steam:s", "8")]).
  { repeat constructor; simpl; intuition discriminate. }
  eexists. split; [reflexivity |].
  destruct (@resolution_then_authorize Fixture.app "google:gg" args "1"
              (Fixture.store_with
                 [("google:gg", "7"); ("google:gg", "8"); ("steam:s", "8")]) "7" _
              Hnd eq_refl) as (_ & _ & Hselect).
  exact Hselect.
Defined.

(** ** The table [accounts] *)

Lemma str_inj n m : str n = str m -> n = m.
Proof.
  unfold str. intros H.
  apply Unsigned.to_uint_inj.
  assert (Hs : Some (N.to_uint n) = Some (N.to_uint m)).
  { rewrite <- (NilEmpty.usu (N.to_uint n)), <- (NilEmpty.usu (N.to_uint m)).
    now rewrite H. }
  now injection Hs.
Qed.

Lemma lookup_In {A} k (v : A) rows : lookup k rows = Some v -> In (k, v) rows.
Proof.
  induction rows as [| [k' v'] rows IH]; simpl; [discriminate |].
  destruct (String.eqb_spec k' k) as [-> | Hne].
  - intros [= ->]. now left.
  - intros H. right. now apply IH.
Qed.

Lemma lookup_app {A} k (rows rows' : list (string * A)) :
  lookup k (rows ++ rows') =
  match lookup k rows with
  | Some v => Some v
  | None => lookup k rows'
  end.
Proof.
  induction rows as [| [k' v'] rows IH]; simpl; [reflexivity |].
  destruct (k' =? k); [reflexivity | assumption].
Qed.

(** X15. [create_account] hands out fresh ids: when every account row carries
    an id the counter has already passed, the id returned is the text of the
    counter, no row had it, it has its row afterwards, every earlier account
    keeps its row, the next account created gets another id, and the rows
    still carry ids the counter has passed. *)
Theorem create_account_fresh s :
  ids_issued s ->
  exists s',
    create_account s = Ok (str (st_next_id s)) s'
    /\ has_account (str (st_next_id s)) s = false
    /\ has_account (str (st_next_id s)) s' = true
    /\ (forall a, has_account a s = true -> has_account a s' = true)
    /\ (forall account s'', create_account s' = Ok account s'' ->
                            account <> str (st_next_id s))
    /\ ids_issued s'
    /\ st_links s' = st_links s /\ st_tokens s' = st_tokens s.
Proof.
  intros Hissued. eexists. split; [reflexivity |]. simpl.
  assert (Hfresh : has_account (str (st_next_id s)) s = false).
  { unfold has_account.
    destruct (lookup (str (st_next_id s)) (st_accounts s)) as [info |] eqn:E;
      [| reflexivity].
    apply lookup_In, Hissued in E as (k & Hk & Heq).
    apply str_inj in Heq. subst k. exfalso. now apply N.lt_irrefl in Hk. }
  split; [exact Hfresh |].
  split.
  { unfold has_account in *. simpl. rewrite lookup_app.
    destruct (lookup (str (st_next_id s)) (st_accounts s)); [reflexivity |].
    simpl. now rewrite String.eqb_refl. }
  split.
  { intros a. unfold has_account. simpl. rewrite lookup_app.
    destruct (lookup a (st_accounts s)); [reflexivity | discriminate]. }
  split.
  { intros account s'' H. unfold create_account in H. simpl in H.
    injection H as <- _. intros Heq. apply str_inj in Heq.
    apply (N.neq_succ_diag_l (st_next_id s)). exact Heq. }
  split; [| split; reflexivity].
  intros a info Hin. simpl in Hin. apply in_app_iff in Hin as [Hin | [Hin | []]].
  - apply Hissued in Hin as (k & Hk & ->). exists k. split; [| reflexivity].
    simpl. apply N.lt_lt_succ_r. exact Hk.
  - injection Hin as <- _. exists (st_next_id s). split; [| reflexivity].
    simpl. apply N.lt_succ_diag_r.
Qed.

Lemma create_account_fresh_witness :
  exists s',
    create_account Fixture.empty_store = Ok "2" s'
    /\ has_account "2" Fixture.empty_store = false
    /\ has_account "2" s' = true.
Proof.
  destruct (@create_account_fresh Fixture.empty_store) as (s' & Hrun & Hno & Hyes & _).
  - intros a info [[= <- _] | []]. exists 1%N. split; reflexivity.
  - exists s'. repeat split; assumption.
Defined.

Lemma lookup_map_update {A} (k account : string) (value : A) rows :
  lookup k (map (fun row : string * A =>
                   if fst row =? account then (fst row, value) else row) rows)
  = if k =? account
    then match lookup k rows with Some _ => Some value | None => None end
    else lookup k rows.
Proof.
  induction rows as [| [k' v'] rows IH]; simpl.
  - destruct (k =? account); reflexivity.
  - destruct (String.eqb_spec k' account) as [-> | Hne]; simpl.
    + destruct (String.eqb_spec account k) as [<- | Hk].
      * now rewrite String.eqb_refl.
      * rewrite IH. reflexivity.
    + destruct (String.eqb_spec k' k) as [-> | Hk].
      * apply String.eqb_neq in Hne. now rewrite Hne.
      * assumption.
Qed.

(** X16. [update_account_info] then [get_account_info]: when [update] accepts
    the patch, the call returns; the info read back for the account is the
    merged value if the account has a row, and still nothing if it has none
    (the UPDATE matches no row); the info of every other account, the links and
    the tokens are as before. *)
Theorem update_then_get_account_info app account patch s merged :
  json_update app (lookup account (st_accounts s)) patch = Some merged ->
  exists s',
    update_account_info app account patch s = Ok tt s'
    /\ get_account_info account s'
       = Ok (if has_account account s then Some merged else None) s'
    /\ (forall other, other <> account ->
          get_account_info other s' = Ok (lookup other (st_accounts s)) s')
    /\ st_links s' = st_links s /\ st_tokens s' = st_tokens s
    /\ st_next_id s' = st_next_id s.
Proof.
  intros Hupdate.
  unfold update_account_info, bind, get_account_info, gets. rewrite Hupdate.
  eexists. split; [reflexivity |]. simpl.
  split.
  { rewrite lookup_map_update, String.eqb_refl. unfold has_account.
    destruct (lookup account (st_accounts s)); reflexivity. }
  split; [| auto].
  intros other Hother. rewrite lookup_map_update.
  apply String.eqb_neq in Hother. now rewrite Hother.
Qed.

Lemma update_then_get_account_info_witness :
  let app := mkApplication (fun _ => []) (fun _ => true) [] (fun _ => None)
               (fun _ _ => None) (fun _ => None) (fun _ _ _ _ => Reply tt)
               (fun _ _ _ _ _ _ => Reply None) (fun _ _ _ => Reply tt)
               (fun _ _ => Reply []) (fun _ => LoadFailed)
               (fun _ patch => Some patch) 0 in
  exists s',
    update_account_info app "1" "{a:1}" Fixture.empty_store = Ok tt s'
    /\ get_account_info "1" s' = Ok (Some "{a:1}") s'.
Proof.
  intros app.
  destruct (@update_then_get_account_info app "1" "{a:1}" Fixture.empty_store
              "{a:1}" eq_refl) as (s' & Hrun & Hget & _).
  exists s'. split; [exact Hrun | exact Hget].
Defined.

(** ** [lookup_account] and [accounts_deleted] *)

(** X17. When [lookup_account] returns, the credential is linked to the
    account it returns, and asking again returns the same account and writes
    nothing; when the credential already had an account, the first call wrote
    nothing either, and otherwise the account is the new row, which the
    credential is now linked to. *)
Theorem lookup_account_idempotent credential s account s1 :
  lookup_account credential s = Ok account s1 ->
  linked (st_links s1) credential account = true
  /\ lookup_account credential s1 = Ok account s1
  /\ (accounts_of (st_links s) credential <> [] -> s1 = s)
  /\ (accounts_of (st_links s) credential = [] ->
      account = str (st_next_id s) /\ st_next_id s1 = N.succ (st_next_id s)
      /\ st_links s1 = st_links s ++ [(credential, account)]).
Proof.
  unfold lookup_account, bind, get_account, gets.
  destruct (accounts_of (st_links s) credential) as [| a others] eqn:E; simpl.
  - assert (Hno : linked (st_links s) credential (str (st_next_id s)) = false).
    { apply linked_false. now apply accounts_of_nil. }
    unfold ret, set_links, attach_link. simpl. rewrite Hno.
    intros H. injection H as <- <-. simpl.
    split; [apply linked_In, in_app_iff; right; now left |].
    split; [| split; [intros H; now destruct H | auto]].
    rewrite accounts_of_app, E. unfold accounts_of. simpl.
    rewrite String.eqb_refl. reflexivity.
  - intros H. injection H as <- <-.
    split.
    { apply linked_In, In_accounts_of. rewrite E. now left. }
    split; [now rewrite E |].
    split; [reflexivity | discriminate].
Qed.

Lemma lookup_account_idempotent_witness :
  exists s1,
    lookup_account "anonymous:u1" Fixture.empty_store = Ok "2" s1
    /\ lookup_account "anonymous:u1" s1 = Ok "2" s1.
Proof.
  eexists. split; [reflexivity |].
  exact (proj1 (proj2 (@lookup_account_idempotent "anonymous:u1" Fixture.empty_store
                         "2" _ eq_refl))).
Defined.

Lemma lookup_filter_accounts (a : Account) (accounts : list Account)
  (rows : list (Account * string)) :
  lookup a (filter (fun row => negb (mem (fst row) accounts)) rows)
  = if mem a accounts then None else lookup a rows.
Proof.
  induction rows as [| [k v] rows IH]; simpl.
  - destruct (mem a accounts); reflexivity.
  - destruct (mem k accounts) eqn:Ek; simpl.
    + rewrite IH. destruct (String.eqb_spec k a) as [-> | Hne]; [| reflexivity].
      now rewrite Ek.
    + destruct (String.eqb_spec k a) as [-> | Hne]; [now rewrite Ek | assumption].
Qed.

(** X18. [accounts_deleted] with [gamespace_only] does nothing.  Otherwise, for
    a non-empty list of accounts, it returns; afterwards exactly the links and
    rows of the accounts not listed remain, so no link and no row of a listed
    account is left; if every link had its account row before, so it is
    after; the token store is not touched. *)
Theorem accounts_deleted_cascade g accounts s :
  accounts <> [] ->
  accounts_deleted g accounts true s = Ok tt s
  /\ exists s',
       accounts_deleted g accounts false s = Ok tt s'
       /\ (forall c a, linked (st_links s') c a = true
                       <-> linked (st_links s) c a = true /\ ~ In a accounts)
       /\ (forall a, has_account a s' = true
                     <-> has_account a s = true /\ ~ In a accounts)
       /\ (no_orphan_link s -> no_orphan_link s')
       /\ st_tokens s' = st_tokens s
       /\ st_next_id s' = st_next_id s.
Proof.
  intros _. split; [reflexivity |].
  eexists. split; [reflexivity |]. simpl.
  assert (Hmem : forall a, mem a accounts = false <-> ~ In a accounts).
  { intros a. rewrite <- mem_In. destruct (mem a accounts); split; congruence. }
  assert (Hlinks : forall c a,
            In (c, a) (filter (fun l : Credential * Account =>
                                 negb (mem (snd l) accounts)) (st_links s))
            <-> In (c, a) (st_links s) /\ ~ In a accounts).
  { intros c a. rewrite filter_In, negb_true_iff. simpl. now rewrite Hmem. }
  assert (Hrows : forall a,
            has_account a
              (set_accounts (filter (fun row => negb (mem (fst row) accounts)))
                 (set_links (filter (fun l => negb (mem (snd l) accounts))) s)) = true
            <-> has_account a s = true /\ ~ In a accounts).
  { intros a. unfold has_account. simpl. rewrite lookup_filter_accounts.
    rewrite <- Hmem. destruct (mem a accounts); [| tauto].
    split; [discriminate | intros [_ H]; discriminate]. }
  split.
  { intros c a. rewrite !linked_In. apply Hlinks. }
  split; [exact Hrows |].
  split; [| auto].
  intros Horphan c a Hin. simpl in Hin. apply Hlinks in Hin as [Hin Hkeep].
  apply Hrows. split; [exact (Horphan c a Hin) | exact Hkeep].
Qed.

Lemma accounts_deleted_cascade_witness :
  exists s',
    accounts_deleted "1" ["2"] false
      (mkState [("anonymous:u1", "2"); ("google:gg", "3")]
               [("1", "{}"); ("2", "{}"); ("3", "{}")] 4 [] 0 []) = Ok tt s'
    /\ linked (st_links s') "google:gg" "3" = true.
Proof.
  destruct (@accounts_deleted_cascade "1" ["2"]
              (mkState [("anonymous:u1", "2"); ("google:gg", "3")]
                       [("1", "{}"); ("2", "{}"); ("3", "{}")] 4 [] 0 []))
    as (_ & s' & Hrun & Hlinks & _); [discriminate |].
  exists s'. split; [exact Hrun |].
  apply Hlinks. split; [reflexivity |]. simpl. intros [H | []]. discriminate.
Defined.

(** ** [attach_account] and [resolve_conflict]: checks before the merge *)

(** X19. [attach_account] checks its arguments in this order and writes
    nothing when a check fails: a missing [access_token], [attach_to] or
    [scopes] gives [missing_argument] (400); an access token that does not
    validate gives [access_token_invalid] (403), whatever [attach_to] is; then
    an [attach_to] that does not validate gives [attach_to_token_invalid]
    (403); then tokens of different gamespaces give [wrong_gamespace] (400).
    Past the checks it merges the credential of the access token into the
    account of [attach_to] with no [resolve] option, in the gamespace of
    [attach_to], and authenticates the account the merge returns. *)
Theorem attach_account_checks app args env s :
  (arg_access_token args = None \/ arg_attach_to args = None \/ arg_scopes args = None ->
   exists obj, attach_account app args env s
               = Raise (AuthenticationError 400 "missing_argument" obj) s)
  /\ (forall access_token attach_to scopes,
        arg_access_token args = Some access_token ->
        arg_attach_to args = Some attach_to ->
        arg_scopes args = Some scopes ->
        (validate access_token s = Ok false s ->
         exists obj, attach_account app args env s
                     = Raise (AuthenticationError 403 "access_token_invalid" obj) s)
        /\ (validate access_token s = Ok true s ->
            validate attach_to s = Ok false s ->
            exists obj, attach_account app args env s
                        = Raise (AuthenticationError 403 "attach_to_token_invalid" obj) s)
        /\ (validate access_token s = Ok true s ->
            validate attach_to s = Ok true s ->
            tok_gamespace (tv_token access_token) <> tok_gamespace (tv_token attach_to) ->
            exists obj, attach_account app args env s
                        = Raise (AuthenticationError 400 "wrong_gamespace" obj) s)
        /\ (validate access_token s = Ok true s ->
            validate attach_to s = Ok true s ->
            tok_gamespace (tv_token access_token) = tok_gamespace (tv_token attach_to) ->
            attach_account app args env s
            = (account <- __merge_accounts__ app (tv_token attach_to)
                            (tok_name (tv_token access_token)) None
                            (tok_gamespace (tv_token attach_to)) ;;
               proceed_authentication app account (tok_name (tv_token access_token))
                 (tok_gamespace (tv_token attach_to)) (parse_scopes app scopes)
                 args env) s)).
Proof.
  split.
  - intros Hmissing. unfold attach_account.
    destruct (arg_access_token args); [| eexists; reflexivity].
    destruct (arg_attach_to args); [| eexists; reflexivity].
    destruct (arg_scopes args); [| eexists; reflexivity].
    destruct Hmissing as [H | [H | H]]; discriminate.
  - intros access_token attach_to scopes Haccess Hattach Hscopes.
    unfold attach_account. rewrite Haccess, Hattach, Hscopes. unfold bind.
    repeat split.
    + intros H1. rewrite H1. eexists. reflexivity.
    + intros H1 H2. rewrite H1. cbv beta iota delta [ret]. rewrite H2.
      eexists. reflexivity.
    + intros H1 H2 Hg. rewrite H1. cbv beta iota delta [ret]. rewrite H2.
      cbv beta iota delta [ret].
      apply String.eqb_neq in Hg. rewrite Hg. eexists. reflexivity.
    + intros H1 H2 Hg. rewrite H1. cbv beta iota delta [ret]. rewrite H2.
      cbv beta iota delta [ret]. rewrite <- Hg, String.eqb_refl. reflexivity.
Qed.

Lemma attach_account_checks_witness :
  let args := mkArgs None (Some "profile") None None
                     (Some (mkTokenArg (Fixture.bearer "facebook:fb" "3") true))
                     (Some (mkTokenArg (mkAccessToken "anonymous:u1" [] "2" "9" None 0) true))
                     None None None None None None [] in
  exists obj,
    attach_account Fixture.app args None Fixture.empty_store
    = Raise (AuthenticationError 400 "wrong_gamespace" obj) Fixture.empty_store.
Proof.
  intros args.
  destruct (@attach_account_checks Fixture.app args None Fixture.empty_store)
    as [_ Hchecks].
  destruct (Hchecks (mkTokenArg (mkAccessToken "anonymous:u1" [] "2" "9" None 0) true)
              (mkTokenArg (Fixture.bearer "facebook:fb" "3") true) "profile"
              eq_refl eq_refl eq_refl) as (_ & _ & Hwrong & _).
  apply Hwrong; [reflexivity | reflexivity | discriminate].
Defined.

(** X20. [attach_account] never takes a credential away from its account on
    its own: when the account of [attach_to] has no credential of the type and
    the credential of the access token is linked to one account, the call
    raises (it passes no [resolve] option) and the links, the tokens and the
    account rows are as before. *)
Theorem attach_account_conflict_raises
  app args env s access_token attach_to scopes account_mine :
  arg_access_token args = Some access_token ->
  arg_attach_to args = Some attach_to ->
  arg_scopes args = Some scopes ->
  credentials_of (st_links s) (tok_account (tv_token attach_to))
    [credential_type (tok_name (tv_token access_token))] = [] ->
  accounts_of (st_links s) (tok_name (tv_token access_token)) = [account_mine] ->
  exists e s',
    attach_account app args env s = Raise e s'
    /\ st_links s' = st_links s /\ st_tokens s' = st_tokens s
    /\ st_accounts s' = st_accounts s.
Proof.
  intros Haccess Hattach Hscopes Hsame Hone.
  unfold attach_account. rewrite Haccess, Hattach, Hscopes.
  unfold bind, validate, gets.
  cbv beta iota delta [ret].
  match goal with
  | |- context [tv_signed access_token && ?x] => destruct (tv_signed access_token && x)
  end; [| eexists; eexists; split; [reflexivity | auto]].
  cbv beta iota delta [ret].
  match goal with
  | |- context [tv_signed attach_to && ?x] => destruct (tv_signed attach_to && x)
  end; [| eexists; eexists; split; [reflexivity | auto]].
  cbv beta iota delta [ret].
  match goal with
  | |- context [negb ?x] => destruct (negb x)
  end; [eexists; eexists; split; [reflexivity | auto] |].
  destruct (@merge_conflict_run app (tv_token attach_to)
              (tok_name (tv_token access_token))
              (tok_gamespace (tv_token attach_to)) s account_mine Hsame Hone)
    as (events & ->).
  eexists. eexists. split; [reflexivity | auto].
Qed.

Lemma attach_account_conflict_raises_witness :
  let args := mkArgs None (Some "profile") None None
                     (Some (mkTokenArg (Fixture.bearer "google:gg" "3") true))
                     (Some (mkTokenArg (Fixture.bearer "anonymous:u1" "2") true))
                     None None None None None None [] in
  exists e s',
    attach_account Fixture.app args None
      (Fixture.store_with [("anonymous:u1", "2"); ("google:gg", "3")]) = Raise e s'
    /\ st_links s' = [("anonymous:u1", "2"); ("google:gg", "3")].
Proof.
  intros args.
  destruct (@attach_account_conflict_raises Fixture.app args None
              (Fixture.store_with [("anonymous:u1", "2"); ("google:gg", "3")])
              (mkTokenArg (Fixture.bearer "anonymous:u1" "2") true)
              (mkTokenArg (Fixture.bearer "google:gg" "3") true) "profile" "2"
              eq_refl eq_refl eq_refl eq_refl eq_refl)
    as (e & s' & Hrun & Hlinks & _).
  exists e, s'. split; [exact Hrun | exact Hlinks].
Defined.

(** X21. [resolve_conflict] checks before it writes: without [resolve_with]
    or [scopes] it fails [missing_argument] (400); with a method other than
    "merge_required" and "multiple_accounts_attached" it fails
    [bad_resolve_method] (400); with the method "merge_required" and no
    [attach_to], or one that does not validate, it fails
    [attach_to_token_invalid] (403).  The store is untouched in each case. *)
Theorem resolve_conflict_checks app resolve_token method args env s :
  (arg_resolve_with args = None \/ arg_scopes args = None ->
   exists obj, resolve_conflict app resolve_token method args env s
               = Raise (AuthenticationError 400 "missing_argument" obj) s)
  /\ (forall resolve_with scopes,
        arg_resolve_with args = Some resolve_with ->
        arg_scopes args = Some scopes ->
        (method <> "merge_required" -> method <> "multiple_accounts_attached" ->
         exists obj, resolve_conflict app resolve_token method args env s
                     = Raise (AuthenticationError 400 "bad_resolve_method" obj) s)
        /\ (method = "merge_required" ->
            match arg_attach_to args with
            | None => True
            | Some token => validate token s = Ok false s
            end ->
            exists obj, resolve_conflict app resolve_token method args env s
                        = Raise (AuthenticationError 403 "attach_to_token_invalid" obj) s)).
Proof.
  split.
  - intros Hmissing. unfold resolve_conflict.
    destruct (arg_resolve_with args); [| eexists; reflexivity].
    destruct (arg_scopes args); [| eexists; reflexivity].
    destruct Hmissing; discriminate.
  - intros resolve_with scopes Hwith Hscopes.
    unfold resolve_conflict. rewrite Hwith, Hscopes. split.
    + intros H1 H2. apply String.eqb_neq in H1, H2. simpl. rewrite H1, H2. simpl.
      eexists. reflexivity.
    + intros -> Htoken. simpl. unfold bind, _merge_required.
      destruct (arg_attach_to args) as [token |]; [| eexists; reflexivity].
      unfold bind. rewrite Htoken. eexists. reflexivity.
Qed.

Lemma resolve_conflict_checks_witness :
  let args := mkArgs None (Some "profile") None None None None None None None None None
                     (Some "local") [] in
  exists obj,
    resolve_conflict Fixture.app (mkResolveToken "google:gg" ["resolve_conflict"] "1" 0)
      "merge_required" args None Fixture.empty_store
    = Raise (AuthenticationError 403 "attach_to_token_invalid" obj) Fixture.empty_store.
Proof.
  intros args.
  destruct (@resolve_conflict_checks Fixture.app
              (mkResolveToken "google:gg" ["resolve_conflict"] "1" 0) "merge_required"
              args None Fixture.empty_store) as [_ Hchecks].
  destruct (Hchecks "local" "profile" eq_refl eq_refl) as [_ Hinvalid].
  apply Hinvalid; [reflexivity | exact I].
Defined.

(** ** The social import and the composed credential in [authorize] *)

(** X22. When the authenticator's response asks for the social import:
    an [InternalError(code, body)] of the import fails [authorize] with that
    code, the result id [failed_to_import_social] and the body as info, before
    any account is selected or created (only the request is in the trace);
    a [DiscoveryError] is only logged, and the login goes on to the account
    selection. *)
Theorem authorize_import_social
  app args env s cred_type scopes authorizer g result response :
  arg_credential args = Some cred_type ->
  arg_scopes args = Some scopes ->
  arg_attach_to args = None ->
  lookup cred_type (credential_types app) = Some authorizer ->
  gamespace_of app args = Some g ->
  authenticator_authorize authorizer g args env = Authorized result ->
  res_response result = Some response ->
  import_social response = true ->
  let request := ReqImportSocial g (res_credential result) (res_username result)
                   (resp_data response) in
  (forall code body,
     import_social_reply app g (res_credential result) (res_username result)
       (resp_data response) = InternalError code body ->
     authorize app args env s
     = Raise (AuthenticationError code "failed_to_import_social" (with_info body))
             (logged [request] s))
  /\ (forall code message,
        import_social_reply app g (res_credential result) (res_username result)
          (resp_data response) = DiscoveryFailed code message ->
        authorize app args env s
        = (account <- select_account app None (credential_of result) g ;;
           proceed_authentication app account (credential_of result) g
             (parse_scopes app scopes) args env)
            (logged [request; LogWarning "Failed to discover social: "] s)).
Proof.
  intros Hcred Hscopes Hattach Hty Hg Hauth Hresp Himp request.
  assert (Hrun : authorize app args env s =
    (__import_social_connections__ app g (res_credential result) (res_username result)
       response ;;
     account <- select_account app None (credential_of result) g ;;
     proceed_authentication app account (credential_of result) g
       (parse_scopes app scopes) args env) s).
  { unfold authorize, gamespace_of in *. rewrite Hcred, Hscopes, Hattach.
    assert (Hname : exists name,
               (if truthy_opt (arg_gamespace_id args) then Some "" else arg_gamespace args)
               = Some name
               /\ (if truthy_opt (arg_gamespace_id args)
                   then ret (get_default (arg_gamespace_id args) "")
                   else match find_gamespace app name with
                        | Some g0 => ret g0
                        | None =>
                            raise (AuthenticationError 404 "no_such_gamespace"
                                     (with_info ("Gamespace '" ++ name
                                                 ++ "' was not found.")%string))
                        end) = ret g).
    { destruct (truthy_opt (arg_gamespace_id args)).
      - exists "". split; [reflexivity |]. rewrite Hg. reflexivity.
      - destruct (arg_gamespace args) as [name |]; [| discriminate].
        exists name. split; [reflexivity |]. rewrite Hg. reflexivity. }
    destruct Hname as (name & -> & Hfind). rewrite Hty, Hfind.
    unfold bind at 1. unfold ret at 1. unfold bind at 1. unfold ret at 1.
    rewrite Hauth, Hresp, Himp. reflexivity. }
  rewrite Hrun. split.
  - intros code body Hreply. unfold bind at 1.
    rewrite import_social_run, Hreply. reflexivity.
  - intros code message Hreply. unfold bind at 1.
    rewrite import_social_run, Hreply. reflexivity.
Qed.

Lemma authorize_import_social_witness :
  let importing := mkAuthenticator true (fun _ _ _ =>
                     Authorized (mkAuthResult "google" "gg"
                                   (Some (mkAuthResponse true "friends")))) in
  let app :=
    mkApplication (Fixture.split_commas "") (fun _ => true) [("google", importing)]
      (fun _ => Some "1") (fun _ _ => None) (fun _ => Some "profile")
      (fun _ _ _ _ => InternalError 502 "social is down")
      (fun _ _ _ _ _ _ => Reply None) (fun _ _ _ => Reply tt) (fun _ _ => Reply [])
      (fun _ => LoadFailed) (fun _ _ => None) 3600 in
  authorize app (Fixture.login "google" "gg" None) None Fixture.empty_store
  = Raise (AuthenticationError 502 "failed_to_import_social" (with_info "social is down"))
          (logged [ReqImportSocial "1" "google" "gg" "friends"] Fixture.empty_store).
Proof.
  intros importing app.
  destruct (@authorize_import_social app (Fixture.login "google" "gg" None) None
              Fixture.empty_store "google" "profile" importing "1"
              (mkAuthResult "google" "gg" (Some (mkAuthResponse true "friends")))
              (mkAuthResponse true "friends")
              eq_refl eq_refl eq_refl eq_refl eq_refl eq_refl eq_refl eq_refl)
    as [Hfail _].
  exact (Hfail 502%Z "social is down" eq_refl).
Defined.

Lemma parse_account_compose t u :
  has_colon t = false -> parse_account (t ++ ":" ++ u) = (t, u).
Proof.
  induction t as [| a t IH]; simpl.
  - reflexivity.
  - intros H. apply orb_false_iff in H as [Ha Ht].
    rewrite Ha. simpl in IH. rewrite (IH Ht). reflexivity.
Qed.

(** X23. The type [authorize] looks up and the type [proceed_authentication]
    reads back from the composed credential agree: when the authenticator
    returns the colon-free type it is registered under, [authorize] (without
    [attach_to]) never fails [unknown_credential] once the authenticator has
    accepted, whatever the user name, colons included. *)
Theorem authorize_type_check_agrees
  app args env s cred_type scopes authorizer g result code obj s' :
  arg_credential args = Some cred_type ->
  arg_scopes args = Some scopes ->
  arg_attach_to args = None ->
  lookup cred_type (credential_types app) = Some authorizer ->
  gamespace_of app args = Some g ->
  authenticator_authorize authorizer g args env = Authorized result ->
  import_passes app g result ->
  res_credential result = cred_type ->
  has_colon cred_type = false ->
  credential_type (credential_of result) = cred_type
  /\ authorize app args env s
     <> Raise (AuthenticationError code "unknown_credential" obj) s'.
Proof.
  intros Hcred Hscopes Hattach Hty Hg Hauth Himport Hsame Hcolon.
  assert (Htype : credential_type (credential_of result) = cred_type).
  { unfold credential_type, credential_of. rewrite Hsame.
    now rewrite parse_account_compose. }
  split; [exact Htype |].
  destruct (@authorize_selection app args env s cred_type scopes authorizer g result
              Hcred Hscopes Hattach Hty Hg Hauth Himport) as (events & ->).
  intros H. apply bind_Raise in H as [H | (account & s1 & _ & H)].
  - unfold select_account, bind, list_accounts, gets in H.
    destruct (accounts_of _ _) as [| a [| a' l]]; try discriminate.
    rewrite multiple_accounts_run in H.
    destruct (mass_profiles_reply app g _); discriminate.
  - destruct (bad_auth_as app args) eqn:Has.
    { unfold proceed_authentication in H. unfold bad_auth_as in Has.
      rewrite Has in H. discriminate. }
    rewrite <- Htype in Hty.
    rewrite (@proceed_after_social app authorizer account (credential_of result) g
               (parse_scopes app scopes) args env s1 Has Hty) in H.
    apply bind_Raise in H as [H | (profile_data & s2 & _ & H)].
    + rewrite social_attach_run in H. simpl in H.
      destruct (social_profile authorizer); [| discriminate].
      destruct (attach_account_reply _ _ _ _ _ _ _); discriminate.
    + rewrite after_social_run in H.
      destruct (get_gamespace_access_scopes app g); simpl in H; [| discriminate].
      destruct (find _ (parse_scopes app scopes)); [discriminate |].
      destruct (non_unique args && negb _); [discriminate |].
      apply bind_Raise in H as [H | (u & s3 & _ & H)].
      * apply info_step_Raise in H as [_ [H | H]]; discriminate.
      * apply mint_Raise in H. discriminate.
Qed.

Lemma authorize_type_check_agrees_witness :
  credential_type (credential_of (mkAuthResult "google" "a:b" None)) = "google".
Proof.
  destruct (@authorize_type_check_agrees Fixture.app (Fixture.login "google" "a:b" None)
              None Fixture.empty_store "google" "profile" (Fixture.trusting "google" true)
              "1" (mkAuthResult "google" "a:b" None) 400%Z (with_info "")
              Fixture.empty_store eq_refl eq_refl eq_refl eq_refl eq_refl eq_refl)
    as [Htype _].
  - intros response c body Hresponse. discriminate.
  - reflexivity.
  - reflexivity.
  - exact Htype.
Defined.

(** [check_account_exists] reads what [has_account] tells. *)
Lemma check_account_exists_run account s :
  check_account_exists account s = Ok (has_account account s) s.
Proof. reflexivity. Qed.
